(** * µOS++ intrusive lists (src/rtos/os-lists.cpp)

    A shallow embedding of the scheduler lists of µOS++: the link node
    [static_double_list_links], the list base [static_double_list] and the
    thread, wait, ready, terminated and clock lists built on it, followed
    by the properties the specification states about them.

    Memory is an explicit store.  A C++ pointer is an [option ptr]
    ([None] is [nullptr]), a reference or [this] is a [ptr].  Every
    member function is a computation in a state-and-fault monad: a
    dereference of [nullptr], an access through a pointer to no object of
    the expected class and a failed [assert] are faults that stop the
    computation; the build modelled is the one with assertions on.

    The model is sequential: an [interrupts::critical_section] has no
    counterpart, and the trace lines of [OS_TRACE_RTOS_LISTS] are left
    out.  [assert (thread != nullptr)] on the address of a reference
    cannot fail and is left out as well. *)

From stdpp Require Import gmap list sorting.
From Stdlib Require Import ZArith Lia.

Local Open Scope Z_scope.

(** ** Store *)

Definition ptr := Z.

(** [static_double_list_links]: the two pointers of a link node. *)
Record links := Links { prev : option ptr; next : option ptr }.

(** [thread::state]; modelled from the spec (section 3), the enumeration
    itself is declared in os-thread.h. *)
Inductive state_t := ready | running | waiting | terminated | destroyed.

(** The fields of [thread] the lists touch.  [child_links_] is the
    address of the link node embedded in the thread. *)
Record thread_t := Thread {
  prio_ : Z;
  sched_state_ : state_t;
  child_links_ : ptr
}.

(** The two classes derived from [timestamp_node]. *)
Inductive timestamp_variant :=
| timeout_thread_node (th : ptr)
| timer_node (tmr : ptr).

Record timestamp_node := TimestampNode {
  timestamp : Z;
  variant : timestamp_variant
}.

(** Modelled from the spec: class [timer] is not part of os-lists.cpp.
    Section 3 says its interrupt service routine may, for a periodic
    timer, enqueue the node again one period later.  The record keeps
    what that needs: the period ([None] for a single-shot timer), the
    timer's node and the header of the clock list it is queued on. *)
Record timer_t := Timer {
  period : option Z;
  timer_node_ : ptr;
  clock_list : ptr
}.

(** Calls that leave os-lists.cpp, and the calls of [action ()] made by
    [check_timestamp] with the head time stamp they were made for. *)
Inductive event :=
| ev_resume (th : ptr)
| ev_timer (tmr : ptr)
| ev_action (node : ptr) (head_ts : Z).

Record state := State {
  links_of : gmap ptr links;
  thread_ : gmap ptr ptr;
  ts_nodes : gmap ptr timestamp_node;
  threads : gmap ptr thread_t;
  timers : gmap ptr timer_t;
  trace : list event
}.

(** ** Faults and the monad *)

Inductive fault :=
| null_dereference
| wild_pointer
| assertion_failed (line : nat)
| diverges
| out_of_fuel.

Inductive result (A : Type) :=
| Ok (a : A)
| Fault (f : fault).
Arguments Ok {A} a.
Arguments Fault {A} f.

Definition op (A : Type) : Type := state → result (A * state).

Definition ret {A} (a : A) : op A := λ s, Ok (a, s).

Definition bind {A B} (c : op A) (k : A → op B) : op B :=
  λ s, match c s with
       | Ok (a, s') => k a s'
       | Fault f => Fault f
       end.

Definition raise {A} (f : fault) : op A := λ _, Fault f.

Notation "'let*' x ':=' c 'in' k" := (bind c (λ x, k))
  (at level 10, x pattern, c at level 100, k at level 200).
Notation "c ';;' k" := (bind c (λ _, k))
  (at level 100, k at level 200, right associativity).

(** [assert (b)] in the source line [line]. *)
Definition assert (b : bool) (line : nat) : op unit :=
  if b then ret tt else raise (assertion_failed line).

Definition when (b : bool) (c : op unit) : op unit :=
  if b then c else ret tt.

Definition is_null (p : option ptr) : bool :=
  match p with None => true | Some _ => false end.

Definition ptr_eqb (p q : option ptr) : bool := bool_decide (p = q).

Definition state_eqb (a b : state_t) : bool :=
  match a, b with
  | ready, ready | running, running | waiting, waiting
  | terminated, terminated | destroyed, destroyed => true
  | _, _ => false
  end.

(** ** Field accesses *)

Definition deref {A} (m : state → gmap ptr A) (p : option ptr) : op A :=
  λ s, match p with
       | None => Fault null_dereference
       | Some a => match m s !! a with
                   | Some v => Ok (v, s)
                   | None => Fault wild_pointer
                   end
       end.

Definition set_links (m : gmap ptr links) (s : state) : state :=
  State m (thread_ s) (ts_nodes s) (threads s) (timers s) (trace s).

Definition set_ts_nodes (m : gmap ptr timestamp_node) (s : state) : state :=
  State (links_of s) (thread_ s) m (threads s) (timers s) (trace s).

Definition set_threads (m : gmap ptr thread_t) (s : state) : state :=
  State (links_of s) (thread_ s) (ts_nodes s) m (timers s) (trace s).

Definition log (e : event) : op unit :=
  λ s, Ok (tt, State (links_of s) (thread_ s) (ts_nodes s) (threads s)
                     (timers s) (trace s ++ [e])).

(** [p->prev] and [p->next], read. *)
Definition get_prev (p : option ptr) : op (option ptr) :=
  let* c := deref links_of p in ret (prev c).

Definition get_next (p : option ptr) : op (option ptr) :=
  let* c := deref links_of p in ret (next c).

Definition store_links (a : ptr) (c : links) : op unit :=
  λ s, Ok (tt, set_links (<[a := c]> (links_of s)) s).

(** [p->prev = v] and [p->next = v]. *)
Definition put_prev (p v : option ptr) : op unit :=
  let* c := deref links_of p in
  match p with
  | Some a => store_links a (Links v (next c))
  | None => raise null_dereference
  end.

Definition put_next (p v : option ptr) : op unit :=
  let* c := deref links_of p in
  match p with
  | Some a => store_links a (Links (prev c) v)
  | None => raise null_dereference
  end.

(** [node->thread_], the thread a [waiting_thread_node] refers to.  The
    header of a list is a plain [static_double_list_links] and has no
    such member. *)
Definition get_thread_ (node : option ptr) : op ptr := deref thread_ node.

(** [node->timestamp]. *)
Definition get_timestamp (node : option ptr) : op Z :=
  let* n := deref ts_nodes node in ret (timestamp n).

Module thread.

Definition get (th : ptr) : op thread_t := deref threads (Some th).

(** Modelled from the spec: [thread::sched_prio ()] is defined in
    os-thread.h; the source comment in [link] calls it only an accessor,
    and the spec reads it as the thread's priority. *)
Definition sched_prio (th : ptr) : op Z :=
  let* t := get th in ret (prio_ t).

(** Modelled from the spec: [thread::sched_state ()], the accessor of
    the scheduler state. *)
Definition sched_state (th : ptr) : op state_t :=
  let* t := get th in ret (sched_state_ t).

(** [thread.sched_state_ = st]. *)
Definition set_sched_state_ (th : ptr) (st : state_t) : op unit :=
  let* t := get th in
  λ s, Ok (tt, set_threads
                 (<[th := Thread (prio_ t) st (child_links_ t)]> (threads s)) s).

(** Modelled from the spec: [thread::resume ()] belongs to the thread
    module; the lists only call it.  The call is recorded. *)
Definition resume (th : ptr) : op unit :=
  get th;; log (ev_resume th).

End thread.

(** ** static_double_list_links *)

Module static_double_list_links.

Definition unlink (this : ptr) : op unit :=
  let* n := get_next (Some this) in
  if is_null n then
    let* p := get_prev (Some this) in
    assert (is_null p) 66
  else
    (* prev->next = next; *)
    (let* p := get_prev (Some this) in
     let* n := get_next (Some this) in
     put_next p n);;
    (* next->prev = prev; *)
    (let* n := get_next (Some this) in
     let* p := get_prev (Some this) in
     put_prev n p);;
    put_prev (Some this) None;;
    put_next (Some this) None.

End static_double_list_links.

(** ** static_double_list

    A list is named by the address of its [head_] member. *)

Module static_double_list.

Definition clear (head_ : ptr) : op unit :=
  put_next (Some head_) (Some head_);;
  put_prev (Some head_) (Some head_).

(** Modelled from the spec: the inline members [empty], [head] and
    [tail] are defined in os-lists.h.  Section 4.2: [empty ()] is true
    iff [head_.next] is absent or equals [&head_]; [head ()] returns
    [head_.next] and [tail ()] returns [head_.prev]. *)
Definition empty (head_ : ptr) : op bool :=
  let* n := get_next (Some head_) in
  ret (is_null n || ptr_eqb n (Some head_)).

Definition head (head_ : ptr) : op (option ptr) := get_next (Some head_).

Definition tail (head_ : ptr) : op (option ptr) := get_prev (Some head_).

Definition insert_after (node : ptr) (after : option ptr) : op unit :=
  (let* p := get_prev (Some node) in assert (is_null p) 123);;
  (let* n := get_next (Some node) in assert (is_null n) 124);;
  (let* an := get_next after in assert (negb (is_null an)) 125);;
  (* node.prev = after; node.next = after->next; *)
  put_prev (Some node) after;;
  (let* an := get_next after in put_next (Some node) an);;
  (* after->next->prev = &node; after->next = &node; *)
  (let* an := get_next after in put_prev an (Some node));;
  put_next after (Some node).

End static_double_list.

(** [double_list]: the constructor runs [clear ()]. *)
Module double_list.

Definition construct (head_ : ptr) : op unit := static_double_list.clear head_.

Definition destruct (head_ : ptr) : op unit :=
  let* e := static_double_list.empty head_ in assert e 159.

End double_list.

(** A loop that only reads the store and has not ended after more
    iterations than there are link nodes has come back to a node it has
    already visited, in the same store: the C++ loop does not end. *)
Definition walk_bound : op nat := λ s, Ok (S (size (links_of s)), s).

(** ** Thread hierarchy lists *)

Module top_threads_list.
Import static_double_list.

Definition link (head_ : ptr) (th : ptr) : op unit :=
  (let* p := get_prev (Some head_) in when (is_null p) (clear head_));;
  let* t := thread.get th in
  let* after := tail head_ in
  insert_after (child_links_ t) after.

End top_threads_list.

Module thread_children_list.
Import static_double_list.

Definition link (head_ : ptr) (th : ptr) : op unit :=
  let* t := thread.get th in
  let* after := tail head_ in
  insert_after (child_links_ t) after.

End thread_children_list.

(** ** ready_threads_list *)

Module ready_threads_list.
Import static_double_list.

(** [p->thread_.prio_] *)
Definition prio_at (p : option ptr) : op Z :=
  let* th := get_thread_ p in
  let* t := thread.get th in ret (prio_ t).

(** [while (prio > after->thread_.prio_) after = after->prev;] *)
Fixpoint walk (fuel : nat) (prio : Z) (after : option ptr) : op (option ptr) :=
  match fuel with
  | O => raise diverges
  | S fuel' =>
      let* ap := prio_at after in
      if prio >? ap then
        let* p := get_prev after in walk fuel' prio p
      else ret after
  end.

Definition link (head_ : ptr) (node : ptr) : op unit :=
  (let* p := get_prev (Some head_) in when (is_null p) (clear head_));;
  let* prio := prio_at (Some node) in
  let* after := tail head_ in
  let* after :=
    (let* e := empty head_ in
     if e then ret after
     else
       let* ap := prio_at after in
       if prio <=? ap then ret after
       else
         let* h := head head_ in
         let* hp := prio_at h in
         if prio >? hp then ret (Some head_)
         else
           let* n := walk_bound in walk n prio after) in
  insert_after node after;;
  let* th := get_thread_ (Some node) in
  thread.set_sched_state_ th ready.

Definition unlink_head (head_ : ptr) : op ptr :=
  (let* e := empty head_ in assert (negb e) 246);;
  let* h := head head_ in
  let* th := get_thread_ h in
  let* h := head head_ in
  match h with
  | None => raise null_dereference
  | Some hd =>
      static_double_list_links.unlink hd;;
      thread.set_sched_state_ th running;;
      ret th
  end.

End ready_threads_list.

(** ** waiting_threads_list *)

Module waiting_threads_list.
Import static_double_list.

(** [p->thread_.sched_prio ()] *)
Definition sched_prio_at (p : option ptr) : op Z :=
  let* th := get_thread_ p in thread.sched_prio th.

(** [while (prio > after->thread_.sched_prio ()) after = after->prev;] *)
Fixpoint walk (fuel : nat) (prio : Z) (after : option ptr) : op (option ptr) :=
  match fuel with
  | O => raise diverges
  | S fuel' =>
      let* ap := sched_prio_at after in
      if prio >? ap then
        let* p := get_prev after in walk fuel' prio p
      else ret after
  end.

Definition link (head_ : ptr) (node : ptr) : op unit :=
  let* prio := sched_prio_at (Some node) in
  let* after := tail head_ in
  let* after :=
    (let* e := empty head_ in
     if e then ret after
     else
       let* ap := sched_prio_at after in
       if prio <=? ap then ret after
       else
         let* h := head head_ in
         let* hp := sched_prio_at h in
         if prio >? hp then ret (Some head_)
         else
           let* n := walk_bound in walk n prio after) in
  insert_after node after.

Definition resume_one (head_ : ptr) : op unit :=
  let* e := empty head_ in
  if e then ret tt
  else
    let* h := head head_ in
    let* th := get_thread_ h in
    let* h := head head_ in
    match h with
    | None => raise null_dereference
    | Some hd =>
        static_double_list_links.unlink hd;;
        let* st := thread.sched_state th in
        if negb (state_eqb st destroyed) then thread.resume th
        else ret tt
    end.


End waiting_threads_list.

(** ** terminated_threads_list *)

Module terminated_threads_list.
Import static_double_list.

Definition link (head_ : ptr) (node : ptr) : op unit :=
  (let* p := get_prev (Some head_) in when (is_null p) (clear head_));;
  let* after := tail head_ in
  insert_after node after.

End terminated_threads_list.

(** ** clock_timestamps_list and the time stamp nodes *)

Definition uint64_wrap (z : Z) : Z := z mod 2 ^ 64.

Module clock_timestamps_list.
Import static_double_list.

(** [while (timestamp < after->timestamp) after = after->prev;] *)
Fixpoint walk (fuel : nat) (ts : Z) (after : option ptr) : op (option ptr) :=
  match fuel with
  | O => raise diverges
  | S fuel' =>
      let* ats := get_timestamp after in
      if ts <? ats then
        let* p := get_prev after in walk fuel' ts p
      else ret after
  end.

Definition link (head_ : ptr) (node : ptr) : op unit :=
  let* ts := get_timestamp (Some node) in
  let* after := tail head_ in
  let* after :=
    (let* e := empty head_ in
     if e then ret after
     else
       let* ats := get_timestamp after in
       if ts >=? ats then ret after
       else
         let* h := head head_ in
         let* hts := get_timestamp h in
         if ts <? hts then ret (Some head_)
         else
           let* n := walk_bound in walk n ts after) in
  insert_after node after.

End clock_timestamps_list.

Module timer.

(** Modelled from the spec: [timer::_interrupt_service_routine ()] is
    not part of os-lists.cpp.  Section 3 and scenario S4: a periodic
    timer puts its node back on the clock list one period after the
    time stamp it has just expired at (in S4 the node at 100 with
    period 50 expires at 100, 150, 200, 250); a single-shot timer does
    not.  The time stamp is a [uint64_t].  The call is recorded. *)
Definition _interrupt_service_routine (tmr : ptr) : op unit :=
  let* t := deref timers (Some tmr) in
  log (ev_timer tmr);;
  match period t with
  | Some p =>
      let* n := deref ts_nodes (Some (timer_node_ t)) in
      (λ s, Ok (tt, set_ts_nodes
                      (<[timer_node_ t :=
                           TimestampNode (uint64_wrap (timestamp n + p))
                                         (variant n)]> (ts_nodes s)) s));;
      clock_timestamps_list.link (clock_list t) (timer_node_ t)
  | None => ret tt
  end.

End timer.

Module timeout_thread_node.

Definition action (this : ptr) (th : ptr) : op unit :=
  static_double_list_links.unlink this;;
  let* st := thread.sched_state th in
  when (negb (state_eqb st destroyed)) (thread.resume th).

End timeout_thread_node.

Module timer_node.

Definition action (this : ptr) (tmr : ptr) : op unit :=
  static_double_list_links.unlink this;;
  timer._interrupt_service_routine tmr.

End timer_node.

(** The virtual call [this->action ()]. *)
Definition action (this : ptr) : op unit :=
  let* n := deref ts_nodes (Some this) in
  match variant n with
  | timeout_thread_node th => timeout_thread_node.action this th
  | timer_node tmr => timer_node.action this tmr
  end.

(** The [for (;;)] loop of [clock_timestamps_list::check_timestamp].  An
    action may put nodes back on the list, so the number of iterations is
    not bounded by the length of the list: the loop takes fuel. *)
Fixpoint check_timestamp_loop (fuel : nat) (head_ : ptr) (now : Z) : op unit :=
  match fuel with
  | O => raise out_of_fuel
  | S fuel' =>
      let* e := static_double_list.empty head_ in
      if e then ret tt
      else
        let* h := static_double_list.head head_ in
        let* head_ts := get_timestamp h in
        if now >=? head_ts then
          let* h := static_double_list.head head_ in
          match h with
          | None => raise null_dereference
          | Some hd =>
              log (ev_action hd head_ts);;
              action hd;;
              check_timestamp_loop fuel' head_ now
          end
        else ret tt
  end.

(** [clock_timestamps_list::check_timestamp] *)
Definition check_timestamp (fuel : nat) (head_ : ptr) (now : Z) : op unit :=
  let* n := get_next (Some head_) in
  if is_null n then ret tt
  else check_timestamp_loop fuel head_ now.

(** ** Sequences of calls *)

Fixpoint for_each {A} (f : A → op unit) (l : list A) : op unit :=
  match l with
  | [] => ret tt
  | a :: l' => f a;; for_each f l'
  end.

(** ** The store as a ring of nodes *)

Definition nxt (m : gmap ptr links) (p : ptr) : option ptr := m !! p ≫= next.
Definition prv (m : gmap ptr links) (p : ptr) : option ptr := m !! p ≫= prev.
Definition valid (m : gmap ptr links) (p : ptr) : Prop := is_Some (m !! p).

(** A node with both pointers absent. *)
Definition detached (m : gmap ptr links) (p : ptr) : Prop :=
  m !! p = Some (Links None None).

(** The store after [p->prev = v] and after [p->next = v]. *)
Definition upd_prev (m : gmap ptr links) (p : ptr) (v : option ptr) : gmap ptr links :=
  match m !! p with Some c => <[p := Links v (next c)]> m | None => m end.

Definition upd_next (m : gmap ptr links) (p : ptr) (v : option ptr) : gmap ptr links :=
  match m !! p with Some c => <[p := Links (prev c) v]> m | None => m end.

(** The four stores of [insert_after (node, after)], [a] being the old
    [after->next], and of [this->unlink ()] between [p] and [n]. *)
Definition after_insert (m : gmap ptr links) (node after a : ptr) : gmap ptr links :=
  upd_next (upd_prev (upd_next (upd_prev m node (Some after)) node (Some a))
                     a (Some node)) after (Some node).

Definition after_unlink (m : gmap ptr links) (this p n : ptr) : gmap ptr links :=
  upd_next (upd_prev (upd_prev (upd_next m p (Some n)) n (Some p)) this None) this None.

(** [dseg m p l q]: following [next] from [p] visits the nodes of [l] in
    order and then reaches [q], and every [prev] on the way points back. *)
Fixpoint dseg (m : gmap ptr links) (p : ptr) (l : list ptr) (q : ptr) : Prop :=
  match l with
  | [] => nxt m p = Some q ∧ prv m q = Some p
  | x :: l' => nxt m p = Some x ∧ prv m x = Some p ∧ dseg m x l' q
  end.

(** The list with header [h] holds the nodes [l], head first: the header
    and the nodes are distinct and form a ring in both directions. *)
Definition is_list (m : gmap ptr links) (h : ptr) (l : list ptr) : Prop :=
  NoDup (h :: l) ∧ dseg m h l h.

(** The nodes met by following [next] from [p] until the header [h]. *)
Fixpoint follow (fuel : nat) (m : gmap ptr links) (h p : ptr) : list ptr :=
  match fuel with
  | O => []
  | S fuel' =>
      match nxt m p with
      | Some n => if decide (n = h) then [] else n :: follow fuel' m h n
      | None => []
      end
  end.

Definition members (s : state) (h : ptr) : list ptr :=
  follow (size (links_of s)) (links_of s) h h.

(** [k] steps along [next], and along [prev]. *)
Fixpoint iter_next (m : gmap ptr links) (k : nat) (p : ptr) : option ptr :=
  match k with
  | O => Some p
  | S k' => nxt m p ≫= iter_next m k'
  end.

Fixpoint iter_prev (m : gmap ptr links) (k : nat) (p : ptr) : option ptr :=
  match k with
  | O => Some p
  | S k' => prv m p ≫= iter_prev m k'
  end.

(** ** The ordered insertion, once

    [ready_threads_list::link], [waiting_threads_list::link] and
    [clock_timestamps_list::link] are the same search with a different
    key and comparison; [before k k'] says that a new node of key [k]
    goes in front of a node of key [k']. *)

Fixpoint walk_generic (key_at : option ptr → op Z) (before : Z → Z → bool)
    (fuel : nat) (k : Z) (after : option ptr) : op (option ptr) :=
  match fuel with
  | O => raise diverges
  | S fuel' =>
      let* ak := key_at after in
      if before k ak then
        let* p := get_prev after in walk_generic key_at before fuel' k p
      else ret after
  end.

Definition link_generic (key_at : option ptr → op Z) (before : Z → Z → bool)
    (head_ node : ptr) : op unit :=
  let* k := key_at (Some node) in
  let* after := static_double_list.tail head_ in
  let* after :=
    (let* e := static_double_list.empty head_ in
     if e then ret after
     else
       let* ak := key_at after in
       if negb (before k ak) then ret after
       else
         let* h := static_double_list.head head_ in
         let* hk := key_at h in
         if before k hk then ret (Some head_)
         else
           let* n := walk_bound in walk_generic key_at before n k after) in
  static_double_list.insert_after node after.

(** Where the three cases of [link] put a node of key [k] in the list
    [l]: between [l1] and [l2]. *)
Definition placed (before : Z → Z → bool) (key : ptr → Z) (k : Z)
    (l l1 l2 : list ptr) : Prop :=
  l = l1 ++ l2 ∧
  match l with
  | [] => True
  | x0 :: _ =>
      if negb (before k (key (List.last l x0))) then l2 = []
      else if before k (key x0) then l1 = []
      else ∃ l1' x, l1 = l1' ++ [x] ∧ before k (key x) = false
                    ∧ Forall (λ y, before k (key y) = true) l2
  end.

(** The nodes of key [j], in list order. *)
Definition band (key : ptr → Z) (j : Z) (l : list ptr) : list ptr :=
  filter (λ x, key x = j) l.

(** The priority of the thread of a waiting node, and the time stamp of
    a time stamp node, as plain lookups. *)
Definition wprio (s : state) (x : ptr) : option Z :=
  th ← thread_ s !! x; t ← threads s !! th; Some (prio_ t).

Definition tstamp (s : state) (x : ptr) : option Z :=
  timestamp <$> ts_nodes s !! x.

(** The calls of [action ()] in a trace: the node and the head time
    stamp of each, in call order; and the threads resumed. *)
Definition fired (tr : list event) : list (ptr * Z) :=
  omap (λ e, match e with ev_action n t => Some (n, t) | _ => None end) tr.

Definition resumed (tr : list event) : list ptr :=
  omap (λ e, match e with ev_resume th => Some th | _ => None end) tr.

(** ** The scenarios of the specification (section 8)

    Addresses: list headers 1 and 2, nodes 11.., threads 21.., embedded
    child links 31.., timers 41... *)

Definition self_linked (h : ptr) : ptr * links := (h, Links (Some h) (Some h)).
Definition zeroed (p : ptr) : ptr * links := (p, Links None None).

(** S1: a constructed wait list and six waiters of priorities
    5, 9, 5, 7, 9, 1. *)
Definition scenario_S1 : state :=
  State (list_to_map (self_linked 1 :: (zeroed <$> [11; 12; 13; 14; 15; 16])))
        (list_to_map [(11, 21); (12, 22); (13, 23); (14, 24); (15, 25); (16, 26)])
        ∅
        (list_to_map [(21, Thread 5 waiting 31); (22, Thread 9 waiting 32);
                      (23, Thread 5 waiting 33); (24, Thread 7 waiting 34);
                      (25, Thread 9 waiting 35); (26, Thread 1 waiting 36)])
        ∅ [].

(** S2: the static ready list, header still zero, and the threads
    A (21, priority 3), B (22, priority 7), C (23, priority 7) and
    D (24, priority 5). *)
Definition scenario_S2 : state :=
  State (list_to_map (zeroed <$> [1; 11; 12; 13; 14]))
        (list_to_map [(11, 21); (12, 22); (13, 23); (14, 24)])
        ∅
        (list_to_map [(21, Thread 3 waiting 31); (22, Thread 7 waiting 32);
                      (23, Thread 7 waiting 33); (24, Thread 5 waiting 34)])
        ∅ [].

(** S3: a clock list and four timeout nodes at 100, 50, 75, 50. *)
Definition scenario_S3 : state :=
  State (list_to_map (self_linked 1 :: (zeroed <$> [11; 12; 13; 14])))
        ∅
        (list_to_map [(11, TimestampNode 100 (timeout_thread_node 21));
                      (12, TimestampNode 50 (timeout_thread_node 22));
                      (13, TimestampNode 75 (timeout_thread_node 23));
                      (14, TimestampNode 50 (timeout_thread_node 24))])
        (list_to_map [(21, Thread 1 waiting 31); (22, Thread 1 waiting 32);
                      (23, Thread 1 waiting 33); (24, Thread 1 waiting 34)])
        ∅ [].

(** S4: a clock list and the node, at 100, of a timer of period 50. *)
Definition scenario_S4 : state :=
  State (list_to_map [self_linked 1; zeroed 11])
        ∅
        (list_to_map [(11, TimestampNode 100 (timer_node 41))])
        ∅
        (list_to_map [(41, Timer (Some 50) 11 1)])
        [].

(** S5: a wait list and one waiter. *)
Definition scenario_S5 : state :=
  State (list_to_map [self_linked 1; zeroed 11])
        (list_to_map [(11, 21)])
        ∅
        (list_to_map [(21, Thread 4 waiting 31)])
        ∅ [].

(** S6: the static top-threads list, header zero, and one thread. *)
Definition scenario_S6 : state :=
  State (list_to_map [zeroed 1; zeroed 31])
        ∅ ∅
        (list_to_map [(21, Thread 4 ready 31)])
        ∅ [].

(** The states of a list from [clear ()] on, through [insert_after] and
    [unlink] calls made within their preconditions, with the nodes the
    list is expected to hold. *)
Inductive reachable (h : ptr) : state → list ptr → Prop :=
| reach_clear s s' :
    static_double_list.clear h s = Ok (tt, s') → reachable h s' []
| reach_insert_after s l1 l2 node s' :
    reachable h s (l1 ++ l2) →
    node ∉ h :: l1 ++ l2 → detached (links_of s) node →
    static_double_list.insert_after node (Some (List.last l1 h)) s = Ok (tt, s') →
    reachable h s' (l1 ++ node :: l2)
| reach_unlink s l1 x l2 s' :
    reachable h s (l1 ++ x :: l2) →
    static_double_list_links.unlink x s = Ok (tt, s') →
    reachable h s' (l1 ++ l2).

(** A list, header 1, that holds the one node 11. *)
Definition one_node_list : gmap ptr links :=
  list_to_map [(1, Links (Some 11) (Some 11)); (11, Links (Some 1) (Some 1))].

(** One waiter, node 11 of thread 21, on the list of header 1. *)
Definition scenario_one_waiter : state :=
  State one_node_list (list_to_map [(11, 21)]) ∅
        (list_to_map [(21, Thread 4 waiting 31)]) ∅ [].

(** The node 11 of timer 41, period 50, on the clock list at 100. *)
Definition scenario_S4_armed : state :=
  State one_node_list ∅
        (list_to_map [(11, TimestampNode 100 (timer_node 41))])
        ∅
        (list_to_map [(41, Timer (Some 50) 11 1)])
        [].

(** Two constructed hierarchy lists, headers 1 and 2, and one thread. *)
Definition scenario_two_lists : state :=
  State (list_to_map [self_linked 1; self_linked 2; zeroed 31])
        ∅ ∅
        (list_to_map [(21, Thread 4 ready 31)])
        ∅ [].

(** A node, at time stamp [ts], whose action takes it off the clock list
    for good: a timeout node of a thread, or the node of a single-shot
    timer. *)
Definition expires_once (s : state) (x : ptr) (ts : Z) : Prop :=
  (∃ th t,
     ts_nodes s !! x = Some (TimestampNode ts (timeout_thread_node th))
     ∧ threads s !! th = Some t)
  ∨ (∃ tm nd cl,
       ts_nodes s !! x = Some (TimestampNode ts (timer_node tm))
       ∧ timers s !! tm = Some (Timer None nd cl)).

(** The node [n] of the periodic timer [tm], of period [p], is the only
    node on the clock list [h], at time stamp [t0]. *)
Definition armed (h n tm : ptr) (p : Z) (s : state) (t0 : Z) : Prop :=
  is_list (links_of s) h [n]
  ∧ ts_nodes s !! n = Some (TimestampNode t0 (timer_node tm))
  ∧ timers s !! tm = Some (Timer (Some p) n h).

(** * Memory resources (include/cmsis-plus/rtos/os-memory.h)

    [std::size_t] is an unsigned integer of [w] bits; [1L] converts to it
    in the expressions below (a [long] is no wider than a [size_t] on the
    targets of µOS++). *)

Module memory.

Definition size_wrap (w z : Z) : Z := z mod 2 ^ w.

(** [~x] on a [size_t]. *)
Definition size_not (w x : Z) : Z := size_wrap w (Z.lnot x).

Definition max (a b : Z) : Z := if a >=? b then a else b.

(** [((size) + (align) - 1L) & ~((align) - 1L)] *)
Definition align_size (w size align : Z) : Z :=
  Z.land (size_wrap w (size_wrap w (size + align) - 1))
         (size_not w (size_wrap w (align - 1))).

(** What an allocator member function does with its resource: it throws
    [std::system_error], fails an [assert], or calls the resource's
    [allocate] or [deallocate] with a number of bytes and an alignment
    (the value returned is the resource's). *)
Inductive outcome :=
| throw_system_error (code : Z)
| assert_failed
| call_allocate (bytes alignment : Z)
| call_deallocate (bytes alignment : Z).

Definition EINVAL : Z := 22.

End memory.

(** [default_resource_allocator<T>], for a [value_type] of size
    [sizeof_T]; [res_max_size] is what [get_default_resource ()->max_size ()]
    returns and [max_align] is [memory_resource::max_align], the default
    alignment argument. *)
Module default_resource_allocator.
Import memory.

Definition allocate (w sizeof_T max_align elements : Z) : outcome :=
  call_allocate (size_wrap w (elements * sizeof_T)) max_align.

Definition deallocate (w sizeof_T max_align elements : Z) : outcome :=
  call_deallocate (size_wrap w (elements * sizeof_T)) max_align.

Definition max_size (sizeof_T res_max_size : Z) : Z := res_max_size / sizeof_T.

End default_resource_allocator.

(** [polymorphic_synchronized_allocator<T, L, D>]; [res_max_size] is what
    [res_->max_size ()] returns. *)
Module polymorphic_synchronized_allocator.
Import memory.

Definition max_size (sizeof_T res_max_size : Z) : Z := res_max_size / sizeof_T.

Definition allocate (w sizeof_T alignof_T res_max_size elements : Z) : outcome :=
  if elements >? max_size sizeof_T res_max_size then throw_system_error EINVAL
  else call_allocate (size_wrap w (elements * sizeof_T)) alignof_T.

Definition deallocate (w sizeof_T alignof_T res_max_size elements : Z) : outcome :=
  if elements <=? max_size sizeof_T res_max_size then
    call_deallocate (size_wrap w (elements * sizeof_T)) alignof_T
  else assert_failed.

End polymorphic_synchronized_allocator.

(** * Further definitions for the lists *)





(** A clock list, header 1, that holds the timeout nodes 11, 12 and 13,
    at 50, 75 and 90, of the threads 21 ([destroyed]), 22 and 23. *)
Definition scenario_three_timeouts : state :=
  State (list_to_map [(1, Links (Some 13) (Some 11));
                      (11, Links (Some 1) (Some 12));
                      (12, Links (Some 11) (Some 13));
                      (13, Links (Some 12) (Some 1))])
        ∅
        (list_to_map [(11, TimestampNode 50 (timeout_thread_node 21));
                      (12, TimestampNode 75 (timeout_thread_node 22));
                      (13, TimestampNode 90 (timeout_thread_node 23))])
        (list_to_map [(21, Thread 1 destroyed 31); (22, Thread 1 waiting 32);
                      (23, Thread 1 waiting 33)])
        ∅ [].

(** * Proofs *)

(** ** Stepping through the monad *)

Section store.
Implicit Types (m : gmap ptr links) (p q : ptr) (v : option ptr) (s : state).

Lemma valid_upd_prev m p v q : valid (upd_prev m p v) q ↔ valid m q.
Proof.
  unfold valid, upd_prev. destruct (m !! p) as [c|] eqn:E; [|done].
  destruct (decide (q = p)) as [->|]; [rewrite lookup_insert_eq, E|rewrite lookup_insert_ne by done]; done.
Qed.

Lemma valid_upd_next m p v q : valid (upd_next m p v) q ↔ valid m q.
Proof.
  unfold valid, upd_next. destruct (m !! p) as [c|] eqn:E; [|done].
  destruct (decide (q = p)) as [->|]; [rewrite lookup_insert_eq, E|rewrite lookup_insert_ne by done]; done.
Qed.

Lemma nxt_upd_next m p v q :
  valid m p → nxt (upd_next m p v) q = if decide (q = p) then v else nxt m q.
Proof.
  intros [c E]. unfold nxt, upd_next. rewrite E.
  case_decide; [subst; by rewrite lookup_insert_eq|by rewrite lookup_insert_ne].
Qed.

Lemma prv_upd_next m p v q : prv (upd_next m p v) q = prv m q.
Proof.
  unfold prv, upd_next. destruct (m !! p) as [c|] eqn:E; [|done].
  destruct (decide (q = p)) as [->|]; [rewrite lookup_insert_eq, E|rewrite lookup_insert_ne by done]; done.
Qed.

Lemma prv_upd_prev m p v q :
  valid m p → prv (upd_prev m p v) q = if decide (q = p) then v else prv m q.
Proof.
  intros [c E]. unfold prv, upd_prev. rewrite E.
  case_decide; [subst; by rewrite lookup_insert_eq|by rewrite lookup_insert_ne].
Qed.

Lemma nxt_upd_prev m p v q : nxt (upd_prev m p v) q = nxt m q.
Proof.
  unfold nxt, upd_prev. destruct (m !! p) as [c|] eqn:E; [|done].
  destruct (decide (q = p)) as [->|]; [rewrite lookup_insert_eq, E|rewrite lookup_insert_ne by done]; done.
Qed.

Lemma nxt_valid m p q : nxt m p = Some q → valid m p.
Proof. unfold nxt, valid. destruct (m !! p); [eauto|done]. Qed.

Lemma prv_valid m p q : prv m p = Some q → valid m p.
Proof. unfold prv, valid. destruct (m !! p); [eauto|done]. Qed.

Lemma step_get_prev {A} p s (k : option ptr → op A) :
  valid (links_of s) p → bind (get_prev (Some p)) k s = k (prv (links_of s) p) s.
Proof. intros [c E]. unfold bind, get_prev, deref, prv, bind, ret. by rewrite E. Qed.

Lemma step_get_next {A} p s (k : option ptr → op A) :
  valid (links_of s) p → bind (get_next (Some p)) k s = k (nxt (links_of s) p) s.
Proof. intros [c E]. unfold bind, get_next, deref, nxt, bind, ret. by rewrite E. Qed.

Lemma step_put_prev {A} p v s (k : unit → op A) :
  valid (links_of s) p →
  bind (put_prev (Some p) v) k s = k tt (set_links (upd_prev (links_of s) p v) s).
Proof. intros [c E]. unfold bind, put_prev, deref, upd_prev, bind, store_links. by rewrite E. Qed.

Lemma step_put_next {A} p v s (k : unit → op A) :
  valid (links_of s) p →
  bind (put_next (Some p) v) k s = k tt (set_links (upd_next (links_of s) p v) s).
Proof. intros [c E]. unfold bind, put_next, deref, upd_next, bind, store_links. by rewrite E. Qed.

Lemma bind_assoc {A B C} (c : op A) (f : A → op B) (k : B → op C) s :
  bind (bind c f) k s = bind c (λ a, bind (f a) k) s.
Proof. unfold bind. destruct (c s) as [[a s']|]; done. Qed.

Lemma bind_ret_r {A} (c : op A) s : c s = bind c ret s.
Proof. unfold bind, ret. destruct (c s) as [[a s']|]; done. Qed.

End store.


Ltac valid_tac :=
  cbn [links_of set_links];
  repeat (rewrite valid_upd_next || rewrite valid_upd_prev);
  eauto using nxt_valid, prv_valid.

Lemma step_ret {A B} (a : A) (k : A → op B) s : bind (ret a) k s = k a s.
Proof. done. Qed.

Ltac step :=
  cbn [is_null negb assert];
  rewrite ?bind_assoc;
  first
    [ rewrite step_get_prev by valid_tac
    | rewrite step_get_next by valid_tac
    | rewrite step_put_prev by valid_tac
    | rewrite step_put_next by valid_tac
    | rewrite step_ret ];
  cbn [links_of set_links is_null negb assert].

Section store_ops.
Implicit Types (m : gmap ptr links) (p q : ptr) (v : option ptr) (s : state).

Lemma insert_after_ok s node after a :
  valid (links_of s) node →
  prv (links_of s) node = None → nxt (links_of s) node = None →
  nxt (links_of s) after = Some a → valid (links_of s) a →
  static_double_list.insert_after node (Some after) s
  = Ok (tt, set_links (after_insert (links_of s) node after a) s).
Proof.
  intros Hn Hp Hx Ha Hva.
  assert (node ≠ after) by congruence.
  unfold static_double_list.insert_after.
  rewrite bind_ret_r.
  step. rewrite Hp. step.
  step. rewrite Hx. step.
  step. rewrite Ha. step.
  step. step. rewrite nxt_upd_prev, Ha.
  step. step. rewrite nxt_upd_next, nxt_upd_prev by valid_tac.
  rewrite decide_False by done. rewrite Ha.
  step. step. done.
Qed.

Lemma nxt_after_insert m node after a q :
  valid m node → valid m after → valid m a →
  nxt (after_insert m node after a) q
  = if decide (q = after) then Some node
    else if decide (q = node) then Some a else nxt m q.
Proof.
  intros. unfold after_insert.
  rewrite nxt_upd_next by valid_tac. rewrite nxt_upd_prev.
  rewrite nxt_upd_next by valid_tac. by rewrite nxt_upd_prev.
Qed.

Lemma prv_after_insert m node after a q :
  valid m node → valid m after → valid m a →
  prv (after_insert m node after a) q
  = if decide (q = a) then Some node
    else if decide (q = node) then Some after else prv m q.
Proof.
  intros. unfold after_insert.
  rewrite prv_upd_next. rewrite prv_upd_prev by valid_tac.
  rewrite prv_upd_next. by rewrite prv_upd_prev by valid_tac.
Qed.

Lemma valid_after_insert m node after a q :
  valid (after_insert m node after a) q ↔ valid m q.
Proof. unfold after_insert. by rewrite valid_upd_next, valid_upd_prev, valid_upd_next, valid_upd_prev. Qed.

Lemma unlink_detached s this :
  valid (links_of s) this →
  nxt (links_of s) this = None → prv (links_of s) this = None →
  static_double_list_links.unlink this s = Ok (tt, s).
Proof.
  intros Hv Hn Hp. unfold static_double_list_links.unlink.
  rewrite step_get_next by done. rewrite Hn. cbn.
  rewrite bind_ret_r. step. by rewrite Hp.
Qed.

Lemma unlink_ok s this p n :
  prv (links_of s) this = Some p → nxt (links_of s) this = Some n →
  valid (links_of s) p → valid (links_of s) n → this ≠ p → this ≠ n →
  static_double_list_links.unlink this s
  = Ok (tt, set_links (after_unlink (links_of s) this p n) s).
Proof.
  intros Hp Hn Hvp Hvn Hne1 Hne2.
  unfold static_double_list_links.unlink.
  rewrite step_get_next by valid_tac. rewrite Hn. cbn.
  rewrite bind_ret_r.
  step. rewrite Hp. step. rewrite Hn. step.
  step. rewrite nxt_upd_next by valid_tac. rewrite decide_False by done.
  rewrite Hn. step. rewrite prv_upd_next, Hp. step.
  step. step. done.
Qed.

Lemma nxt_after_unlink m this p n q :
  valid m this → valid m p → valid m n →
  nxt (after_unlink m this p n) q
  = if decide (q = this) then None
    else if decide (q = p) then Some n else nxt m q.
Proof.
  intros. unfold after_unlink.
  rewrite nxt_upd_next by valid_tac. rewrite !nxt_upd_prev.
  by rewrite nxt_upd_next by valid_tac.
Qed.

Lemma prv_after_unlink m this p n q :
  valid m this → valid m p → valid m n →
  prv (after_unlink m this p n) q
  = if decide (q = this) then None
    else if decide (q = n) then Some p else prv m q.
Proof.
  intros. unfold after_unlink.
  rewrite prv_upd_next. rewrite !prv_upd_prev by valid_tac.
  by rewrite prv_upd_next.
Qed.

Lemma valid_after_unlink m this p n q :
  valid (after_unlink m this p n) q ↔ valid m q.
Proof. unfold after_unlink. by rewrite valid_upd_next, !valid_upd_prev, valid_upd_next. Qed.

End store_ops.

Section ring.
Implicit Types (m : gmap ptr links) (p q x : ptr) (l : list ptr).

Lemma detached_inv m p : detached m p → valid m p ∧ prv m p = None ∧ nxt m p = None.
Proof. unfold detached, valid, prv, nxt. intros ->. eauto. Qed.

Lemma dseg_app m p l1 x l2 q :
  dseg m p (l1 ++ x :: l2) q ↔ dseg m p l1 x ∧ dseg m x l2 q.
Proof.
  revert p. induction l1 as [|y l1 IH]; intros p; cbn.
  - tauto.
  - rewrite IH. tauto.
Qed.

Lemma dseg_frame m m' p l q :
  (∀ y, y ∈ p :: l → nxt m' y = nxt m y) →
  (∀ y, y ∈ l ++ [q] → prv m' y = prv m y) →
  dseg m p l q → dseg m' p l q.
Proof.
  revert p. induction l as [|x l IH]; intros p Hn Hp; cbn.
  - intros [H1 H2]. rewrite Hn, Hp by set_solver. done.
  - intros (H1 & H2 & H3). rewrite Hn, Hp by set_solver.
    split_and!; [done..|]. apply IH; [| |done]; intros y Hy.
    + apply Hn. set_solver.
    + apply Hp. set_solver.
Qed.

(** All nodes on a segment are allocated. *)
Lemma dseg_valid m p l q y : dseg m p l q → y ∈ p :: l ++ [q] → valid m y.
Proof.
  revert p. induction l as [|x l IH]; intros p; cbn.
  - intros [H1 H2] Hy. assert (y = p ∨ y = q) as [->| ->] by set_solver; valid_tac.
  - intros (H1 & H2 & H3) Hy.
    apply elem_of_cons in Hy as [->|Hy]; [valid_tac|]. by apply (IH x).
Qed.

Lemma dseg_hd m p l q : dseg m p l q → nxt m p = Some (hd q l).
Proof. destruct l; cbn; tauto. Qed.

Lemma last_cons x l p : List.last (x :: l) p = List.last l x.
Proof.
  revert x p. induction l as [|y l IH]; intros x p; [done|].
  change (List.last (y :: l) p = List.last (y :: l) x). by rewrite !IH.
Qed.

Lemma dseg_last m p l q : dseg m p l q → prv m q = Some (List.last l p).
Proof.
  revert p. induction l as [|x l IH]; intros p; [cbn; tauto|].
  intros (_ & _ & H). rewrite last_cons. by apply IH.
Qed.

(** Splicing [node] in behind [p]. *)
Lemma dseg_insert m p l q node :
  dseg m p l q → NoDup l → p ∉ l → q ∉ l →
  node ∉ l → node ≠ p → node ≠ q → valid m node →
  dseg (after_insert m node p (hd q l)) p (node :: l) q.
Proof.
  intros Hd Hnd Hp Hq Hn Hnp Hnq Hv.
  assert (valid m p) as Hvp by (eapply dseg_valid; [done|set_solver]).
  assert (valid m (hd q l)) as Hva.
  { eapply dseg_valid; [done|]. destruct l; set_solver. }
  cbn. rewrite nxt_after_insert, prv_after_insert by done.
  rewrite decide_True by done.
  split; [done|]. split.
  { destruct (decide (node = hd q l)) as [E|]; [|by rewrite decide_True].
    destruct l; cbn in E; [done|set_solver]. }
  destruct l as [|a l]; cbn in *.
  - rewrite nxt_after_insert, prv_after_insert by done.
    rewrite decide_False, !decide_True by done. done.
  - destruct Hd as (H1 & H2 & H3).
    rewrite nxt_after_insert, prv_after_insert by done.
    rewrite decide_False, !decide_True by done.
    split_and!; [done..|].
    apply NoDup_cons in Hnd as [Ha Hnd].
    eapply dseg_frame; [| |done]; intros y Hy.
    + rewrite nxt_after_insert by done.
      rewrite !decide_False; [done| |]; set_solver.
    + rewrite prv_after_insert by done.
      rewrite !decide_False; [done| |]; set_solver.
Qed.

(** Taking the first node [x] behind [p] out. *)
Lemma dseg_remove m p x l q :
  dseg m p (x :: l) q → NoDup (x :: l) → p ∉ x :: l → q ∉ x :: l →
  dseg (after_unlink m x p (hd q l)) p l q.
Proof.
  intros Hd Hnd Hp Hq.
  assert (valid m p) as Hvp by (eapply dseg_valid; [done|set_solver]).
  assert (valid m x) as Hvx by (eapply dseg_valid; [done|set_solver]).
  assert (valid m (hd q l)) as Hva.
  { eapply dseg_valid; [done|]. destruct l; set_solver. }
  apply NoDup_cons in Hnd as [Hx Hnd].
  destruct Hd as (H1 & H2 & H3).
  destruct l as [|a l]; cbn in *.
  - rewrite nxt_after_unlink, prv_after_unlink by done.
    split; repeat case_decide; simplify_eq; first [done|set_solver].
  - destruct H3 as (H3 & H4 & H5).
    rewrite nxt_after_unlink, prv_after_unlink by done.
    split_and!; [repeat case_decide; simplify_eq; first [done|set_solver]..|].
    apply NoDup_cons in Hnd as [Ha Hnd].
    eapply dseg_frame; [| |done]; intros y Hy.
    + rewrite nxt_after_unlink by done.
      rewrite !decide_False; [done| |]; set_solver.
    + rewrite prv_after_unlink by done.
      rewrite !decide_False; [done| |]; set_solver.
Qed.

End ring.

Section ring_ops.
Implicit Types (m : gmap ptr links) (p q x h : ptr) (l : list ptr) (s : state).

Lemma is_list_valid m h l y : is_list m h l → y ∈ h :: l → valid m y.
Proof. intros [_ Hd] Hy. eapply dseg_valid; [done|]. set_solver. Qed.

(** The neighbours of the node at a position. *)
Lemma is_list_around m h l1 x l2 :
  is_list m h (l1 ++ x :: l2) →
  prv m x = Some (List.last l1 h) ∧ nxt m x = Some (hd h l2).
Proof.
  intros [_ Hd]. apply dseg_app in Hd as [H1 H2].
  split; [by apply dseg_last|by apply dseg_hd].
Qed.

Lemma is_list_after m h l1 l2 :
  is_list m h (l1 ++ l2) → nxt m (List.last l1 h) = Some (hd h l2).
Proof.
  destruct l1 as [|x l1 _] using rev_ind; cbn.
  - intros [_ Hd]. by apply dseg_hd.
  - rewrite <-app_assoc, last_last. cbn. intros H. by apply is_list_around in H as [_ ?].
Qed.

Lemma is_list_tail m h l : is_list m h l → prv m h = Some (List.last l h).
Proof. intros [_ Hd]. by apply dseg_last. Qed.

Lemma is_list_head m h l : is_list m h l → nxt m h = Some (hd h l).
Proof. intros [_ Hd]. by apply dseg_hd. Qed.

Lemma is_list_insert m h l1 l2 node :
  is_list m h (l1 ++ l2) → node ∉ h :: l1 ++ l2 → valid m node →
  is_list (after_insert m node (List.last l1 h) (hd h l2)) h (l1 ++ node :: l2).
Proof.
  intros [Hnd Hd] Hn Hv. split.
  { rewrite <-Permutation_middle. rewrite (NoDup_cons h) in Hnd.
    rewrite !NoDup_cons. set_solver. }
  apply NoDup_cons in Hnd as [Hh Hnd].
  destruct l1 as [|x l1 _] using rev_ind; cbn.
  - cbn in *. apply dseg_insert; [done..|set_solver|set_solver|set_solver|done].
  - rewrite last_last. rewrite <-app_assoc in *. cbn in *.
    apply dseg_app in Hd as [H1 H2].
    apply NoDup_app in Hnd as (Hnd1 & Hdisj & Hnd2).
    apply NoDup_cons in Hnd2 as [Hx Hnd2].
    assert (valid m x) as Hvx by (eapply dseg_valid; [exact H2|set_solver]).
    assert (valid m (hd h l2)) as Hva.
    { eapply dseg_valid; [exact H2|]. destruct l2; set_solver. }
    apply dseg_app. split.
    + eapply dseg_frame; [| |done]; intros y Hy.
      * rewrite nxt_after_insert by done.
        rewrite !decide_False; [done| |]; set_solver.
      * rewrite prv_after_insert by done.
        assert (y ≠ hd h l2).
        { destruct l2 as [|a l2]; cbn; [set_solver|].
          intros ->. apply elem_of_app in Hy as [Hy|Hy]; set_solver. }
        rewrite !decide_False; [done| |]; set_solver.
    + apply dseg_insert; [done..|set_solver|set_solver|set_solver|set_solver|set_solver|done].
Qed.

Lemma is_list_remove m h l1 x l2 :
  is_list m h (l1 ++ x :: l2) →
  is_list (after_unlink m x (List.last l1 h) (hd h l2)) h (l1 ++ l2).
Proof.
  intros [Hnd Hd]. split.
  { rewrite <-Permutation_middle in Hnd. rewrite (NoDup_cons h).
    rewrite !NoDup_cons in Hnd. set_solver. }
  apply NoDup_cons in Hnd as [Hh Hnd].
  destruct l1 as [|y l1 _] using rev_ind; cbn.
  - cbn in *. apply dseg_remove; [done..|set_solver].
  - rewrite last_last. rewrite <-app_assoc in *. cbn in *.
    apply dseg_app in Hd as [H1 H2].
    apply NoDup_app in Hnd as (Hnd1 & Hdisj & Hnd2).
    apply NoDup_cons in Hnd2 as [Hy Hnd2].
    assert (valid m y) as Hvy by (eapply dseg_valid; [exact H2|set_solver]).
    assert (valid m x) as Hvx by (eapply dseg_valid; [exact H2|set_solver]).
    assert (valid m (hd h l2)) as Hva.
    { eapply dseg_valid; [exact H2|]. destruct l2; set_solver. }
    apply dseg_app. split.
    + eapply dseg_frame; [| |done]; intros z Hz.
      * rewrite nxt_after_unlink by done.
        rewrite !decide_False; [done| |]; set_solver.
      * rewrite prv_after_unlink by done.
        assert (z ≠ hd h l2).
        { destruct l2 as [|a l2]; cbn; [set_solver|].
          intros ->. apply elem_of_app in Hz as [Hz|Hz]; set_solver. }
        rewrite !decide_False; [done| |]; set_solver.
    + apply dseg_remove; [done..|set_solver|set_solver].
Qed.

Lemma bind_ok {A B} (c : op A) (k : A → op B) s a s' :
  c s = Ok (a, s') → bind c k s = k a s'.
Proof. unfold bind. by intros ->. Qed.

Lemma last_elem (x : ptr) l : List.last l x ∈ x :: l.
Proof.
  revert x. induction l as [|y l IH]; intros x; [set_solver|].
  rewrite last_cons. specialize (IH y). set_solver.
Qed.

Lemma insert_after_is_list s h l1 l2 node :
  is_list (links_of s) h (l1 ++ l2) → node ∉ h :: l1 ++ l2 →
  detached (links_of s) node →
  static_double_list.insert_after node (Some (List.last l1 h)) s
  = Ok (tt, set_links (after_insert (links_of s) node (List.last l1 h) (hd h l2)) s).
Proof.
  intros Hl Hn (Hv & Hp & Hx)%detached_inv.
  apply insert_after_ok; [done..|by apply is_list_after|].
  eapply is_list_valid; [done|]. destruct l2; set_solver.
Qed.

End ring_ops.

Lemma length_le_size (m : gmap ptr links) (l : list ptr) :
  NoDup l → (∀ x, x ∈ l → valid m x) → (length l ≤ size m)%nat.
Proof.
  intros Hnd Hv. rewrite <-(size_list_to_set (C:=gset ptr)) by done.
  rewrite <-size_dom. apply subseteq_size.
  intros x Hx. apply elem_of_list_to_set in Hx. apply elem_of_dom. by apply Hv.
Qed.

Lemma empty_is_list s h l :
  is_list (links_of s) h l →
  static_double_list.empty h s = Ok (bool_decide (l = []), s).
Proof.
  intros Hl. unfold static_double_list.empty. rewrite bind_ret_r.
  pose proof (is_list_head _ _ _ Hl) as Hh.
  step. rewrite Hh. step. cbn. unfold ptr_eqb, ret. do 3 f_equal.
  destruct Hl as [Hnd _]. destruct l as [|x l]; cbn.
  - by rewrite !bool_decide_eq_true_2.
  - rewrite !bool_decide_eq_false_2; [done..|]. intros [= ->].
    apply NoDup_cons in Hnd. set_solver.
Qed.

(** ** The ordered insertion shared by the ready, wait and clock lists *)

Section ordered.
Variable key_at : option ptr → op Z.
Variable before : Z → Z → bool.

Lemma walk_generic_spec key k s h l1 l2 fuel :
  is_list (links_of s) h (l1 ++ l2) →
  (∀ x, x ∈ l1 → key_at (Some x) s = Ok (key x, s)) →
  Exists (λ x, before k (key x) = false) l1 →
  Forall (λ y, before k (key y) = true) l2 →
  (length l1 ≤ fuel)%nat →
  ∃ la x lb, l1 ++ l2 = (la ++ [x]) ++ lb ∧ before k (key x) = false
    ∧ Forall (λ y, before k (key y) = true) lb
    ∧ walk_generic key_at before fuel k (Some (List.last l1 h)) s = Ok (Some x, s).
Proof.
  revert l2 fuel. induction l1 as [|y l1 IH] using rev_ind; intros l2 fuel Hl Hk Hex Hall Hfuel.
  { by apply Exists_nil in Hex. }
  rewrite length_app in Hfuel. cbn in Hfuel.
  destruct fuel as [|fuel]; [lia|]. rewrite last_last. cbn.
  unfold bind at 1. rewrite Hk by set_solver.
  destruct (before k (key y)) eqn:Hy.
  - rewrite <-app_assoc in Hl. cbn in Hl.
    pose proof (is_list_around _ _ _ _ _ Hl) as [Hp _].
    rewrite step_get_prev by valid_tac. rewrite Hp.
    destruct (IH (y :: l2) fuel) as (la & x & lb & E & Hx & Hlb & Hw).
    + done.
    + intros. apply Hk. set_solver.
    + apply Exists_app in Hex as [?|Hex]; [done|].
      apply Exists_cons in Hex as [?|Hex]; [congruence|by apply Exists_nil in Hex].
    + by constructor.
    + lia.
    + exists la, x, lb. rewrite <-app_assoc. cbn. by rewrite E.
  - exists l1, y, l2. done.
Qed.

Lemma placed_tail key k x0 l' :
  before k (key (List.last (x0 :: l') x0)) = false →
  placed before key k (x0 :: l') (x0 :: l') [].
Proof. intros Hb. unfold placed. rewrite Hb, app_nil_r. done. Qed.

Lemma placed_head key k x0 l' :
  before k (key (List.last (x0 :: l') x0)) = true →
  before k (key x0) = true →
  placed before key k (x0 :: l') [] (x0 :: l').
Proof. intros Hb1 Hb2. unfold placed. rewrite Hb1, Hb2. done. Qed.

Lemma placed_middle key k x0 l' la x lb :
  before k (key (List.last (x0 :: l') x0)) = true →
  before k (key x0) = false →
  x0 :: l' = (la ++ [x]) ++ lb → before k (key x) = false →
  Forall (λ y, before k (key y) = true) lb →
  placed before key k (x0 :: l') (la ++ [x]) lb.
Proof. intros Hb1 Hb2 E Hx Hlb. unfold placed. rewrite Hb1, Hb2. cbn. eauto 10. Qed.

Lemma link_generic_spec key s h l node :
  is_list (links_of s) h l → node ∉ h :: l → detached (links_of s) node →
  (∀ x, x ∈ node :: l → key_at (Some x) s = Ok (key x, s)) →
  ∃ l1 l2, placed before key (key node) l l1 l2 ∧
    link_generic key_at before h node s
    = Ok (tt, set_links (after_insert (links_of s) node (List.last l1 h) (hd h l2)) s).
Proof.
  intros Hl Hn Hd Hk. unfold link_generic.
  unfold bind at 1. rewrite Hk by set_solver.
  unfold static_double_list.tail. rewrite step_get_prev by (eapply is_list_valid; [done|set_solver]).
  rewrite (is_list_tail _ _ _ Hl). rewrite bind_assoc.
  rewrite (bind_ok _ _ _ _ _ (empty_is_list _ _ _ Hl)).
  destruct l as [|x0 l'].
  { exists [], []. split; [done|]. rewrite bool_decide_eq_true_2 by done.
    rewrite step_ret. by apply (insert_after_is_list s h [] []). }
  rewrite bool_decide_eq_false_2 by done.
  assert (List.last (x0 :: l') h = List.last (x0 :: l') x0) as Elast by (by rewrite !last_cons).
  assert (List.last (x0 :: l') x0 ∈ x0 :: l') as Hin.
  { rewrite last_cons. apply last_elem. }
  remember (x0 :: l') as l eqn:El.
  rewrite bind_assoc. unfold bind at 1. rewrite Elast, Hk by set_solver.
  destruct (before (key node) (key (List.last l x0))) eqn:Hb1; cbn [negb].
  2:{ exists l, []. split; [subst l; by apply placed_tail|]. rewrite step_ret, <-Elast.
      apply (insert_after_is_list s h l []); by rewrite ?app_nil_r. }
  rewrite bind_assoc. unfold static_double_list.head.
  rewrite step_get_next by (eapply is_list_valid; [done|set_solver]).
  rewrite (is_list_head _ _ _ Hl). rewrite bind_assoc.
  replace (hd h l) with x0 by (by subst l).
  unfold bind at 1. rewrite Hk by (subst l; set_solver).
  destruct (before (key node) (key x0)) eqn:Hb2.
  { exists [], l. split; [subst l; by apply placed_head|]. rewrite step_ret.
    by apply (insert_after_is_list s h [] l). }
  rewrite bind_assoc. unfold bind at 1, walk_bound at 1.
  destruct (walk_generic_spec key (key node) s h l [] (S (size (links_of s))))
    as (la & x & lb & E & Hx & Hlb & Hw).
  - by rewrite app_nil_r.
  - intros. apply Hk. set_solver.
  - subst l. by apply Exists_cons_hd.
  - done.
  - apply Nat.le_le_succ_r, length_le_size.
    + destruct Hl as [Hnd _]. by apply NoDup_cons in Hnd as [_ ?].
    + intros. eapply is_list_valid; [done|set_solver].
  - rewrite app_nil_r in E. rewrite Elast in Hw.
    rewrite (bind_ok _ _ _ _ _ Hw).
    exists (la ++ [x]), lb. split.
    { subst l. apply placed_middle; done. }
    rewrite E in Hl, Hn.
    pose proof (insert_after_is_list s h (la ++ [x]) lb node Hl Hn Hd) as Hi.
    by rewrite last_last in *.
Qed.

End ordered.

(** ** Order and stability of the ordered insertion *)


Lemma band_none key j l : Forall (λ y, key y ≠ j) l → band key j l = [].
Proof.
  unfold band. induction 1 as [|y l Hy _ IH]; [done|].
  by rewrite filter_cons_False.
Qed.

Section order.
Variables (before : Z → Z → bool) (rank : Z → Z).
Hypothesis before_rank : ∀ a b, before a b = (rank a <? rank b).
Variable key : ptr → Z.

Let R (x y : ptr) : Prop := rank (key x) ≤ rank (key y).

Lemma sorted_le_last l d y :
  StronglySorted R l → y ∈ l → R y (List.last l d).
Proof.
  destruct l as [|z l _] using rev_ind; [set_solver|].
  rewrite last_last. intros Hs [Hy|Hy]%elem_of_app.
  - eapply StronglySorted_app_1_elem_of; [done..|set_solver].
  - assert (y = z) as -> by set_solver. unfold R. lia.
Qed.

Lemma placed_split k l l1 l2 :
  StronglySorted R l → placed before key k l l1 l2 →
  l = l1 ++ l2
  ∧ Forall (λ y, rank (key y) ≤ rank k) l1
  ∧ Forall (λ y, rank k < rank (key y)) l2.
Proof.
  intros Hs [E P]. split; [done|].
  destruct l as [|x0 l'].
  { symmetry in E. apply app_eq_nil in E as [-> ->]. done. }
  rewrite !before_rank in P.
  destruct (rank k <? rank (key (List.last (x0 :: l') x0))) eqn:Hb1; cbn [negb] in P.
  2:{ subst l2. rewrite app_nil_r in E. subst l1. split; [|done].
      apply Forall_forall. intros y Hy.
      pose proof (sorted_le_last _ x0 y Hs Hy) as Hle. unfold R in Hle. lia. }
  destruct (rank k <? rank (key x0)) eqn:Hb2.
  { subst l1. cbn in E. subst l2. split; [done|].
    apply StronglySorted_cons in Hs as [Hall _].
    apply Forall_cons. split; [lia|].
    eapply Forall_impl; [done|]. unfold R. cbn. intros; lia. }
  destruct P as (l1' & x & -> & Hx & Hl2). rewrite before_rank in Hx.
  split.
  - rewrite E in Hs. apply StronglySorted_app_1_l in Hs.
    apply Forall_forall. intros y Hy.
    pose proof (sorted_le_last _ x0 y Hs Hy) as Hle. rewrite last_last in Hle.
    unfold R in Hle. lia.
  - eapply Forall_impl; [done|]. cbn. intros y Hy. rewrite before_rank in Hy. lia.
Qed.

Lemma placed_sorted k l l1 l2 node :
  StronglySorted R l → placed before key k l l1 l2 → key node = k →
  StronglySorted R (l1 ++ node :: l2).
Proof.
  intros Hs Hp Hk. destruct (placed_split _ _ _ _ Hs Hp) as (-> & H1 & H2).
  apply StronglySorted_app in Hs as (H12 & Hs1 & Hs2).
  rewrite Forall_forall in H1, H2.
  apply StronglySorted_app_2; [|done|].
  - intros x1 x2 Hx1 [->|Hx2]%elem_of_cons; [|by apply H12].
    unfold R. rewrite Hk. by apply H1.
  - apply StronglySorted_cons. split; [|done].
    apply Forall_forall. intros y Hy. unfold R. rewrite Hk.
    specialize (H2 y Hy). lia.
Qed.

Lemma placed_band k l l1 l2 node j :
  StronglySorted R l → placed before key k l l1 l2 → key node = k →
  band key j (l1 ++ node :: l2) = band key j (l ++ [node]).
Proof.
  intros Hs Hp Hk. destruct (placed_split _ _ _ _ Hs Hp) as (-> & H1 & H2).
  unfold band. rewrite !filter_app, !filter_cons, filter_nil.
  case_decide; [|by rewrite app_nil_r].
  fold (band key j l2). rewrite (band_none key j l2); [by rewrite app_nil_r|].
  eapply Forall_impl; [done|]. cbn. intros y Hy Ey. rewrite Ey, <-H, Hk in Hy. lia.
Qed.

End order.

(** ** The three ordered lists are instances of the one search *)

Lemma bind_ext {A B} (c : op A) (k k' : A → op B) s :
  (∀ a s', k a s' = k' a s') → bind c k s = bind c k' s.
Proof. intros H. unfold bind. destruct (c s) as [[a s']|]; [apply H|done]. Qed.

Lemma bind_ext_l {A B} (c c' : op A) (k : A → op B) s :
  c s = c' s → bind c k s = bind c' k s.
Proof. unfold bind. by intros ->. Qed.

Lemma leb_gtb a b : (a <=? b) = negb (a >? b).
Proof. rewrite Z.gtb_ltb. apply Z.leb_antisym. Qed.

Lemma geb_ltb a b : (a >=? b) = negb (a <? b).
Proof. rewrite Z.geb_leb. apply Z.leb_antisym. Qed.

Lemma waiting_walk_generic fuel prio after s :
  waiting_threads_list.walk fuel prio after s
  = walk_generic waiting_threads_list.sched_prio_at Z.gtb fuel prio after s.
Proof.
  revert after s. induction fuel as [|fuel IH]; intros after s; [done|].
  cbn. apply bind_ext. intros ap s1. destruct (prio >? ap); [|done].
  apply bind_ext. intros p s2. apply IH.
Qed.

Lemma ready_walk_generic fuel prio after s :
  ready_threads_list.walk fuel prio after s
  = walk_generic ready_threads_list.prio_at Z.gtb fuel prio after s.
Proof.
  revert after s. induction fuel as [|fuel IH]; intros after s; [done|].
  cbn. apply bind_ext. intros ap s1. destruct (prio >? ap); [|done].
  apply bind_ext. intros p s2. apply IH.
Qed.

Lemma clock_walk_generic fuel ts after s :
  clock_timestamps_list.walk fuel ts after s
  = walk_generic get_timestamp Z.ltb fuel ts after s.
Proof.
  revert after s. induction fuel as [|fuel IH]; intros after s; [done|].
  cbn. apply bind_ext. intros ap s1. destruct (ts <? ap); [|done].
  apply bind_ext. intros p s2. apply IH.
Qed.

Lemma waiting_link_generic h node s :
  waiting_threads_list.link h node s
  = link_generic waiting_threads_list.sched_prio_at Z.gtb h node s.
Proof.
  unfold waiting_threads_list.link, link_generic.
  apply bind_ext. intros prio s1. apply bind_ext. intros after s2.
  apply bind_ext_l. apply bind_ext. intros e s3. destruct e; [done|].
  apply bind_ext. intros ap s4. rewrite leb_gtb.
  destruct (prio >? ap); [|done]. cbn [negb].
  apply bind_ext. intros hd s5. apply bind_ext. intros hp s6.
  destruct (prio >? hp); [done|].
  apply bind_ext. intros n s7. apply waiting_walk_generic.
Qed.

Lemma clock_link_generic h node s :
  clock_timestamps_list.link h node s
  = link_generic get_timestamp Z.ltb h node s.
Proof.
  unfold clock_timestamps_list.link, link_generic.
  apply bind_ext. intros ts s1. apply bind_ext. intros after s2.
  apply bind_ext_l. apply bind_ext. intros e s3. destruct e; [done|].
  apply bind_ext. intros ap s4. rewrite geb_ltb.
  destruct (ts <? ap); [|done]. cbn [negb].
  apply bind_ext. intros hd s5. apply bind_ext. intros hp s6.
  destruct (ts <? hp); [done|].
  apply bind_ext. intros n s7. apply clock_walk_generic.
Qed.

(** [ready_threads_list::link] also promotes a zero header first and
    sets the thread state last. *)
Lemma ready_link_generic h node s :
  ready_threads_list.link h node s
  = ((let* p := get_prev (Some h) in when (is_null p) (static_double_list.clear h));;
     link_generic ready_threads_list.prio_at Z.gtb h node;;
     let* th := get_thread_ (Some node) in
     thread.set_sched_state_ th ready) s.
Proof.
  unfold ready_threads_list.link, link_generic.
  apply bind_ext. intros _ s0. rewrite !bind_assoc.
  apply bind_ext. intros prio s1. rewrite !bind_assoc.
  apply bind_ext. intros after s2. rewrite !bind_assoc.
  apply bind_ext. intros e s3. destruct e; [done|]. rewrite !bind_assoc.
  apply bind_ext. intros ap s4. rewrite leb_gtb.
  destruct (prio >? ap); [|done]. cbn [negb]. rewrite !bind_assoc.
  apply bind_ext. intros hd s5. rewrite !bind_assoc.
  apply bind_ext. intros hp s6.
  destruct (prio >? hp); [done|]. rewrite !bind_assoc.
  apply bind_ext. intros n s7. apply bind_ext_l. apply ready_walk_generic.
Qed.

(** ** One ordered insertion, and a sequence of them *)

Lemma set_links_id s : set_links (links_of s) s = s.
Proof. by destruct s. Qed.

Lemma lookup_upd_prev_ne (m : gmap ptr links) p v y :
  y ≠ p → upd_prev m p v !! y = m !! y.
Proof. intros. unfold upd_prev. destruct (m !! p); [by rewrite lookup_insert_ne|done]. Qed.

Lemma lookup_upd_next_ne (m : gmap ptr links) p v y :
  y ≠ p → upd_next m p v !! y = m !! y.
Proof. intros. unfold upd_next. destruct (m !! p); [by rewrite lookup_insert_ne|done]. Qed.

Lemma lookup_after_insert_ne (m : gmap ptr links) node after a y :
  y ≠ node → y ≠ after → y ≠ a → after_insert m node after a !! y = m !! y.
Proof.
  intros. unfold after_insert.
  by rewrite lookup_upd_next_ne, lookup_upd_prev_ne, lookup_upd_next_ne,
    lookup_upd_prev_ne.
Qed.

Lemma lookup_after_unlink_ne (m : gmap ptr links) this p n y :
  y ≠ this → y ≠ p → y ≠ n → after_unlink m this p n !! y = m !! y.
Proof.
  intros. unfold after_unlink.
  by rewrite lookup_upd_next_ne, !lookup_upd_prev_ne, lookup_upd_next_ne.
Qed.

Lemma for_each_ext {A} (f g : A → op unit) l s :
  (∀ a s', f a s' = g a s') → for_each f l s = for_each g l s.
Proof.
  intros H. revert s. induction l as [|a l IH]; intros s; [done|].
  cbn [for_each]. etrans; [apply bind_ext_l, H|].
  apply bind_ext. intros _ s'. apply IH.
Qed.

Lemma last_hd_in (h : ptr) l1 l2 y :
  y ∉ h :: l1 ++ l2 → y ≠ List.last l1 h ∧ y ≠ hd h l2.
Proof.
  intros Hy. split; intros ->; apply Hy.
  - pose proof (last_elem h l1). set_solver.
  - destruct l2; set_solver.
Qed.

Section ordered_sequence.
Variable key_at : option ptr → op Z.
Variables (before : Z → Z → bool) (rank : Z → Z).
Hypothesis before_rank : ∀ a b, before a b = (rank a <? rank b).
Variable key : ptr → Z.

Let R (x y : ptr) : Prop := rank (key x) ≤ rank (key y).

(** One call: the node goes where [placed] says, the list stays a
    list, stays sorted, and the node comes last in its band. *)
Lemma link_generic_sorted s h l node :
  is_list (links_of s) h l → StronglySorted R l →
  node ∉ h :: l → detached (links_of s) node →
  (∀ x, x ∈ node :: l → key_at (Some x) s = Ok (key x, s)) →
  ∃ m' l1 l2,
    link_generic key_at before h node s = Ok (tt, set_links m' s)
    ∧ placed before key (key node) l l1 l2
    ∧ is_list m' h (l1 ++ node :: l2)
    ∧ StronglySorted R (l1 ++ node :: l2)
    ∧ (∀ j, band key j (l1 ++ node :: l2) = band key j (l ++ [node]))
    ∧ (∀ y, y ∉ node :: h :: l → m' !! y = links_of s !! y).
Proof.
  intros Hl Hs Hn Hd Hk.
  destruct (link_generic_spec key_at before key s h l node) as (l1 & l2 & Hp & Hr);
    [done..|].
  pose proof Hp as [E _].
  exists (after_insert (links_of s) node (List.last l1 h) (hd h l2)), l1, l2.
  split_and!; [done|done| | | |].
  - subst l. apply is_list_insert; [done..|]. by apply detached_inv in Hd as [? _].
  - by eapply (placed_sorted before rank).
  - intros j. by eapply (placed_band before rank).
  - intros y Hy. subst l.
    destruct (last_hd_in h l1 l2 y) as [? ?]; [set_solver|].
    apply lookup_after_insert_ne; [set_solver|done..].
Qed.

Lemma link_generic_for_each h ns : ∀ s l0,
  is_list (links_of s) h l0 → StronglySorted R l0 →
  NoDup ns → (∀ n, n ∈ ns → n ∉ h :: l0) →
  (∀ n, n ∈ ns → detached (links_of s) n) →
  (∀ x m, x ∈ l0 ++ ns →
     key_at (Some x) (set_links m s) = Ok (key x, set_links m s)) →
  ∃ m' l,
    for_each (link_generic key_at before h) ns s = Ok (tt, set_links m' s)
    ∧ is_list m' h l
    ∧ StronglySorted R l
    ∧ (∀ j, band key j l = band key j (l0 ++ ns))
    ∧ l ≡ₚ l0 ++ ns
    ∧ (∀ y, y ∉ h :: l0 ++ ns → m' !! y = links_of s !! y).
Proof.
  induction ns as [|n ns IH]; intros s l0 Hl Hs Hnd Hfresh Hdet Hk.
  { exists (links_of s), l0. rewrite app_nil_r, set_links_id. done. }
  apply NoDup_cons in Hnd as [Hn Hnd].
  destruct (link_generic_sorted s h l0 n) as (m1 & l1 & l2 & Hr & Hp & Hl1 & Hs1 & Hb1 & Hf1).
  - done.
  - done.
  - apply Hfresh. set_solver.
  - apply Hdet. set_solver.
  - intros x Hx. rewrite <-(set_links_id s). apply Hk. set_solver.
  - pose proof Hp as [E _].
    destruct (IH (set_links m1 s) (l1 ++ n :: l2)) as (m' & l & Hr' & Hl' & Hs' & Hb' & Hperm & Hf').
    + done.
    + done.
    + done.
    + intros y Hy. specialize (Hfresh y). subst l0. set_solver.
    + intros y Hy. unfold detached. cbn. rewrite Hf1.
      * apply Hdet. set_solver.
      * specialize (Hfresh y). set_solver.
    + intros x m Hx. cbn. apply Hk. subst l0. set_solver.
    + exists m', l. cbn in Hr'. cbn [for_each].
      rewrite (bind_ok _ _ _ _ _ Hr). split_and!; [done..| | |].
      * intros j. rewrite Hb'. unfold band in *.
        rewrite filter_app, Hb1, <-filter_app, <-app_assoc. done.
      * rewrite Hperm, E, <-!app_assoc. apply Permutation_app_head.
        by rewrite <-Permutation_middle.
      * intros y Hy. cbn in Hf'. rewrite Hf'; [apply Hf1|]; subst l0; set_solver.
Qed.

End ordered_sequence.

(** ** The wait list *)

Lemma StronglySorted_impl {A} (R1 R2 : relation A) l :
  (∀ x y, R1 x y → R2 x y) → StronglySorted R1 l → StronglySorted R2 l.
Proof.
  intros H. induction 1 as [|x l _ IH Hx]; constructor; [done|].
  eapply Forall_impl; [done|]. cbn. auto.
Qed.

Lemma gtb_opp a b : (a >? b) = (- a <? - b).
Proof. rewrite Z.gtb_ltb. destruct (Z.ltb_spec b a), (Z.ltb_spec (- a) (- b)); lia. Qed.

Lemma sched_prio_at_wprio s x k :
  wprio s x = Some k →
  waiting_threads_list.sched_prio_at (Some x) s = Ok (k, s).
Proof.
  unfold wprio, waiting_threads_list.sched_prio_at, thread.sched_prio,
    thread.get, get_thread_, bind, deref, ret.
  destruct (thread_ s !! x) as [th|]; [|done]. cbn.
  destruct (threads s !! th) as [t|]; [|done]. cbn. congruence.
Qed.

(** The three cases of [placed] for priorities, spelled out. *)
Lemma placed_priority (prio : ptr → Z) k h l l1 l2 node :
  placed Z.gtb prio k l l1 l2 →
  (l = [] ∨ k ≤ prio (List.last l h) → l1 ++ node :: l2 = l ++ [node])
  ∧ (l ≠ [] → prio (List.last l h) < k → prio (hd h l) < k →
     l1 ++ node :: l2 = node :: l)
  ∧ (l ≠ [] → prio (List.last l h) < k → k ≤ prio (hd h l) →
     ∃ la x lb, l = la ++ x :: lb ∧ k ≤ prio x
       ∧ Forall (λ y, prio y < k) lb
       ∧ l1 ++ node :: l2 = la ++ x :: node :: lb).
Proof.
  intros [E P]. destruct l as [|x0 l'].
  { symmetry in E. apply app_eq_nil in E as [-> ->]. split_and!; done. }
  rewrite (last_cons x0 l' h). rewrite last_cons in P. cbn [hd].
  destruct (Z.gtb_spec k (prio (List.last l' x0))) as [H1|H1]; cbn [negb] in P.
  2:{ subst l2. rewrite app_nil_r in E. subst l1. split_and!; [done|lia..]. }
  destruct (Z.gtb_spec k (prio x0)) as [H2|H2].
  { subst l1. cbn in E. subst l2. split_and!; [intros [?|?]; [done|lia]|done|lia]. }
  destruct P as (la & x & -> & Hx & Hlb).
  split_and!; [intros [?|?]; [done|lia]|lia|]. intros _ _ _.
  exists la, x, l2. rewrite <-!app_assoc in *. cbn in *.
  split_and!; [done| | |done].
  - destruct (Z.gtb_spec k (prio x)); [done|lia].
  - eapply Forall_impl; [done|]. cbn. intros y Hy.
    destruct (Z.gtb_spec k (prio y)); [lia|done].
Qed.

Lemma waiting_link_for_each s h l0 ns (prio : ptr → Z) :
  is_list (links_of s) h l0 →
  StronglySorted (λ x y, prio y ≤ prio x) l0 →
  NoDup ns →
  (∀ n, n ∈ ns → (n ∉ h :: l0) ∧ detached (links_of s) n) →
  (∀ x, x ∈ l0 ++ ns → wprio s x = Some (prio x)) →
  ∃ s' l,
    for_each (waiting_threads_list.link h) ns s = Ok (tt, s')
    ∧ is_list (links_of s') h l
    ∧ StronglySorted (λ x y, prio y ≤ prio x) l
    ∧ (∀ j, band prio j l = band prio j (l0 ++ ns))
    ∧ l ≡ₚ l0 ++ ns
    ∧ (∀ x, wprio s' x = wprio s x).
Proof.
  intros Hl Hs Hnd Hfresh Hk.
  destruct (link_generic_for_each waiting_threads_list.sched_prio_at
              Z.gtb Z.opp gtb_opp prio h ns s l0)
    as (m' & l & Hr & Hl' & Hs' & Hb & Hperm & _).
  - done.
  - eapply StronglySorted_impl; [|done]. cbn. intros; lia.
  - done.
  - intros n Hn. by apply Hfresh.
  - intros n Hn. by apply Hfresh.
  - intros x m Hx. apply sched_prio_at_wprio. by apply Hk.
  - exists (set_links m' s), l.
    rewrite (for_each_ext _ (link_generic waiting_threads_list.sched_prio_at Z.gtb h))
      by (intros; apply waiting_link_generic).
    split_and!; [done|done| |done|done|done].
    eapply StronglySorted_impl; [|done]. cbn. intros; lia.
Qed.

Lemma waiting_link_once s h l node (prio : ptr → Z) :
  is_list (links_of s) h l → node ∉ h :: l → detached (links_of s) node →
  (∀ x, x ∈ node :: l → wprio s x = Some (prio x)) →
  ∃ s' l1 l2,
    waiting_threads_list.link h node s = Ok (tt, s')
    ∧ placed Z.gtb prio (prio node) l l1 l2
    ∧ is_list (links_of s') h (l1 ++ node :: l2)
    ∧ (∀ y, y ∉ node :: h :: l → links_of s' !! y = links_of s !! y)
    ∧ s' = set_links (links_of s') s.
Proof.
  intros Hl Hn Hd Hk.
  destruct (link_generic_spec waiting_threads_list.sched_prio_at Z.gtb prio s h l node)
    as (l1 & l2 & Hp & Hr); [done..| |].
  { intros x Hx. apply sched_prio_at_wprio. by apply Hk. }
  pose proof Hp as [E _].
  eexists _, l1, l2. rewrite waiting_link_generic.
  split_and!; [done|done| | |done]; cbn.
  - subst l. apply is_list_insert; [done..|]. by apply detached_inv in Hd as [? _].
  - intros y Hy. subst l.
    destruct (last_hd_in h l1 l2 y) as [? ?]; [set_solver|].
    apply lookup_after_insert_ne; [set_solver|done..].
Qed.

(** C1. Every sequence of [waiting_threads_list::link] calls on a wait
    list in priority order leaves it in nonincreasing priority order, with
    the nodes of each priority in the order they were linked (the earlier
    members first); one call puts the node at the tail when the list is
    empty or its priority is at most the tail's, at the head when its
    priority is above the head's, and otherwise behind the first node
    from the tail whose priority is at least its own; linking waiters of
    priorities 5, 9, 5, 7, 9, 1 gives 9, 9, 7, 5, 5, 1 with the first
    linked 9 (node 12) in front of the second (node 15). *)
Theorem waiting_link_keeps_priority_order :
  (∀ s h l0 ns (prio : ptr → Z),
     is_list (links_of s) h l0 →
     StronglySorted (λ x y, prio y ≤ prio x) l0 →
     NoDup ns →
     (∀ n, n ∈ ns → (n ∉ h :: l0) ∧ detached (links_of s) n) →
     (∀ x, x ∈ l0 ++ ns → wprio s x = Some (prio x)) →
     ∃ s' l,
       for_each (waiting_threads_list.link h) ns s = Ok (tt, s')
       ∧ is_list (links_of s') h l
       ∧ StronglySorted (λ x y, prio y ≤ prio x) l
       ∧ (∀ j, band prio j l = band prio j (l0 ++ ns))
       ∧ l ≡ₚ l0 ++ ns
       ∧ (∀ x, wprio s' x = wprio s x))
  ∧ (∀ s h l node (prio : ptr → Z),
       is_list (links_of s) h l → node ∉ h :: l →
       detached (links_of s) node →
       (∀ x, x ∈ node :: l → wprio s x = Some (prio x)) →
       ∃ s' l',
         waiting_threads_list.link h node s = Ok (tt, s')
         ∧ is_list (links_of s') h l'
         ∧ (l = [] ∨ prio node ≤ prio (List.last l h) → l' = l ++ [node])
         ∧ (l ≠ [] → prio (List.last l h) < prio node →
            prio (hd h l) < prio node → l' = node :: l)
         ∧ (l ≠ [] → prio (List.last l h) < prio node →
            prio node ≤ prio (hd h l) →
            ∃ la x lb, l = la ++ x :: lb ∧ prio node ≤ prio x
              ∧ Forall (λ y, prio y < prio node) lb
              ∧ l' = la ++ x :: node :: lb))
  ∧ (∃ s',
       for_each (waiting_threads_list.link 1) [11; 12; 13; 14; 15; 16] scenario_S1
       = Ok (tt, s')
       ∧ members s' 1 = [12; 15; 14; 11; 13; 16]
       ∧ wprio s' <$> members s' 1 = Some <$> [9; 9; 7; 5; 5; 1]).
Proof.
  split_and!.
  - intros. by apply waiting_link_for_each.
  - intros s h l node prio Hl Hn Hd Hk.
    destruct (waiting_link_once s h l node prio) as (s' & l1 & l2 & Hr & Hp & Hl' & _);
      [done..|].
    exists s', (l1 ++ node :: l2). split; [done|]. split; [done|].
    by apply placed_priority.
  - eexists. split; [vm_compute; reflexivity|]. split; vm_compute; reflexivity.
Qed.

(** ** Unlinking, and the ring invariant *)

Lemma detached_intro (m : gmap ptr links) x :
  valid m x → prv m x = None → nxt m x = None → detached m x.
Proof.
  unfold valid, prv, nxt, detached. intros [[p n] ->]. cbn. by intros -> ->.
Qed.

Lemma unlink_is_list s h l1 x l2 :
  is_list (links_of s) h (l1 ++ x :: l2) →
  static_double_list_links.unlink x s
  = Ok (tt, set_links (after_unlink (links_of s) x (List.last l1 h) (hd h l2)) s).
Proof.
  intros Hl. pose proof (is_list_around _ _ _ _ _ Hl) as [Hp Hn].
  pose proof Hl as [Hnd _]. apply NoDup_cons in Hnd as [Hh Hnd].
  apply NoDup_app in Hnd as (_ & Hdisj & [Hx _]%NoDup_cons).
  pose proof (last_elem h l1).
  assert (hd h l2 ∈ h :: l2) by (destruct l2; set_solver).
  apply unlink_ok; [done..| | | |].
  - eapply is_list_valid; [done|set_solver].
  - eapply is_list_valid; [done|set_solver].
  - set_solver.
  - set_solver.
Qed.

Lemma after_unlink_detached (m : gmap ptr links) h l1 x l2 :
  is_list m h (l1 ++ x :: l2) →
  detached (after_unlink m x (List.last l1 h) (hd h l2)) x.
Proof.
  intros Hl.
  pose proof (last_elem h l1).
  assert (hd h l2 ∈ h :: l2) by (destruct l2; set_solver).
  assert (valid m x) by (eapply is_list_valid; [done|set_solver]).
  assert (valid m (List.last l1 h)) by (eapply is_list_valid; [done|set_solver]).
  assert (valid m (hd h l2)) by (eapply is_list_valid; [done|set_solver]).
  apply detached_intro.
  - by apply valid_after_unlink.
  - rewrite prv_after_unlink by done. by rewrite decide_True.
  - rewrite nxt_after_unlink by done. by rewrite decide_True.
Qed.

Lemma dseg_hd_prev (m : gmap ptr links) p l q :
  dseg m p l q → prv m (hd q l) = Some p.
Proof. destruct l; cbn; tauto. Qed.

Lemma dseg_last_next (m : gmap ptr links) p l q :
  dseg m p l q → nxt m (List.last l p) = Some q.
Proof.
  revert p. induction l as [|x l IH]; intros p; [cbn; tauto|].
  intros (_ & _ & H). rewrite last_cons. by apply IH.
Qed.

Lemma dseg_iter_next (m : gmap ptr links) p l q :
  dseg m p l q →
  iter_next m (S (length l)) p = Some q
  ∧ ∀ k, (k ≤ length l)%nat → iter_next m k p = (p :: l) !! k.
Proof.
  revert p. induction l as [|x l IH]; intros p.
  - intros [H1 H2]. cbn. rewrite H1. split; [done|].
    intros k Hk. by replace k with O by (cbn in Hk; lia).
  - intros (H1 & H2 & H3). destruct (IH x H3) as [IH1 IH2].
    split.
    + cbn [length iter_next]. rewrite H1. exact IH1.
    + intros [|k] Hk; [done|]. cbn [iter_next]. rewrite H1. cbn.
      apply IH2. cbn in Hk. lia.
Qed.

Lemma dseg_iter_prev (m : gmap ptr links) p l q :
  dseg m p l q →
  iter_prev m (S (length l)) q = Some p
  ∧ ∀ k, (k ≤ length l)%nat → iter_prev m k q = (q :: rev l) !! k.
Proof.
  revert q. induction l as [|x l IH] using rev_ind; intros q.
  - intros [H1 H2]. cbn. rewrite H2. split; [done|].
    intros k Hk. by replace k with O by (cbn in Hk; lia).
  - intros [H1 [H2 H3]]%dseg_app. destruct (IH x H1) as [IH1 IH2].
    rewrite length_app, rev_app_distr. cbn [length rev app]. split.
    + replace (length l + 1)%nat with (S (length l)) by lia.
      cbn [iter_prev]. rewrite H3. exact IH1.
    + intros [|k] Hk; [done|]. cbn [iter_prev]. rewrite H3. cbn.
      apply IH2. lia.
Qed.

Lemma is_list_neighbours (m : gmap ptr links) h l x :
  is_list m h l → x ∈ h :: l →
  ∃ n p, nxt m x = Some n ∧ prv m n = Some x
         ∧ prv m x = Some p ∧ nxt m p = Some x.
Proof.
  intros Hl [->|Hx]%elem_of_cons.
  - destruct Hl as [_ Hd]. exists (hd h l), (List.last l h).
    split_and!; eauto using dseg_hd, dseg_hd_prev, dseg_last, dseg_last_next.
  - apply list_elem_of_split in Hx as (l1 & l2 & ->).
    destruct Hl as [_ [H1 H2]%dseg_app].
    exists (hd h l2), (List.last l1 h).
    split_and!; eauto using dseg_hd, dseg_hd_prev, dseg_last, dseg_last_next.
Qed.

Lemma is_list_ring (m : gmap ptr links) h l :
  is_list m h l →
  iter_next m (S (length l)) h = Some h
  ∧ (∀ k, (0 < k ≤ length l)%nat → iter_next m k h ≠ Some h)
  ∧ iter_prev m (S (length l)) h = Some h
  ∧ (∀ k, (0 < k ≤ length l)%nat → iter_prev m k h ≠ Some h).
Proof.
  intros [Hnd Hd]. apply NoDup_cons in Hnd as [Hh _].
  destruct (dseg_iter_next _ _ _ _ Hd) as [Hn1 Hn2].
  destruct (dseg_iter_prev _ _ _ _ Hd) as [Hp1 Hp2].
  split_and!; [done| |done|].
  - intros [|k] Hk; [lia|]. rewrite Hn2 by lia. cbn. intros Hk'.
    apply Hh. by eapply list_elem_of_lookup_2.
  - intros [|k] Hk; [lia|]. rewrite Hp2 by lia. cbn. intros Hk'.
    apply Hh. apply list_elem_of_In, in_rev, list_elem_of_In.
    by eapply list_elem_of_lookup_2.
Qed.

Lemma follow_dseg (m : gmap ptr links) p l h fuel :
  dseg m p l h → h ∉ l → (length l ≤ fuel)%nat → follow fuel m h p = l.
Proof.
  revert p fuel. induction l as [|x l IH]; intros p fuel Hd Hh Hf.
  - destruct Hd as [H1 _]. destruct fuel; [done|]. cbn. rewrite H1.
    by rewrite decide_True.
  - destruct Hd as (H1 & _ & H3). destruct fuel as [|fuel]; [cbn in Hf; lia|].
    cbn. rewrite H1. rewrite decide_False by set_solver.
    f_equal. apply IH; [done|set_solver|cbn in Hf; lia].
Qed.

(** [members] reads the list off the store. *)
Lemma members_is_list s h l : is_list (links_of s) h l → members s h = l.
Proof.
  intros Hl. pose proof Hl as [Hnd Hd]. apply NoDup_cons in Hnd as [Hh Hnd].
  apply follow_dseg; [done..|].
  apply length_le_size; [done|]. intros. eapply is_list_valid; [done|set_solver].
Qed.

Lemma clear_is_list s h :
  valid (links_of s) h →
  ∃ s', static_double_list.clear h s = Ok (tt, s')
        ∧ is_list (links_of s') h []
        ∧ s' = set_links (links_of s') s
        ∧ ∀ y, y ≠ h → links_of s' !! y = links_of s !! y.
Proof.
  intros Hv. eexists. unfold static_double_list.clear. rewrite bind_ret_r.
  step. step. split; [done|]. cbn [links_of set_links].
  split; [|split; [done|]].
  - split; [apply NoDup_singleton|]. cbn.
    rewrite nxt_upd_prev, nxt_upd_next, prv_upd_prev by valid_tac.
    by rewrite !decide_True.
  - intros y Hy. by rewrite lookup_upd_prev_ne, lookup_upd_next_ne.
Qed.

Lemma is_list_one_node : is_list one_node_list 1 [11].
Proof.
  split; [|by vm_compute].
  apply NoDup_cons. split; [|apply NoDup_singleton].
  by intros ?%list_elem_of_singleton.
Qed.

Lemma clear_valid s h s' :
  static_double_list.clear h s = Ok (tt, s') → valid (links_of s) h.
Proof.
  unfold static_double_list.clear, bind, put_next, deref, bind, valid.
  destruct (links_of s !! h); [eauto|done].
Qed.

Lemma reachable_is_list h s l : reachable h s l → is_list (links_of s) h l.
Proof.
  induction 1 as [s s' Hc|s l1 l2 node s' _ IH Hn Hd Hi|s l1 x l2 s' _ IH Hu].
  - destruct (clear_is_list s h (clear_valid _ _ _ Hc)) as (s1 & Hc1 & Hl & _).
    congruence.
  - rewrite (insert_after_is_list s h l1 l2 node) in Hi by done.
    injection Hi as <-. cbn. apply is_list_insert; [done..|].
    by apply detached_inv in Hd as [? _].
  - rewrite (unlink_is_list s h l1 x l2) in Hu by done.
    injection Hu as <-. cbn. by apply is_list_remove.
Qed.

(** C7. [unlink] of a node with both pointers absent returns the state
    it was given, so no list changes; [unlink] of a node on a list makes
    its two neighbours point at each other, clears both pointers of the
    node, leaves every other node as it was and the rest of the list a
    ring; a second [unlink] does nothing. *)
Theorem unlink_detached_noop_linked_splices :
  (∀ s x, detached (links_of s) x →
     static_double_list_links.unlink x s = Ok (tt, s))
  ∧ (∀ s h l1 x l2,
       is_list (links_of s) h (l1 ++ x :: l2) →
       ∃ s',
         static_double_list_links.unlink x s = Ok (tt, s')
         ∧ s' = set_links (links_of s') s
         ∧ nxt (links_of s') (List.last l1 h) = Some (hd h l2)
         ∧ prv (links_of s') (hd h l2) = Some (List.last l1 h)
         ∧ detached (links_of s') x
         ∧ is_list (links_of s') h (l1 ++ l2)
         ∧ (∀ y, y ≠ x → y ≠ List.last l1 h → y ≠ hd h l2 →
              links_of s' !! y = links_of s !! y)
         ∧ static_double_list_links.unlink x s' = Ok (tt, s')).
Proof.
  assert (∀ s x, detached (links_of s) x →
            static_double_list_links.unlink x s = Ok (tt, s)) as Hnoop.
  { intros s x (Hv & Hp & Hn)%detached_inv. by apply unlink_detached. }
  split; [done|].
  intros s h l1 x l2 Hl. eexists. split; [by apply unlink_is_list|].
  pose proof (is_list_remove _ _ _ _ _ Hl) as Hl'.
  pose proof (after_unlink_detached _ _ _ _ _ Hl) as Hd.
  cbn [links_of set_links]. split; [done|].
  split; [exact (is_list_after _ _ _ _ Hl')|]. split.
  { destruct Hl' as [_ Hd']. destruct l1 as [|y l1 _] using rev_ind.
    - cbn in *. by apply dseg_hd_prev.
    - rewrite <-app_assoc in Hd'. apply dseg_app in Hd' as [_ Hd'].
      rewrite last_last in *. cbn in Hd'. by apply dseg_hd_prev. }
  split; [done|]. split; [done|]. split.
  - intros y ? ? ?. by apply lookup_after_unlink_ne.
  - by apply Hnoop.
Qed.

(** C8 (amended). A list reached from [clear ()] by [insert_after] and
    [unlink] calls is a ring: with [n] nodes on it, following [next] from
    the header comes back to the header after exactly [n + 1] steps, not
    before, and likewise along [prev]; every node [x] of the ring, the
    header included, has [x.next.prev == x] and [x.prev.next == x];
    [insert_after] and [unlink], called within their preconditions,
    return and keep the list a ring. *)
Theorem ring_closes_after_size_plus_one :
  (∀ h s l, reachable h s l → is_list (links_of s) h l)
  ∧ (∀ m h l,
       is_list m h l →
       iter_next m (S (length l)) h = Some h
       ∧ (∀ k, (0 < k ≤ length l)%nat → iter_next m k h ≠ Some h)
       ∧ iter_prev m (S (length l)) h = Some h
       ∧ (∀ k, (0 < k ≤ length l)%nat → iter_prev m k h ≠ Some h)
       ∧ (∀ x, x ∈ h :: l →
            ∃ n p, nxt m x = Some n ∧ prv m n = Some x
                   ∧ prv m x = Some p ∧ nxt m p = Some x))
  ∧ (∀ s h l1 l2 node,
       is_list (links_of s) h (l1 ++ l2) →
       node ∉ h :: l1 ++ l2 → detached (links_of s) node →
       ∃ s',
         static_double_list.insert_after node (Some (List.last l1 h)) s = Ok (tt, s')
         ∧ is_list (links_of s') h (l1 ++ node :: l2))
  ∧ (∀ s h l1 x l2,
       is_list (links_of s) h (l1 ++ x :: l2) →
       ∃ s',
         static_double_list_links.unlink x s = Ok (tt, s')
         ∧ is_list (links_of s') h (l1 ++ l2)).
Proof.
  split_and!.
  - apply reachable_is_list.
  - intros m h l Hl. destruct (is_list_ring m h l Hl) as (? & ? & ? & ?).
    do 4 (split; [done|]). intros x Hx. by eapply is_list_neighbours.
  - intros s h l1 l2 node Hl Hn Hd. eexists.
    split; [by apply insert_after_is_list|]. cbn.
    apply is_list_insert; [done..|]. by apply detached_inv in Hd as [? _].
  - intros s h l1 x l2 Hl. eexists.
    split; [by apply unlink_is_list|]. cbn. by apply is_list_remove.
Qed.

(** C8 as stated fails on a list of one node: its size is 1, and one
    step along [next] from the header reaches the node, not the
    header. *)
Lemma ring_size_steps_counterexample :
  is_list one_node_list 1 [11]
  ∧ ¬ (iter_next one_node_list (length [11]) 1 = Some 1).
Proof. split; [apply is_list_one_node|]. by vm_compute. Qed.

(** ** Waking and dispatching the head *)

Lemma step_deref {A B} (f : state → gmap ptr A) a v s (k : A → op B) :
  f s !! a = Some v → bind (deref f (Some a)) k s = k v s.
Proof. intros H. unfold bind, deref. by rewrite H. Qed.

Lemma empty_zero_header s h :
  valid (links_of s) h → nxt (links_of s) h = None →
  static_double_list.empty h s = Ok (true, s).
Proof.
  intros Hv Hn. unfold static_double_list.empty. rewrite bind_ret_r.
  step. rewrite Hn. by step.
Qed.

Lemma unlink_head_node s h x l :
  is_list (links_of s) h (x :: l) →
  static_double_list_links.unlink x s
  = Ok (tt, set_links (after_unlink (links_of s) x h (hd h l)) s)
  ∧ is_list (after_unlink (links_of s) x h (hd h l)) h l
  ∧ detached (after_unlink (links_of s) x h (hd h l)) x.
Proof.
  intros Hl. split_and!.
  - apply (unlink_is_list s h [] x l Hl).
  - apply (is_list_remove _ h [] x l Hl).
  - apply (after_unlink_detached _ h [] x l Hl).
Qed.

Lemma resume_one_head s h x l th t :
  is_list (links_of s) h (x :: l) →
  thread_ s !! x = Some th → threads s !! th = Some t →
  waiting_threads_list.resume_one h s
  = Ok (tt, State (after_unlink (links_of s) x h (hd h l)) (thread_ s)
                  (ts_nodes s) (threads s) (timers s)
                  (trace s ++ match sched_state_ t with
                              | destroyed => []
                              | _ => [ev_resume th]
                              end)).
Proof.
  intros Hl Hx Ht. unfold waiting_threads_list.resume_one.
  rewrite (bind_ok _ _ _ _ _ (empty_is_list _ _ _ Hl)).
  rewrite bool_decide_eq_false_2 by done.
  unfold static_double_list.head.
  rewrite step_get_next by (eapply is_list_valid; [done|set_solver]).
  rewrite (is_list_head _ _ _ Hl). cbn [hd].
  unfold get_thread_. rewrite (step_deref _ _ _ _ _ Hx).
  rewrite step_get_next by (eapply is_list_valid; [done|set_solver]).
  rewrite (is_list_head _ _ _ Hl). cbn [hd].
  destruct (unlink_head_node s h x l Hl) as (Hu & _ & _).
  rewrite (bind_ok _ _ _ _ _ Hu).
  unfold thread.sched_state, thread.get. rewrite bind_assoc.
  rewrite (step_deref threads th t) by done. rewrite step_ret.
  destruct (sched_state_ t) eqn:Est; cbn [negb state_eqb];
    unfold thread.resume, thread.get, ret;
    rewrite ?(step_deref threads th t) by done;
    unfold log; cbn; by rewrite ?app_nil_r.
Qed.

(** C5. [resume_one] on an empty list, constructed or still zero,
    returns the state it was given; on a list with head [x] it unlinks
    [x], whatever the state of its thread, and then calls [resume ()] on
    that thread exactly when its scheduler state is not [destroyed];
    when the only waiter has been set to [destroyed] the list is left
    empty and no [resume ()] is recorded. *)
Theorem resume_one_unlinks_head_skips_destroyed :
  (∀ s h, is_list (links_of s) h [] →
     waiting_threads_list.resume_one h s = Ok (tt, s))
  ∧ (∀ s h, detached (links_of s) h →
       waiting_threads_list.resume_one h s = Ok (tt, s))
  ∧ (∀ s h x l th t,
       is_list (links_of s) h (x :: l) →
       thread_ s !! x = Some th → threads s !! th = Some t →
       ∃ s',
         waiting_threads_list.resume_one h s = Ok (tt, s')
         ∧ is_list (links_of s') h l
         ∧ detached (links_of s') x
         ∧ threads s' = threads s
         ∧ (sched_state_ t ≠ destroyed → trace s' = trace s ++ [ev_resume th])
         ∧ (sched_state_ t = destroyed → trace s' = trace s))
  ∧ (∃ s',
       (waiting_threads_list.link 1 11;;
        thread.set_sched_state_ 21 destroyed;;
        waiting_threads_list.resume_one 1) scenario_S5 = Ok (tt, s')
       ∧ members s' 1 = []
       ∧ detached (links_of s') 11
       ∧ trace s' = []).
Proof.
  split; [|split; [|split]].
  - intros s h Hl. unfold waiting_threads_list.resume_one.
    rewrite (bind_ok _ _ _ _ _ (empty_is_list _ _ _ Hl)). done.
  - intros s h (Hv & _ & Hn)%detached_inv.
    unfold waiting_threads_list.resume_one.
    rewrite (bind_ok _ _ _ _ _ (empty_zero_header _ _ Hv Hn)). done.
  - intros s h x l th t Hl Hx Ht. eexists.
    split; [by apply resume_one_head|]. cbn.
    destruct (unlink_head_node s h x l Hl) as (_ & Hl' & Hd).
    split; [done|]. split; [done|]. split; [done|].
    split; destruct (sched_state_ t); try done. by rewrite app_nil_r.
  - eexists. split; [vm_compute; reflexivity|].
    split; [|split]; vm_compute; reflexivity.
Qed.

Lemma prio_at_wprio s x k :
  wprio s x = Some k → ready_threads_list.prio_at (Some x) s = Ok (k, s).
Proof. apply sched_prio_at_wprio. Qed.

Lemma step_skip_clear {A} s h l (k : unit → op A) :
  is_list (links_of s) h l →
  bind (let* p := get_prev (Some h) in when (is_null p) (static_double_list.clear h))
       k s = k tt s.
Proof.
  intros Hl. rewrite bind_assoc.
  rewrite step_get_prev by (eapply is_list_valid; [done|set_solver]).
  by rewrite (is_list_tail _ _ _ Hl).
Qed.

Lemma ready_link_once s h l node th t (prio : ptr → Z) :
  is_list (links_of s) h l → node ∉ h :: l → detached (links_of s) node →
  thread_ s !! node = Some th → threads s !! th = Some t →
  (∀ x, x ∈ node :: l → wprio s x = Some (prio x)) →
  ∃ m' l1 l2,
    ready_threads_list.link h node s
    = Ok (tt, State m' (thread_ s) (ts_nodes s)
                    (<[th := Thread (prio_ t) ready (child_links_ t)]> (threads s))
                    (timers s) (trace s))
    ∧ placed Z.gtb prio (prio node) l l1 l2
    ∧ is_list m' h (l1 ++ node :: l2).
Proof.
  intros Hl Hn Hd Hth Ht Hk.
  destruct (link_generic_spec ready_threads_list.prio_at Z.gtb prio s h l node)
    as (l1 & l2 & Hp & Hr); [done..| |].
  { intros x Hx. apply prio_at_wprio. by apply Hk. }
  pose proof Hp as [E _].
  eexists _, l1, l2. rewrite ready_link_generic.
  rewrite (step_skip_clear _ _ _ _ Hl).
  rewrite (bind_ok _ _ _ _ _ Hr).
  unfold get_thread_. rewrite (step_deref thread_ node th) by done.
  unfold thread.set_sched_state_, thread.get.
  rewrite (step_deref threads th t) by done.
  split; [reflexivity|]. split; [done|].
  subst l. apply is_list_insert; [done..|]. by apply detached_inv in Hd as [? _].
Qed.

Lemma unlink_head_ok s h x l th t :
  is_list (links_of s) h (x :: l) →
  thread_ s !! x = Some th → threads s !! th = Some t →
  ready_threads_list.unlink_head h s
  = Ok (th, State (after_unlink (links_of s) x h (hd h l)) (thread_ s)
                  (ts_nodes s)
                  (<[th := Thread (prio_ t) running (child_links_ t)]> (threads s))
                  (timers s) (trace s)).
Proof.
  intros Hl Hx Ht. unfold ready_threads_list.unlink_head.
  rewrite bind_assoc.
  rewrite (bind_ok _ _ _ _ _ (empty_is_list _ _ _ Hl)).
  rewrite bool_decide_eq_false_2 by done. cbn [negb assert]. rewrite step_ret.
  unfold static_double_list.head.
  rewrite step_get_next by (eapply is_list_valid; [done|set_solver]).
  rewrite (is_list_head _ _ _ Hl). cbn [hd].
  unfold get_thread_. rewrite (step_deref _ _ _ _ _ Hx).
  rewrite step_get_next by (eapply is_list_valid; [done|set_solver]).
  rewrite (is_list_head _ _ _ Hl). cbn [hd].
  destruct (unlink_head_node s h x l Hl) as (Hu & _ & _).
  rewrite (bind_ok _ _ _ _ _ Hu).
  unfold thread.set_sched_state_, thread.get. rewrite bind_assoc.
  rewrite (step_deref threads th t) by done. done.
Qed.

(** C2. On a non-empty ready list [unlink_head] detaches the head node,
    sets its thread to [running] and returns that thread; [link] orders
    by the thread's [prio_] as the wait list does and sets the thread to
    [ready]; after linking A (priority 3), B (7), C (7) and D (5) on the
    static ready list, four [unlink_head] calls return B, C, D, A, each
    in state [running], and leave the list empty. *)
Theorem ready_unlink_head_dispatches_in_priority_order :
  (∀ s h x l th t,
     is_list (links_of s) h (x :: l) →
     thread_ s !! x = Some th → threads s !! th = Some t →
     ∃ s',
       ready_threads_list.unlink_head h s = Ok (th, s')
       ∧ is_list (links_of s') h l
       ∧ detached (links_of s') x
       ∧ threads s' = <[th := Thread (prio_ t) running (child_links_ t)]> (threads s)
       ∧ thread_ s' = thread_ s ∧ trace s' = trace s)
  ∧ (∀ s h l node th t (prio : ptr → Z),
       is_list (links_of s) h l → node ∉ h :: l →
       detached (links_of s) node →
       thread_ s !! node = Some th → threads s !! th = Some t →
       (∀ x, x ∈ node :: l → wprio s x = Some (prio x)) →
       ∃ s' l1 l2,
         ready_threads_list.link h node s = Ok (tt, s')
         ∧ placed Z.gtb prio (prio node) l l1 l2
         ∧ is_list (links_of s') h (l1 ++ node :: l2)
         ∧ threads s' = <[th := Thread (prio_ t) ready (child_links_ t)]> (threads s))
  ∧ (∃ s0 s1 s2 s3 s4,
       for_each (ready_threads_list.link 1) [11; 12; 13; 14] scenario_S2
       = Ok (tt, s0)
       ∧ members s0 1 = [12; 13; 14; 11]
       ∧ sched_state_ <$> threads s0 !! 22 = Some ready
       ∧ ready_threads_list.unlink_head 1 s0 = Ok (22, s1)
       ∧ sched_state_ <$> threads s1 !! 22 = Some running
       ∧ ready_threads_list.unlink_head 1 s1 = Ok (23, s2)
       ∧ sched_state_ <$> threads s2 !! 23 = Some running
       ∧ ready_threads_list.unlink_head 1 s2 = Ok (24, s3)
       ∧ sched_state_ <$> threads s3 !! 24 = Some running
       ∧ ready_threads_list.unlink_head 1 s3 = Ok (21, s4)
       ∧ sched_state_ <$> threads s4 !! 21 = Some running
       ∧ members s4 1 = []).
Proof.
  split; [|split].
  - intros s h x l th t Hl Hx Ht. eexists.
    split; [by apply unlink_head_ok|]. cbn.
    destruct (unlink_head_node s h x l Hl) as (_ & Hl' & Hd). done.
  - intros s h l node th t prio Hl Hn Hd Hth Ht Hk.
    destruct (ready_link_once s h l node th t prio) as (m' & l1 & l2 & Hr & Hp & Hl');
      [done..|].
    eexists _, l1, l2. split; [exact Hr|]. done.
  - do 5 eexists.
    split; [vm_compute; reflexivity|].
    split; [vm_compute; reflexivity|].
    split; [vm_compute; reflexivity|].
    split; [vm_compute; reflexivity|].
    split; [vm_compute; reflexivity|].
    split; [vm_compute; reflexivity|].
    split; [vm_compute; reflexivity|].
    split; [vm_compute; reflexivity|].
    split; [vm_compute; reflexivity|].
    split; [vm_compute; reflexivity|].
    split; vm_compute; reflexivity.
Qed.

(** ** Appending, and the static lists *)

Lemma insert_at_tail s h l node :
  is_list (links_of s) h l → node ∉ h :: l → detached (links_of s) node →
  static_double_list.insert_after node (Some (List.last l h)) s
  = Ok (tt, set_links (after_insert (links_of s) node (List.last l h) h) s)
  ∧ is_list (after_insert (links_of s) node (List.last l h) h) h (l ++ [node]).
Proof.
  intros Hl Hn Hd. split.
  - apply (insert_after_is_list s h l [] node); by rewrite ?app_nil_r.
  - apply (is_list_insert _ h l [] node); rewrite ?app_nil_r; [done..|].
    by apply detached_inv in Hd as [? _].
Qed.

Lemma children_link_ok s h l th t :
  is_list (links_of s) h l → threads s !! th = Some t →
  child_links_ t ∉ h :: l → detached (links_of s) (child_links_ t) →
  ∃ s',
    thread_children_list.link h th s = Ok (tt, s')
    ∧ is_list (links_of s') h (l ++ [child_links_ t])
    ∧ s' = set_links (links_of s') s.
Proof.
  intros Hl Ht Hn Hd. eexists. unfold thread_children_list.link, thread.get.
  rewrite (step_deref threads th t) by done.
  unfold static_double_list.tail.
  rewrite step_get_prev by (eapply is_list_valid; [done|set_solver]).
  rewrite (is_list_tail _ _ _ Hl).
  destruct (insert_at_tail s h l (child_links_ t)) as [Hi Hl']; [done..|].
  split; [exact Hi|]. done.
Qed.

Lemma top_link_ok s h l th t :
  is_list (links_of s) h l → threads s !! th = Some t →
  child_links_ t ∉ h :: l → detached (links_of s) (child_links_ t) →
  ∃ s',
    top_threads_list.link h th s = Ok (tt, s')
    ∧ is_list (links_of s') h (l ++ [child_links_ t])
    ∧ s' = set_links (links_of s') s.
Proof.
  intros Hl Ht Hn Hd. unfold top_threads_list.link.
  rewrite (step_skip_clear _ _ _ _ Hl).
  by apply children_link_ok.
Qed.

Lemma terminated_link_ok s h l node :
  is_list (links_of s) h l →
  node ∉ h :: l → detached (links_of s) node →
  ∃ s',
    terminated_threads_list.link h node s = Ok (tt, s')
    ∧ is_list (links_of s') h (l ++ [node])
    ∧ s' = set_links (links_of s') s.
Proof.
  intros Hl Hn Hd. eexists. unfold terminated_threads_list.link.
  rewrite (step_skip_clear _ _ _ _ Hl).
  unfold static_double_list.tail.
  rewrite step_get_prev by (eapply is_list_valid; [done|set_solver]).
  rewrite (is_list_tail _ _ _ Hl).
  destruct (insert_at_tail s h l node) as [Hi Hl']; [done..|].
  split; [exact Hi|]. done.
Qed.

(** A zero header is promoted by the first statement of [link]. *)
Lemma promote_zero_header s h :
  detached (links_of s) h →
  ∃ s0,
    static_double_list.clear h s = Ok (tt, s0)
    ∧ is_list (links_of s0) h []
    ∧ s0 = set_links (links_of s0) s
    ∧ (∀ y, y ≠ h → links_of s0 !! y = links_of s !! y)
    ∧ ∀ A (k : unit → op A),
        bind (let* p := get_prev (Some h) in
              when (is_null p) (static_double_list.clear h)) k s
        = k tt s0.
Proof.
  intros (Hv & Hp & Hn)%detached_inv.
  destruct (clear_is_list s h Hv) as (s0 & Hc & Hl & Hs & Hf).
  exists s0. do 4 (split; [done|]). intros A k.
  rewrite bind_assoc, step_get_prev by done. rewrite Hp. cbn [is_null when].
  by apply bind_ok.
Qed.

Lemma header_fields (m : gmap ptr links) h x :
  is_list m h [x] → m !! h = Some (Links (Some x) (Some x)).
Proof.
  intros [_ (Hn & _ & _ & Hp)]. unfold nxt, prv in *.
  destruct (m !! h) as [[p n]|]; cbn in *; congruence.
Qed.

(** C6. A static list whose header is still zero reports empty, and
    [link] on it first runs [clear ()], which makes the header
    self-linked, and then inserts: the call returns, the list holds
    exactly the linked node and both header fields are present; so for
    the top-threads, the ready and the terminated list, and for the
    top-threads list of scenario S6. *)
Theorem static_list_link_promotes_zero_header :
  (∀ s h, detached (links_of s) h →
     static_double_list.empty h s = Ok (true, s))
  ∧ (∀ s h th t,
       detached (links_of s) h → threads s !! th = Some t →
       child_links_ t ≠ h → detached (links_of s) (child_links_ t) →
       ∃ s0 s',
         static_double_list.clear h s = Ok (tt, s0)
         ∧ is_list (links_of s0) h []
         ∧ static_double_list.insert_after (child_links_ t) (Some h) s0 = Ok (tt, s')
         ∧ top_threads_list.link h th s = Ok (tt, s')
         ∧ is_list (links_of s') h [child_links_ t]
         ∧ links_of s' !! h = Some (Links (Some (child_links_ t)) (Some (child_links_ t))))
  ∧ (∀ s h node,
       detached (links_of s) h →
       node ≠ h → detached (links_of s) node →
       ∃ s0 s',
         static_double_list.clear h s = Ok (tt, s0)
         ∧ is_list (links_of s0) h []
         ∧ static_double_list.insert_after node (Some h) s0 = Ok (tt, s')
         ∧ terminated_threads_list.link h node s = Ok (tt, s')
         ∧ is_list (links_of s') h [node]
         ∧ links_of s' !! h = Some (Links (Some node) (Some node)))
  ∧ (∀ s h node th t,
       detached (links_of s) h →
       node ≠ h → detached (links_of s) node →
       thread_ s !! node = Some th → threads s !! th = Some t →
       ∃ s0 s',
         static_double_list.clear h s = Ok (tt, s0)
         ∧ is_list (links_of s0) h []
         ∧ ready_threads_list.link h node s0 = Ok (tt, s')
         ∧ ready_threads_list.link h node s = Ok (tt, s')
         ∧ is_list (links_of s') h [node]
         ∧ links_of s' !! h = Some (Links (Some node) (Some node)))
  ∧ (∃ s',
       static_double_list.empty 1 scenario_S6 = Ok (true, scenario_S6)
       ∧ top_threads_list.link 1 21 scenario_S6 = Ok (tt, s')
       ∧ members s' 1 = [31]
       ∧ links_of s' !! 1 = Some (Links (Some 31) (Some 31))).
Proof.
  split; [|split; [|split; [|split]]].
  - intros s h (Hv & _ & Hn)%detached_inv. by apply empty_zero_header.
  - intros s h th t Hh Ht Hne Hd.
    destruct (promote_zero_header s h Hh) as (s0 & Hc & Hl & Hs & Hf & Hk).
    assert (detached (links_of s0) (child_links_ t)) as Hd0.
    { unfold detached. by rewrite Hf. }
    assert (child_links_ t ∉ [h]) as Hn by set_solver.
    destruct (insert_at_tail s0 h [] (child_links_ t) Hl Hn Hd0) as [Hi Hl'].
    cbn in Hi, Hl'. eexists s0, _. do 2 (split; [done|]). split; [exact Hi|].
    split; [|split; [done|by apply header_fields]].
    assert (threads s0 = threads s) as Hts by (by rewrite Hs).
    unfold top_threads_list.link. rewrite Hk.
    unfold thread.get.
    rewrite (step_deref threads th t) by (by rewrite Hts).
    unfold static_double_list.tail.
    rewrite step_get_prev by (eapply is_list_valid; [done|set_solver]).
    rewrite (is_list_tail _ _ _ Hl). exact Hi.
  - intros s h node Hh Hne Hd.
    destruct (promote_zero_header s h Hh) as (s0 & Hc & Hl & Hs & Hf & Hk).
    assert (detached (links_of s0) node) as Hd0.
    { unfold detached. by rewrite Hf. }
    assert (node ∉ [h]) as Hn by set_solver.
    destruct (insert_at_tail s0 h [] node Hl Hn Hd0) as [Hi Hl'].
    cbn in Hi, Hl'. eexists s0, _. do 2 (split; [done|]). split; [exact Hi|].
    split; [|split; [done|by apply header_fields]].
    unfold terminated_threads_list.link. rewrite Hk.
    unfold static_double_list.tail.
    rewrite step_get_prev by (eapply is_list_valid; [done|set_solver]).
    rewrite (is_list_tail _ _ _ Hl). exact Hi.
  - intros s h node th t Hh Hne Hd Hth Ht.
    destruct (promote_zero_header s h Hh) as (s0 & Hc & Hl & Hs & Hf & Hk).
    assert (detached (links_of s0) node) as Hd0.
    { unfold detached. by rewrite Hf. }
    assert (node ∉ [h]) as Hn by set_solver.
    destruct (ready_link_once s0 h [] node th t (λ _, prio_ t))
      as (m' & l1 & l2 & Hr & [E _] & Hl'); [done..| | | |].
    { by rewrite Hs. }
    { by rewrite Hs. }
    { intros x ->%list_elem_of_singleton. unfold wprio. rewrite Hs. cbn.
      rewrite Hth. cbn. by rewrite Ht. }
    symmetry in E. apply app_eq_nil in E as [-> ->]. cbn in Hl'.
    eexists s0, _. do 2 (split; [done|]). split; [exact Hr|].
    split; [|split; [done|by apply header_fields]].
    rewrite <-Hr. rewrite !ready_link_generic. rewrite Hk.
    by rewrite (step_skip_clear _ _ _ _ Hl).
  - eexists. split; [vm_compute; reflexivity|].
    split; [vm_compute; reflexivity|]. split; vm_compute; reflexivity.
Qed.

(** ** Linking a node that is already on a list *)

Lemma insert_after_linked s node after p :
  prv (links_of s) node = Some p →
  static_double_list.insert_after node after s = Fault (assertion_failed 123).
Proof.
  intros Hp. unfold static_double_list.insert_after.
  rewrite !bind_assoc. rewrite step_get_prev by valid_tac. by rewrite Hp.
Qed.

Lemma children_link_linked s h th t p :
  threads s !! th = Some t → valid (links_of s) h →
  prv (links_of s) (child_links_ t) = Some p →
  thread_children_list.link h th s = Fault (assertion_failed 123).
Proof.
  intros Ht Hv Hp. unfold thread_children_list.link, thread.get.
  rewrite (step_deref threads th t) by done.
  unfold static_double_list.tail. rewrite step_get_prev by done.
  by eapply insert_after_linked.
Qed.

Lemma top_link_linked s h th t p :
  threads s !! th = Some t → valid (links_of s) h →
  prv (links_of s) (child_links_ t) = Some p →
  top_threads_list.link h th s = Fault (assertion_failed 123).
Proof.
  intros Ht Hv Hp. unfold top_threads_list.link.
  rewrite bind_assoc, step_get_prev by done.
  destruct (prv (links_of s) h) as [q|] eqn:Hq; cbn [is_null when].
  - rewrite step_ret. by eapply children_link_linked.
  - assert (child_links_ t ≠ h) by congruence.
    unfold static_double_list.clear. rewrite bind_assoc. step. step.
    eapply children_link_linked; [done|valid_tac|]. cbn.
    rewrite prv_upd_prev by valid_tac. rewrite decide_False by done.
    by rewrite prv_upd_next.
Qed.

(** C9. [top_threads_list::link] and [thread_children_list::link] insert
    the same node, [thread.child_links_], at the tail: on a list whose
    header is self-linked they are the same computation.  While that
    node is on a hierarchy list both of its pointers are present, and
    either [link], on any list, stops at the assertion
    [node.prev == nullptr] of [insert_after] (line 123), so the thread is
    never on two hierarchy lists. *)
Theorem hierarchy_link_of_linked_thread_fails :
  (∀ s h l th,
     is_list (links_of s) h l →
     top_threads_list.link h th s = thread_children_list.link h th s)
  ∧ (∀ s h1 l h2 th t,
       threads s !! th = Some t →
       is_list (links_of s) h1 l → child_links_ t ∈ l →
       valid (links_of s) h2 →
       prv (links_of s) (child_links_ t) ≠ None
       ∧ nxt (links_of s) (child_links_ t) ≠ None
       ∧ top_threads_list.link h2 th s = Fault (assertion_failed 123)
       ∧ thread_children_list.link h2 th s = Fault (assertion_failed 123))
  ∧ (∀ s h1 l h2 th t,
       threads s !! th = Some t →
       is_list (links_of s) h1 l →
       child_links_ t ∉ h1 :: l → detached (links_of s) (child_links_ t) →
       valid (links_of s) h2 →
       (∃ s1,
          top_threads_list.link h1 th s = Ok (tt, s1)
          ∧ is_list (links_of s1) h1 (l ++ [child_links_ t])
          ∧ thread_children_list.link h2 th s1 = Fault (assertion_failed 123))
       ∧ (∃ s1,
            thread_children_list.link h1 th s = Ok (tt, s1)
            ∧ is_list (links_of s1) h1 (l ++ [child_links_ t])
            ∧ top_threads_list.link h2 th s1 = Fault (assertion_failed 123))).
Proof.
  assert (∀ s h1 l h2 th t,
    threads s !! th = Some t →
    is_list (links_of s) h1 l → child_links_ t ∈ l →
    valid (links_of s) h2 →
    prv (links_of s) (child_links_ t) ≠ None
    ∧ nxt (links_of s) (child_links_ t) ≠ None
    ∧ top_threads_list.link h2 th s = Fault (assertion_failed 123)
    ∧ thread_children_list.link h2 th s = Fault (assertion_failed 123)) as Hlinked.
  { intros s h1 l h2 th t Ht Hl Hin Hv.
    destruct (is_list_neighbours _ h1 l (child_links_ t) Hl) as (n & p & Hn & _ & Hp & _);
      [set_solver|].
    split; [congruence|]. split; [congruence|].
    split; [by eapply top_link_linked|by eapply children_link_linked]. }
  split; [|split; [exact Hlinked|]].
  - intros s h l th Hl. unfold top_threads_list.link.
    by rewrite (step_skip_clear _ _ _ _ Hl).
  - intros s h1 l h2 th t Ht Hl Hn Hd Hv. split.
    + destruct (top_link_ok s h1 l th t) as (s1 & Hr & Hl1 & Hs1); [done..|].
      exists s1. do 2 (split; [done|]).
      eapply (Hlinked s1 h1 (l ++ [child_links_ t]) h2 th t); [by rewrite Hs1|done|set_solver|].
      rewrite Hs1 in Hr. unfold top_threads_list.link in Hr.
      destruct (insert_at_tail s h1 l (child_links_ t)) as [Hi _]; [done..|].
      rewrite (step_skip_clear _ _ _ _ Hl) in Hr.
      destruct (children_link_ok s h1 l th t) as (s2 & Hr2 & _ & Hs2); [done..|].
      unfold thread_children_list.link, thread.get, static_double_list.tail in Hr2.
      rewrite (step_deref threads th t) in Hr2 by done.
      rewrite step_get_prev in Hr2 by (eapply is_list_valid; [done|set_solver]).
      rewrite (is_list_tail _ _ _ Hl), Hi in Hr2. injection Hr2 as <-.
      unfold thread.get, static_double_list.tail in Hr.
      rewrite (step_deref threads th t) in Hr by done.
      rewrite step_get_prev in Hr by (eapply is_list_valid; [done|set_solver]).
      rewrite (is_list_tail _ _ _ Hl), Hi in Hr. injection Hr as Hr.
      rewrite <-Hr. cbn. by apply valid_after_insert.
    + destruct (children_link_ok s h1 l th t) as (s1 & Hr & Hl1 & Hs1); [done..|].
      exists s1. do 2 (split; [done|]).
      eapply (Hlinked s1 h1 (l ++ [child_links_ t]) h2 th t); [by rewrite Hs1|done|set_solver|].
      destruct (insert_at_tail s h1 l (child_links_ t)) as [Hi _]; [done..|].
      unfold thread_children_list.link, thread.get, static_double_list.tail in Hr.
      rewrite (step_deref threads th t) in Hr by done.
      rewrite step_get_prev in Hr by (eapply is_list_valid; [done|set_solver]).
      rewrite (is_list_tail _ _ _ Hl), Hi in Hr. injection Hr as <-.
      cbn. by apply valid_after_insert.
Qed.

(** ** The wait list and the zero header *)

Lemma sched_prio_at_header s h :
  thread_ s !! h = None →
  waiting_threads_list.sched_prio_at (Some h) s = Fault wild_pointer.
Proof.
  intros H. unfold waiting_threads_list.sched_prio_at, get_thread_, bind, deref.
  by rewrite H.
Qed.

Lemma waiting_link_zero_header s h node k :
  detached (links_of s) h → detached (links_of s) node →
  wprio s node = Some k →
  waiting_threads_list.link h node s = Fault null_dereference.
Proof.
  intros (Hvh & Hph & Hnh)%detached_inv (Hvn & Hpn & Hnn)%detached_inv Hk.
  unfold waiting_threads_list.link.
  rewrite (bind_ok _ _ _ _ _ (sched_prio_at_wprio _ _ _ Hk)).
  unfold static_double_list.tail. rewrite step_get_prev by done. rewrite Hph.
  rewrite bind_assoc.
  rewrite (bind_ok _ _ _ _ _ (empty_zero_header _ _ Hvh Hnh)).
  rewrite step_ret. unfold static_double_list.insert_after.
  rewrite !bind_assoc. step. rewrite Hpn. step. step. rewrite Hnn. step.
  done.
Qed.

(** C10. [waiting_threads_list::link] has no zero-header check.  When
    the header is self-linked, that is, the wait list is a list, every
    read in [link] is of a present pointer to an object of the right
    class and the call returns; on an empty list the header is not asked
    for a priority, which it does not have; and [ready_threads_list::link]
    on such a list skips its [clear ()] and is the same insertion followed
    by the state change.  On a zero header the wait list's [link]
    dereferences the null [tail ()]. *)
Theorem waiting_link_requires_self_linked_header :
  (∀ s h l node (prio : ptr → Z),
     is_list (links_of s) h l → node ∉ h :: l →
     detached (links_of s) node →
     (∀ x, x ∈ node :: l → wprio s x = Some (prio x)) →
     ∃ s' l',
       waiting_threads_list.link h node s = Ok (tt, s')
       ∧ is_list (links_of s') h l')
  ∧ (∀ s h node k,
       is_list (links_of s) h [] → thread_ s !! h = None →
       node ≠ h → detached (links_of s) node → wprio s node = Some k →
       waiting_threads_list.sched_prio_at (Some h) s = Fault wild_pointer
       ∧ ∃ s',
           waiting_threads_list.link h node s = Ok (tt, s')
           ∧ is_list (links_of s') h [node])
  ∧ (∀ s h l node,
       is_list (links_of s) h l →
       ready_threads_list.link h node s
       = (waiting_threads_list.link h node;;
          let* th := get_thread_ (Some node) in
          thread.set_sched_state_ th ready) s)
  ∧ (∀ s h node k,
       detached (links_of s) h → detached (links_of s) node →
       wprio s node = Some k →
       waiting_threads_list.link h node s = Fault null_dereference).
Proof.
  split; [|split; [|split]].
  - intros s h l node prio Hl Hn Hd Hk.
    destruct (waiting_link_once s h l node prio) as (s' & l1 & l2 & Hr & _ & Hl' & _);
      [done..|].
    by exists s', (l1 ++ node :: l2).
  - intros s h node k Hl Hh Hne Hd Hk. split; [by apply sched_prio_at_header|].
    destruct (waiting_link_once s h [] node (λ _, k))
      as (s' & l1 & l2 & Hr & [E _] & Hl' & _); [done|set_solver|done| |].
    { by intros x ->%list_elem_of_singleton. }
    symmetry in E. apply app_eq_nil in E as [-> ->]. by exists s'.
  - intros s h l node Hl. rewrite ready_link_generic.
    rewrite (step_skip_clear _ _ _ _ Hl).
    apply bind_ext_l. symmetry. apply waiting_link_generic.
  - intros. by eapply waiting_link_zero_header.
Qed.

(** ** The clock list *)

Lemma get_timestamp_tstamp s x k :
  tstamp s x = Some k → get_timestamp (Some x) s = Ok (k, s).
Proof.
  unfold tstamp, get_timestamp, bind, deref, ret.
  destruct (ts_nodes s !! x) as [n|]; cbn; congruence.
Qed.

Lemma ltb_id a b : (a <? b) = (id a <? id b).
Proof. done. Qed.

Lemma StronglySorted_filter {A} (R : relation A) (P : A → Prop)
    `{∀ x, Decision (P x)} l :
  StronglySorted R l → StronglySorted R (filter P l).
Proof.
  induction 1 as [|x l _ IH Hx]; [constructor|].
  rewrite filter_cons. case_decide; [|done].
  constructor; [done|]. rewrite Forall_forall in *.
  intros y [_ Hy]%list_elem_of_filter. by apply Hx.
Qed.

Lemma filter_all {A} (P : A → Prop) `{∀ x, Decision (P x)} l :
  Forall P l → filter P l = l.
Proof.
  induction 1 as [|x l Hx _ IH]; [done|]. by rewrite filter_cons_True, IH.
Qed.

Lemma filter_none {A} (P : A → Prop) `{∀ x, Decision (P x)} l :
  Forall (λ x, ¬ P x) l → filter P l = [].
Proof.
  induction 1 as [|x l Hx _ IH]; [done|]. by rewrite filter_cons_False.
Qed.

Lemma clock_link_for_each s h l0 ns (key : ptr → Z) :
  is_list (links_of s) h l0 →
  StronglySorted (λ x y, key x ≤ key y) l0 →
  NoDup ns →
  (∀ n, n ∈ ns → (n ∉ h :: l0) ∧ detached (links_of s) n) →
  (∀ x, x ∈ l0 ++ ns → tstamp s x = Some (key x)) →
  ∃ s' l,
    for_each (clock_timestamps_list.link h) ns s = Ok (tt, s')
    ∧ is_list (links_of s') h l
    ∧ StronglySorted (λ x y, key x ≤ key y) l
    ∧ (∀ j, band key j l = band key j (l0 ++ ns))
    ∧ l ≡ₚ l0 ++ ns
    ∧ s' = set_links (links_of s') s.
Proof.
  intros Hl Hs Hnd Hfresh Hk.
  destruct (link_generic_for_each get_timestamp Z.ltb id ltb_id key h ns s l0)
    as (m' & l & Hr & Hl' & Hs' & Hb & Hperm & _).
  - done.
  - done.
  - done.
  - intros n Hn. by apply Hfresh.
  - intros n Hn. by apply Hfresh.
  - intros x m Hx. apply get_timestamp_tstamp. by apply Hk.
  - exists (set_links m' s), l.
    rewrite (for_each_ext _ (link_generic get_timestamp Z.ltb h))
      by (intros; apply clock_link_generic).
    done.
Qed.

Lemma timeout_action_head s h x l ts th t :
  is_list (links_of s) h (x :: l) →
  ts_nodes s !! x = Some (TimestampNode ts (timeout_thread_node th)) →
  threads s !! th = Some t →
  action x s
  = Ok (tt, State (after_unlink (links_of s) x h (hd h l)) (thread_ s)
                  (ts_nodes s) (threads s) (timers s)
                  (trace s ++ match sched_state_ t with
                              | destroyed => []
                              | _ => [ev_resume th]
                              end)).
Proof.
  intros Hl Hx Ht. unfold action.
  rewrite (step_deref ts_nodes x _ _ _ Hx). cbn [variant].
  unfold timeout_thread_node.action.
  destruct (unlink_head_node s h x l Hl) as (Hu & _ & _).
  rewrite (bind_ok _ _ _ _ _ Hu).
  unfold thread.sched_state, thread.get. rewrite bind_assoc.
  rewrite (step_deref threads th t) by done. rewrite step_ret.
  destruct (sched_state_ t) eqn:Est; cbn [negb state_eqb when];
    unfold thread.resume, thread.get, ret;
    rewrite ?(step_deref threads th t) by done;
    unfold log; cbn; by rewrite ?app_nil_r.
Qed.

Lemma fired_snoc_action tr x ts tl :
  fired tl = [] →
  fired ((tr ++ [ev_action x ts]) ++ tl) = fired tr ++ [(x, ts)].
Proof.
  intros Htl. unfold fired in *. rewrite !omap_app, Htl. cbn.
  by rewrite app_nil_r.
Qed.

Lemma single_shot_action_head s h x l ts tm nd cl :
  is_list (links_of s) h (x :: l) →
  ts_nodes s !! x = Some (TimestampNode ts (timer_node tm)) →
  timers s !! tm = Some (Timer None nd cl) →
  action x s
  = Ok (tt, State (after_unlink (links_of s) x h (hd h l)) (thread_ s)
                  (ts_nodes s) (threads s) (timers s)
                  (trace s ++ [ev_timer tm])).
Proof.
  intros Hl Hx Ht. unfold action.
  rewrite (step_deref ts_nodes x _ _ _ Hx). cbn [variant].
  unfold timer_node.action.
  destruct (unlink_head_node s h x l Hl) as (Hu & _ & _).
  rewrite (bind_ok _ _ _ _ _ Hu).
  unfold timer._interrupt_service_routine.
  by rewrite (step_deref timers tm (Timer None nd cl)) by done.
Qed.

Lemma expires_once_action s h x l ts :
  is_list (links_of s) h (x :: l) → expires_once s x ts →
  tstamp s x = Some ts
  ∧ ∃ tl, fired tl = []
    ∧ action x s
      = Ok (tt, State (after_unlink (links_of s) x h (hd h l)) (thread_ s)
                      (ts_nodes s) (threads s) (timers s) (trace s ++ tl)).
Proof.
  intros Hl [(th & t & Hx & Ht)|(tm & nd & cl & Hx & Ht)].
  - split; [unfold tstamp; by rewrite Hx|]. eexists. split; [|by eapply timeout_action_head].
    by destruct (sched_state_ t).
  - split; [unfold tstamp; by rewrite Hx|]. eexists. split; [|by eapply single_shot_action_head].
    done.
Qed.

Section expiry.
Variables (h : ptr) (now : Z) (key : ptr → Z).

Lemma check_timestamp_loop_expiry l : ∀ s fuel,
  is_list (links_of s) h l →
  StronglySorted (λ x y, key x ≤ key y) l →
  (∀ x, x ∈ l → expires_once s x (key x)) → (length l < fuel)%nat →
  ∃ s',
    check_timestamp_loop fuel h now s = Ok (tt, s')
    ∧ is_list (links_of s') h (filter (λ x, now < key x) l)
    ∧ fired (trace s')
      = fired (trace s) ++ ((λ x, (x, key x)) <$> filter (λ x, key x ≤ now) l).
Proof.
  induction l as [|x l IH]; intros s fuel Hl Hs Ht Hf.
  { destruct fuel as [|fuel]; [cbn in Hf; lia|]. exists s. cbn.
    rewrite (bind_ok _ _ _ _ _ (empty_is_list _ _ _ Hl)).
    rewrite app_nil_r. done. }
  destruct fuel as [|fuel]; [cbn in Hf; lia|]. cbn [check_timestamp_loop].
  rewrite (bind_ok _ _ _ _ _ (empty_is_list _ _ _ Hl)).
  rewrite bool_decide_eq_false_2 by done.
  unfold static_double_list.head.
  rewrite step_get_next by (eapply is_list_valid; [done|set_solver]).
  rewrite (is_list_head _ _ _ Hl). cbn [hd].
  assert (expires_once s x (key x)) as Hx by (apply Ht; set_solver).
  destruct (expires_once_action s h x l (key x) Hl Hx) as (Hkx & _).
  rewrite (bind_ok _ _ _ _ _ (get_timestamp_tstamp _ _ _ Hkx)).
  apply StronglySorted_cons in Hs as [Hall Hs].
  destruct (Z.geb_spec now (key x)) as [Hge|Hlt].
  - rewrite step_get_next by (eapply is_list_valid; [done|set_solver]).
    rewrite (is_list_head _ _ _ Hl). cbn [hd].
    unfold bind at 1, log at 1.
    set (s0 := State (links_of s) (thread_ s) (ts_nodes s) (threads s)
                     (timers s) (trace s ++ [ev_action x (key x)])).
    destruct (expires_once_action s0 h x l (key x) Hl Hx) as (_ & tl & Htl & Hact).
    rewrite (bind_ok _ _ _ _ _ Hact).
    destruct (unlink_head_node s h x l Hl) as (_ & Hl' & Hd).
    match goal with
    | |- context [check_timestamp_loop fuel h now ?s1] =>
        destruct (IH s1 fuel) as (s' & Hr & Hl'' & Hfired);
          [exact Hl'|done| |cbn in Hf; lia|]
    end.
    { intros y Hy. apply Ht. set_solver. }
    exists s'. split; [exact Hr|].
    rewrite filter_cons_False by lia. rewrite filter_cons_True by lia.
    split; [done|].
    rewrite Hfired. cbn [trace s0]. rewrite fired_snoc_action by done.
    by rewrite <-app_assoc.
  - exists s. rewrite filter_all, filter_none.
    + rewrite app_nil_r. done.
    + apply Forall_cons. split; [lia|].
      eapply Forall_impl; [done|]. cbn. intros; lia.
    + apply Forall_cons. split; [lia|].
      eapply Forall_impl; [done|]. cbn. intros; lia.
Qed.

End expiry.

Lemma check_timestamp_is_list s h l fuel now :
  is_list (links_of s) h l →
  check_timestamp fuel h now s = check_timestamp_loop fuel h now s.
Proof.
  intros Hl. unfold check_timestamp.
  rewrite step_get_next by (eapply is_list_valid; [done|set_solver]).
  by rewrite (is_list_head _ _ _ Hl).
Qed.

Lemma check_timestamp_expiry s h l (key : ptr → Z) now fuel :
  is_list (links_of s) h l →
  StronglySorted (λ x y, key x ≤ key y) l →
  (∀ x, x ∈ l → expires_once s x (key x)) →
  (length l < fuel)%nat →
  ∃ s',
    check_timestamp fuel h now s = Ok (tt, s')
    ∧ fired (trace s')
      = fired (trace s) ++ ((λ x, (x, key x)) <$> filter (λ x, key x ≤ now) l)
    ∧ is_list (links_of s') h (filter (λ x, now < key x) l).
Proof.
  intros Hl Hs Ht Hf.
  destruct (check_timestamp_loop_expiry h now key l s fuel)
    as (s' & Hr & Hl' & Hfired); [done..|].
  exists s'. by rewrite (check_timestamp_is_list _ _ _ _ _ Hl).
Qed.

Lemma band_filter_le (key : ptr → Z) now j l :
  band key j (filter (λ x, key x ≤ now) l)
  = if decide (j ≤ now) then band key j l else [].
Proof.
  unfold band. rewrite list_filter_filter. case_decide.
  - apply list_filter_iff. intros x. split; [tauto|]. intros ->. done.
  - apply filter_none. apply Forall_forall. intros x _ [-> ?]. done.
Qed.

(** C3. On a clock list in time stamp order whose nodes are timeout
    nodes or nodes of single-shot timers, [check_timestamp (now)], given
    fuel for each node, calls
    [action ()] on the nodes with time stamp [<= now], in list order, and
    on no other, and leaves the nodes with a later time stamp on the
    list, in order.  For a list built by [link] calls that is: exactly
    the linked nodes with time stamp [<= now] fire, in nondecreasing time
    stamp order and, within one time stamp, in the order they were linked.
    With time stamps 100, 50, 75, 50 linked in that order,
    [check_timestamp (60)] fires the two nodes at 50, first linked first,
    and [check_timestamp (200)] then fires 75 and then 100. *)
Theorem check_timestamp_fires_expired_prefix :
  (∀ s h l (key : ptr → Z) now fuel,
     is_list (links_of s) h l →
     StronglySorted (λ x y, key x ≤ key y) l →
     (∀ x, x ∈ l → expires_once s x (key x)) →
     (length l < fuel)%nat →
     ∃ s',
       check_timestamp fuel h now s = Ok (tt, s')
       ∧ fired (trace s')
         = fired (trace s) ++ ((λ x, (x, key x)) <$> filter (λ x, key x ≤ now) l)
       ∧ is_list (links_of s') h (filter (λ x, now < key x) l))
  ∧ (∀ s h ns (key : ptr → Z) now fuel,
       is_list (links_of s) h [] → NoDup ns →
       (∀ n, n ∈ ns → n ≠ h ∧ detached (links_of s) n) →
       (∀ x, x ∈ ns → expires_once s x (key x)) →
       (length ns < fuel)%nat →
       ∃ s1 s2 F rest,
         for_each (clock_timestamps_list.link h) ns s = Ok (tt, s1)
         ∧ check_timestamp fuel h now s1 = Ok (tt, s2)
         ∧ fired (trace s2) = fired (trace s) ++ ((λ x, (x, key x)) <$> F)
         ∧ is_list (links_of s2) h rest
         ∧ (∀ x, x ∈ F ↔ x ∈ ns ∧ key x ≤ now)
         ∧ (∀ x, x ∈ rest ↔ x ∈ ns ∧ now < key x)
         ∧ StronglySorted (λ x y, key x ≤ key y) F
         ∧ (∀ j, band key j F = if decide (j ≤ now) then band key j ns else [])
         ∧ StronglySorted (λ x y, key x ≤ key y) rest)
  ∧ (∃ s0 s1 s2,
       for_each (clock_timestamps_list.link 1) [11; 12; 13; 14] scenario_S3
       = Ok (tt, s0)
       ∧ members s0 1 = [12; 14; 13; 11]
       ∧ check_timestamp 5 1 60 s0 = Ok (tt, s1)
       ∧ fired (trace s1) = [(12, 50); (14, 50)]
       ∧ members s1 1 = [13; 11]
       ∧ check_timestamp 5 1 200 s1 = Ok (tt, s2)
       ∧ fired (trace s2) = [(12, 50); (14, 50); (13, 75); (11, 100)]
       ∧ members s2 1 = []).
Proof.
  split; [|split].
  - intros. by apply check_timestamp_expiry.
  - intros s h ns key now fuel Hl Hnd Hfresh Ht Hf.
    destruct (clock_link_for_each s h [] ns key)
      as (s1 & l & Hr & Hl1 & Hs1 & Hb & Hperm & Hst); [done|constructor|done| | |].
    { intros n Hn. destruct (Hfresh n Hn). split; [set_solver|done]. }
    { intros x Hx.
      destruct (Ht x Hx) as [(th & t & Hx' & _)|(tm & nd & cl & Hx' & _)];
        unfold tstamp; by rewrite Hx'. }
    cbn [app] in Hb, Hperm.
    destruct (check_timestamp_expiry s1 h l key now fuel)
      as (s2 & Hr2 & Hfired & Hl2); [done|done| | |].
    { intros x Hx. rewrite Hst. cbn. apply Ht. by rewrite <-Hperm. }
    { by rewrite Hperm. }
    exists s1, s2, (filter (λ x, key x ≤ now) l), (filter (λ x, now < key x) l).
    split; [done|]. split; [done|].
    split; [rewrite Hfired, Hst; done|]. split; [done|].
    split; [intros x; rewrite list_elem_of_filter, Hperm; tauto|].
    split; [intros x; rewrite list_elem_of_filter, Hperm; tauto|].
    split; [by apply StronglySorted_filter|].
    split; [|by apply StronglySorted_filter].
    intros j. rewrite band_filter_le. case_decide; [apply Hb|done].
  - do 3 eexists.
    split; [vm_compute; reflexivity|].
    split; [vm_compute; reflexivity|].
    split; [vm_compute; reflexivity|].
    split; [vm_compute; reflexivity|].
    split; [vm_compute; reflexivity|].
    split; [vm_compute; reflexivity|].
    split; vm_compute; reflexivity.
Qed.

(** ** A periodic timer on the clock list *)

Section periodic.
Variables (h n tm : ptr) (p : Z).

Lemma timer_action_rearms s t0 :
  armed h n tm p s t0 →
  ∃ s',
    action n s = Ok (tt, s')
    ∧ armed h n tm p s' (uint64_wrap (t0 + p))
    ∧ trace s' = trace s ++ [ev_timer tm].
Proof.
  intros (Hl & Hn & Htm). unfold action.
  rewrite (step_deref ts_nodes n _ _ _ Hn). cbn [variant].
  unfold timer_node.action.
  destruct (unlink_head_node s h n [] Hl) as (Hu & Hl1 & Hd1).
  rewrite (bind_ok _ _ _ _ _ Hu). cbn [hd] in *.
  unfold timer._interrupt_service_routine.
  rewrite (step_deref timers tm (Timer (Some p) n h)) by done.
  unfold bind at 1, log at 1. cbn [period timer_node_ clock_list].
  rewrite (step_deref ts_nodes n (TimestampNode t0 (timer_node tm))) by done.
  unfold bind at 1. cbn [timestamp variant].
  match goal with
  | |- context [clock_timestamps_list.link h n ?st] => set (s3 := st)
  end.
  destruct (link_generic_spec get_timestamp Z.ltb (λ _, uint64_wrap (t0 + p)) s3 h [] n)
    as (l1 & l2 & [E _] & Hr).
  - exact Hl1.
  - destruct Hl as [Hnd _]. apply NoDup_cons in Hnd as [? _]. set_solver.
  - exact Hd1.
  - intros x ->%list_elem_of_singleton. apply get_timestamp_tstamp.
    unfold tstamp, s3. cbn. by rewrite lookup_insert_eq.
  - symmetry in E. apply app_eq_nil in E as [-> ->].
    eexists. rewrite clock_link_generic. split; [exact Hr|].
    cbn. split; [|done]. split; [|split].
    + apply (is_list_insert _ h [] [] n); [exact Hl1| |].
      * destruct Hl as [Hnd _]. apply NoDup_cons in Hnd as [? _]. set_solver.
      * by apply detached_inv in Hd1 as [? _].
    + unfold s3. cbn. by rewrite lookup_insert_eq.
    + done.
Qed.

Lemma check_timestamp_loop_periodic now (k : nat) : ∀ s t0 fuel,
  armed h n tm p s t0 → 0 < p → 0 ≤ t0 →
  t0 + Z.of_nat k * p < 2 ^ 64 →
  (∀ i, 0 ≤ i < Z.of_nat k → t0 + i * p ≤ now) →
  now < t0 + Z.of_nat k * p →
  (k < fuel)%nat →
  ∃ s',
    check_timestamp_loop fuel h now s = Ok (tt, s')
    ∧ armed h n tm p s' (t0 + Z.of_nat k * p)
    ∧ fired (trace s')
      = fired (trace s) ++ ((λ i, (n, t0 + Z.of_nat i * p)) <$> seq 0 k).
Proof.
  induction k as [|k IH]; intros s t0 fuel Ha Hp Ht0 Hmax Hdue Hnow Hf;
    (destruct fuel as [|fuel]; [lia|]); cbn [check_timestamp_loop];
    pose proof Ha as (Hl & Hn & Htm);
    rewrite (bind_ok _ _ _ _ _ (empty_is_list _ _ _ Hl));
    rewrite bool_decide_eq_false_2 by done;
    unfold static_double_list.head;
    rewrite step_get_next by (eapply is_list_valid; [done|set_solver]);
    rewrite (is_list_head _ _ _ Hl); cbn [hd];
    (assert (tstamp s n = Some t0) as Hk by (unfold tstamp; by rewrite Hn));
    rewrite (bind_ok _ _ _ _ _ (get_timestamp_tstamp _ _ _ Hk)).
  - destruct (Z.geb_spec now t0); [lia|].
    exists s. split; [done|]. rewrite app_nil_r.
    split; [|done]. by replace (t0 + Z.of_nat 0 * p) with t0 by lia.
  - assert (t0 ≤ now) by (specialize (Hdue 0); lia).
    destruct (Z.geb_spec now t0); [|lia].
    rewrite step_get_next by (eapply is_list_valid; [done|set_solver]).
    rewrite (is_list_head _ _ _ Hl). cbn [hd].
    unfold bind at 1, log at 1.
    match goal with
    | |- context [bind (action n) _ ?s0] =>
        destruct (timer_action_rearms s0 t0) as (s1 & Hact & Ha1 & Htr1); [done|]
    end.
    rewrite (bind_ok _ _ _ _ _ Hact).
    assert (uint64_wrap (t0 + p) = t0 + p) as Hw.
    { unfold uint64_wrap. apply Z.mod_small. nia. }
    rewrite Hw in Ha1.
    destruct (IH s1 (t0 + p) fuel) as (s' & Hr & Ha' & Hfired);
      [done|lia|lia|lia| |lia|lia|].
    { intros i Hi. specialize (Hdue (i + 1)). nia. }
    exists s'. split; [exact Hr|]. split.
    { by replace (t0 + Z.of_nat (S k) * p) with (t0 + p + Z.of_nat k * p) by lia. }
    rewrite Hfired, Htr1. cbn [trace].
    rewrite fired_snoc_action by done.
    rewrite <-app_assoc. f_equal.
    cbn [seq fmap list_fmap app]. f_equal; [f_equal; lia|].
    rewrite <-seq_shift, <-list_fmap_compose.
    apply list_fmap_ext. intros _ i _. cbn. f_equal. lia.
Qed.

End periodic.

Lemma check_timestamp_loop_step fuel h now s hd ts s1 :
  static_double_list.empty h s = Ok (false, s) →
  static_double_list.head h s = Ok (Some hd, s) →
  get_timestamp (Some hd) s = Ok (ts, s) → ts ≤ now →
  (log (ev_action hd ts);; action hd) s = Ok (tt, s1) →
  check_timestamp_loop (S fuel) h now s = check_timestamp_loop fuel h now s1.
Proof.
  intros He Hh Hts Hle Hact. cbn [check_timestamp_loop].
  rewrite (bind_ok _ _ _ _ _ He), (bind_ok _ _ _ _ _ Hh), (bind_ok _ _ _ _ _ Hts).
  destruct (Z.geb_spec now ts); [|lia].
  rewrite (bind_ok _ _ _ _ _ Hh). rewrite <-bind_assoc.
  by rewrite (bind_ok _ _ _ _ _ Hact).
Qed.

(** C4. After an [action ()] has returned, [check_timestamp] decides
    again from the list as the action left it.  So with the node of a
    periodic timer of period [p] alone on the list at time stamp [t0],
    the action unlinking the node and linking it again one period later,
    one call [check_timestamp (now)] fires the node at [t0], [t0 + p], ...
    for every such time stamp up to [now] and leaves it on the list at
    the first one after [now]; the node at 100 with period 50 is fired by
    [check_timestamp (250)] at 100, 150, 200 and 250 and is left at
    300. *)
Theorem check_timestamp_refires_periodic_timer :
  (∀ fuel h now s hd ts s1,
     static_double_list.empty h s = Ok (false, s) →
     static_double_list.head h s = Ok (Some hd, s) →
     get_timestamp (Some hd) s = Ok (ts, s) → ts ≤ now →
     (log (ev_action hd ts);; action hd) s = Ok (tt, s1) →
     check_timestamp_loop (S fuel) h now s = check_timestamp_loop fuel h now s1)
  ∧ (∀ s h n tm p t0 now (k fuel : nat),
       is_list (links_of s) h [n] →
       ts_nodes s !! n = Some (TimestampNode t0 (timer_node tm)) →
       timers s !! tm = Some (Timer (Some p) n h) →
       0 < p → 0 ≤ t0 → t0 + Z.of_nat k * p < 2 ^ 64 →
       (∀ i, 0 ≤ i < Z.of_nat k → t0 + i * p ≤ now) →
       now < t0 + Z.of_nat k * p →
       (k < fuel)%nat →
       ∃ s',
         check_timestamp fuel h now s = Ok (tt, s')
         ∧ fired (trace s')
           = fired (trace s) ++ ((λ i, (n, t0 + Z.of_nat i * p)) <$> seq 0 k)
         ∧ is_list (links_of s') h [n]
         ∧ tstamp s' n = Some (t0 + Z.of_nat k * p))
  ∧ (∃ s0 s1,
       clock_timestamps_list.link 1 11 scenario_S4 = Ok (tt, s0)
       ∧ members s0 1 = [11]
       ∧ check_timestamp 5 1 250 s0 = Ok (tt, s1)
       ∧ fired (trace s1) = [(11, 100); (11, 150); (11, 200); (11, 250)]
       ∧ members s1 1 = [11]
       ∧ tstamp s1 11 = Some 300).
Proof.
  split; [|split].
  - apply check_timestamp_loop_step.
  - intros s h n tm p t0 now k fuel Hl Hn Htm Hp Ht0 Hmax Hdue Hnow Hf.
    destruct (check_timestamp_loop_periodic h n tm p now k s t0 fuel)
      as (s' & Hr & (Hl' & Hn' & _) & Hfired); [done..|].
    exists s'. rewrite (check_timestamp_is_list _ _ _ _ _ Hl).
    split; [done|]. split; [done|]. split; [done|].
    unfold tstamp. by rewrite Hn'.
  - do 2 eexists.
    split; [vm_compute; reflexivity|].
    split; [vm_compute; reflexivity|].
    split; [vm_compute; reflexivity|].
    split; [vm_compute; reflexivity|].
    split; vm_compute; reflexivity.
Qed.

(** * Further properties *)

(** ** Sizes and allocators (os-memory.h) *)

Section align.
Import memory.

Lemma size_wrap_small w z : 0 ≤ z < 2 ^ w → size_wrap w z = z.
Proof. intros. unfold size_wrap. by apply Z.mod_small. Qed.

(** The mask [~(2^k - 1)] keeps the multiples of [2^k]. *)
Lemma land_mask w k x :
  0 ≤ k ≤ w → 0 ≤ x < 2 ^ w →
  Z.land x (size_not w (2 ^ k - 1)) = 2 ^ k * (x / 2 ^ k).
Proof.
  intros Hk Hx. unfold size_not, size_wrap.
  rewrite <-Z.land_ones by lia.
  rewrite Z.land_assoc, (Z.land_comm x), <-Z.land_assoc.
  rewrite (Z.land_ones x) by lia. rewrite (Z.mod_small x) by lia.
  rewrite Z.land_comm.
  replace (2 ^ k - 1) with (Z.ones k) by (rewrite Z.ones_equiv; lia).
  rewrite <-Z.ldiff_land.
  rewrite Z.ldiff_ones_r by lia.
  rewrite Z.shiftl_mul_pow2, Z.shiftr_div_pow2 by lia. lia.
Qed.

(** [align_size] for an alignment [2^k] that is a [size_t]. *)
Lemma align_size_pow2 w k size :
  0 ≤ k < w →
  align_size w size (2 ^ k)
  = 2 ^ k * (((size + 2 ^ k - 1) mod 2 ^ w) / 2 ^ k).
Proof.
  intros Hk. unfold align_size.
  assert (0 < 2 ^ k < 2 ^ w) by (split; [|apply Z.pow_lt_mono_r]; lia).
  rewrite (size_wrap_small w (2 ^ k - 1)) by lia.
  unfold size_wrap at 1 2. rewrite Zminus_mod_idemp_l.
  rewrite land_mask; [done|lia|]. apply Z.mod_pos_bound. lia.
Qed.

(** X1. For an alignment that is a power of two and a size that does not
    overflow when the alignment is added, [align_size] is the least
    multiple of the alignment that is at least the size. *)
Theorem align_size_rounds_up_to_multiple w k size :
  0 ≤ k < w → 0 ≤ size → size + 2 ^ k - 1 < 2 ^ w →
  (2 ^ k | align_size w size (2 ^ k))
  ∧ size ≤ align_size w size (2 ^ k) < size + 2 ^ k
  ∧ (∀ m, (2 ^ k | m) → size ≤ m → align_size w size (2 ^ k) ≤ m).
Proof.
  intros Hk Hs Hmax. rewrite align_size_pow2 by done.
  assert (0 < 2 ^ k) as Ha by (apply Z.pow_pos_nonneg; lia).
  rewrite Z.mod_small by lia.
  set (a := 2 ^ k) in *. set (q := (size + a - 1) / a).
  pose proof (Z.div_mod (size + a - 1) a ltac:(lia)) as Hdm.
  pose proof (Z.mod_pos_bound (size + a - 1) a Ha) as Hmod.
  fold q in Hdm. split; [by exists q; lia|]. split; [lia|].
  intros m [c ->] Hm. assert (q ≤ c); [|nia].
  destruct (Z.le_gt_cases q c) as [|Hgt]; [done|]. nia.
Qed.

(** X2. A size within one alignment of the top of the [size_t] range
    wraps in [size + align - 1]: [align_size] then returns 0, which is
    below the size. *)
Theorem align_size_wraps_near_top w k size :
  0 ≤ k < w → 2 ^ w - 2 ^ k < size < 2 ^ w →
  align_size w size (2 ^ k) = 0.
Proof.
  intros Hk Hs. rewrite align_size_pow2 by done.
  assert (0 < 2 ^ k) as Ha by (apply Z.pow_pos_nonneg; lia).
  replace ((size + 2 ^ k - 1) mod 2 ^ w) with (size + 2 ^ k - 1 - 2 ^ w).
  - rewrite Z.div_small by lia. lia.
  - assert (2 ^ k < 2 ^ w) by (apply Z.pow_lt_mono_r; lia).
    apply Z.mod_unique with 1; lia.
Qed.

End align.

Section allocators.
Import memory.

Lemma gtb_div elements sizeof_T res_max_size :
  0 < sizeof_T →
  (elements >? res_max_size / sizeof_T) = (elements * sizeof_T >? res_max_size).
Proof.
  intros Hs.
  pose proof (Z.div_mod res_max_size sizeof_T ltac:(lia)).
  pose proof (Z.mod_pos_bound res_max_size sizeof_T Hs).
  destruct (Z.gtb_spec elements (res_max_size / sizeof_T)),
    (Z.gtb_spec (elements * sizeof_T) res_max_size); try done; nia.
Qed.

Lemma polymorphic_allocate_cases w sizeof_T alignof_T res_max_size elements :
  0 < sizeof_T → 0 ≤ elements → 0 ≤ res_max_size < 2 ^ w →
  (res_max_size < elements * sizeof_T →
   polymorphic_synchronized_allocator.allocate w sizeof_T alignof_T res_max_size elements
   = throw_system_error EINVAL)
  ∧ (elements * sizeof_T ≤ res_max_size →
     polymorphic_synchronized_allocator.allocate w sizeof_T alignof_T res_max_size elements
     = call_allocate (elements * sizeof_T) alignof_T).
Proof.
  intros Hs He Hm.
  unfold polymorphic_synchronized_allocator.allocate,
    polymorphic_synchronized_allocator.max_size.
  rewrite gtb_div by done. split; intros H.
  - destruct (Z.gtb_spec (elements * sizeof_T) res_max_size); [done|lia].
  - destruct (Z.gtb_spec (elements * sizeof_T) res_max_size); [lia|].
    rewrite size_wrap_small; [done|nia].
Qed.

(** X3. [polymorphic_synchronized_allocator::allocate] either throws
    [EINVAL], exactly when the elements do not fit in the resource's
    [max_size ()], or asks the resource for exactly
    [elements * sizeof (T)] bytes: the product has not wrapped and is at
    most [max_size ()] of the resource. *)
Theorem polymorphic_allocate_guards_size w sizeof_T alignof_T res_max_size elements :
  0 < sizeof_T → 0 ≤ elements → 0 ≤ res_max_size < 2 ^ w →
  (res_max_size < elements * sizeof_T →
   polymorphic_synchronized_allocator.allocate w sizeof_T alignof_T res_max_size elements
   = throw_system_error EINVAL)
  ∧ (elements * sizeof_T ≤ res_max_size →
     polymorphic_synchronized_allocator.allocate w sizeof_T alignof_T res_max_size elements
     = call_allocate (elements * sizeof_T) alignof_T).
Proof. apply polymorphic_allocate_cases. Qed.

(** X4. [default_resource_allocator::allocate] has no such guard: when
    [elements * sizeof (value_type)] does not fit a [size_t] it still
    calls the resource, for a number of bytes that is short of the
    product by at least [2^w], where the polymorphic allocator throws. *)
Theorem default_allocate_wraps_unchecked w sizeof_T align res_max_size elements :
  0 < w → 0 < sizeof_T → 0 ≤ elements → 0 ≤ res_max_size < 2 ^ w →
  2 ^ w ≤ elements * sizeof_T →
  (∃ bytes,
     default_resource_allocator.allocate w sizeof_T align elements
     = call_allocate bytes align
     ∧ 0 ≤ bytes ≤ elements * sizeof_T - 2 ^ w)
  ∧ polymorphic_synchronized_allocator.allocate w sizeof_T align res_max_size elements
    = throw_system_error EINVAL.
Proof.
  intros Hw Hs He Hm Hov. split.
  - eexists. split; [reflexivity|]. unfold size_wrap.
    assert (0 < 2 ^ w) as Hp by (apply Z.pow_pos_nonneg; lia).
    pose proof (Z.div_mod (elements * sizeof_T) (2 ^ w) ltac:(lia)).
    pose proof (Z.mod_pos_bound (elements * sizeof_T) (2 ^ w) Hp).
    assert (1 ≤ elements * sizeof_T / 2 ^ w); [|nia].
    apply Z.div_le_lower_bound; lia.
  - apply polymorphic_allocate_cases; [done..|lia].
Qed.

(** X20. [polymorphic_synchronized_allocator::deallocate] takes exactly
    the element counts that [allocate] takes: it passes its assertion and
    gives back to the resource the byte count and alignment that
    [allocate] asks for, and its assertion fails exactly when [allocate]
    throws. *)
Theorem polymorphic_deallocate_mirrors_allocate
    w sizeof_T alignof_T res_max_size elements :
  (∀ bytes a,
     polymorphic_synchronized_allocator.allocate w sizeof_T alignof_T res_max_size elements
     = call_allocate bytes a
     ↔ polymorphic_synchronized_allocator.deallocate w sizeof_T alignof_T res_max_size elements
       = call_deallocate bytes a)
  ∧ (polymorphic_synchronized_allocator.allocate w sizeof_T alignof_T res_max_size elements
     = throw_system_error EINVAL
     ↔ polymorphic_synchronized_allocator.deallocate w sizeof_T alignof_T res_max_size elements
       = assert_failed).
Proof.
  unfold polymorphic_synchronized_allocator.allocate,
    polymorphic_synchronized_allocator.deallocate.
  destruct (Z.gtb_spec elements
              (polymorphic_synchronized_allocator.max_size sizeof_T res_max_size)),
    (Z.leb_spec elements
       (polymorphic_synchronized_allocator.max_size sizeof_T res_max_size));
    try lia.
  - split; [|done]. intros bytes a. split; discriminate.
  - split; [|split; discriminate].
    intros bytes a. split; intros [= <- <-]; done.
Qed.

End allocators.

(** ** Round trips on a list (os-lists.cpp) *)

Lemma links_ext (m1 m2 : gmap ptr links) :
  (∀ y, valid m1 y ↔ valid m2 y) →
  (∀ y, nxt m1 y = nxt m2 y) → (∀ y, prv m1 y = prv m2 y) → m1 = m2.
Proof.
  intros Hv Hn Hp. apply map_eq. intros y.
  specialize (Hv y). specialize (Hn y). specialize (Hp y).
  unfold valid, nxt, prv in *.
  destruct (m1 !! y) as [[p1 n1]|], (m2 !! y) as [[p2 n2]|]; cbn in *.
  - congruence.
  - destruct Hv as [Hv _]. destruct Hv; [eauto|done].
  - destruct Hv as [_ Hv]. destruct Hv; [eauto|done].
  - done.
Qed.

Lemma is_list_before (m : gmap ptr links) h l1 l2 :
  is_list m h (l1 ++ l2) → prv m (hd h l2) = Some (List.last l1 h).
Proof.
  intros [_ Hd]. destruct l1 as [|y l1 _] using rev_ind.
  - cbn in *. by apply dseg_hd_prev.
  - rewrite <-app_assoc in Hd. apply dseg_app in Hd as [_ Hd].
    rewrite last_last. by apply dseg_hd_prev.
Qed.

Lemma unlink_after_insert (m : gmap ptr links) h l1 l2 node :
  is_list m h (l1 ++ l2) → node ∉ h :: l1 ++ l2 → detached m node →
  after_unlink (after_insert m node (List.last l1 h) (hd h l2)) node
    (List.last l1 h) (hd h l2) = m.
Proof.
  intros Hl Hn Hd. pose proof Hd as (Hv & Hp & Hx)%detached_inv.
  destruct (last_hd_in h l1 l2 node Hn) as [Hnp Hna].
  pose proof (last_elem h l1).
  assert (hd h l2 ∈ h :: l2) by (destruct l2; set_solver).
  assert (valid m (List.last l1 h)) by (eapply is_list_valid; [done|set_solver]).
  assert (valid m (hd h l2)) by (eapply is_list_valid; [done|set_solver]).
  apply links_ext; intros y.
  - by rewrite valid_after_unlink, valid_after_insert.
  - rewrite nxt_after_unlink by (by apply valid_after_insert).
    rewrite nxt_after_insert by done.
    repeat case_decide; subst; try done. symmetry. by apply is_list_after.
  - rewrite prv_after_unlink by (by apply valid_after_insert).
    rewrite prv_after_insert by done.
    repeat case_decide; subst; try done. symmetry. by apply is_list_before.
Qed.

Lemma insert_after_unlink (m : gmap ptr links) h l1 x l2 :
  is_list m h (l1 ++ x :: l2) →
  after_insert (after_unlink m x (List.last l1 h) (hd h l2)) x
    (List.last l1 h) (hd h l2) = m.
Proof.
  intros Hl. pose proof (is_list_around _ _ _ _ _ Hl) as [Hp Hn].
  pose proof Hl as [Hnd _]. apply NoDup_cons in Hnd as [Hh Hnd].
  apply NoDup_app in Hnd as (_ & Hdisj & [Hx _]%NoDup_cons).
  pose proof (last_elem h l1).
  assert (hd h l2 ∈ h :: l2) by (destruct l2; set_solver).
  assert (valid m x) by (eapply is_list_valid; [done|set_solver]).
  assert (valid m (List.last l1 h)) by (eapply is_list_valid; [done|set_solver]).
  assert (valid m (hd h l2)) by (eapply is_list_valid; [done|set_solver]).
  assert (x ≠ List.last l1 h) by set_solver.
  assert (x ≠ hd h l2) by set_solver.
  pose proof (is_list_neighbours m h _ x Hl ltac:(set_solver))
    as (n & p & Hn' & Hpn & Hp' & Hnp).
  rewrite Hn in Hn'. injection Hn' as <-. rewrite Hp in Hp'. injection Hp' as <-.
  apply links_ext; intros y.
  - by rewrite valid_after_insert, valid_after_unlink.
  - rewrite nxt_after_insert by (by apply valid_after_unlink).
    rewrite nxt_after_unlink by done.
    repeat case_decide; subst; done.
  - rewrite prv_after_insert by (by apply valid_after_unlink).
    rewrite prv_after_unlink by done.
    repeat case_decide; subst; done.
Qed.

(** X5. [insert_after] of a detached node followed by [unlink] of that
    node gives back the state before the insertion, and [unlink] of a
    node on a list followed by [insert_after] behind its former
    predecessor gives back the state before the unlink. *)
Theorem insert_after_and_unlink_are_inverse :
  (∀ s h l1 l2 node,
     is_list (links_of s) h (l1 ++ l2) → node ∉ h :: l1 ++ l2 →
     detached (links_of s) node →
     (static_double_list.insert_after node (Some (List.last l1 h));;
      static_double_list_links.unlink node) s = Ok (tt, s))
  ∧ (∀ s h l1 x l2,
       is_list (links_of s) h (l1 ++ x :: l2) →
       (static_double_list_links.unlink x;;
        static_double_list.insert_after x (Some (List.last l1 h))) s = Ok (tt, s)).
Proof.
  split.
  - intros s h l1 l2 node Hl Hn Hd.
    rewrite (bind_ok _ _ _ _ _ (insert_after_is_list s h l1 l2 node Hl Hn Hd)).
    assert (is_list (after_insert (links_of s) node (List.last l1 h) (hd h l2)) h
              (l1 ++ node :: l2)) as Hl'.
    { apply is_list_insert; [done..|]. by apply detached_inv in Hd as [? _]. }
    rewrite (unlink_is_list _ h l1 node l2) by done. cbn [links_of set_links].
    rewrite unlink_after_insert by done. by destruct s.
  - intros s h l1 x l2 Hl.
    rewrite (bind_ok _ _ _ _ _ (unlink_is_list s h l1 x l2 Hl)).
    pose proof (is_list_remove _ _ _ _ _ Hl) as Hl'.
    pose proof (after_unlink_detached _ _ _ _ _ Hl) as Hd.
    rewrite (insert_after_is_list _ h l1 l2 x); [| done | | done].
    + cbn [links_of set_links]. rewrite insert_after_unlink by done.
      by destruct s.
    + destruct Hl as [Hnd _]. rewrite <-Permutation_middle in Hnd.
      rewrite (NoDup_cons h), NoDup_cons in Hnd. set_solver.
Qed.

(** ** Waking all waiters *)



(** ** Lists that append *)

Section append.
Context {A : Type} (f : A → op unit) (g : A → ptr) (h : ptr) (s : state).
Context (P : A → Prop).

(** For the elements in [P], [f a] inserts the node [g a] at the tail
    and changes nothing but links. *)
Hypothesis f_appends : ∀ m l a,
  P a → is_list m h l → g a ∉ h :: l → detached m (g a) →
  f a (set_links m s)
  = Ok (tt, set_links (after_insert m (g a) (List.last l h) h) s).

Lemma for_each_appends xs : ∀ m l0,
  is_list m h l0 → NoDup (g <$> xs) →
  (∀ a, a ∈ xs → P a ∧ (g a ∉ h :: l0) ∧ detached m (g a)) →
  ∃ m',
    for_each f xs (set_links m s) = Ok (tt, set_links m' s)
    ∧ is_list m' h (l0 ++ (g <$> xs))
    ∧ (∀ y, y ∉ h :: l0 ++ (g <$> xs) → m' !! y = m !! y).
Proof.
  induction xs as [|a xs IH]; intros m l0 Hl Hnd Hfresh.
  { exists m. cbn. rewrite app_nil_r. done. }
  cbn [fmap list_fmap] in *. apply NoDup_cons in Hnd as [Ha Hnd].
  destruct (Hfresh a) as (HPa & Hna & Hda); [set_solver|].
  pose proof (insert_at_tail (set_links m s) h l0 (g a) Hl Hna Hda) as [_ Hl1].
  cbn [links_of set_links] in Hl1.
  destruct (IH (after_insert m (g a) (List.last l0 h) h) (l0 ++ [g a]))
    as (m' & Hr & Hl' & Hf'); [done|done| |].
  { intros b Hb. destruct (Hfresh b) as (HPb & Hnb & Hdb); [set_solver|].
    assert (g b ≠ g a).
    { intros E. apply Ha. rewrite <-E. apply list_elem_of_fmap. eauto. }
    split; [done|]. split; [set_solver|]. unfold detached.
    destruct (last_hd_in h l0 [] (g b)) as [? ?]; [by rewrite app_nil_r|].
    by rewrite lookup_after_insert_ne. }
  exists m'. cbn [for_each]. rewrite (bind_ok _ _ _ _ _ (f_appends m l0 a HPa Hl Hna Hda)).
  rewrite <-app_assoc in Hl', Hf'. cbn in Hl', Hf'.
  split; [done|]. split; [done|].
  intros y Hy. rewrite Hf' by done.
  destruct (last_hd_in h l0 [] y) as [? ?]; [rewrite app_nil_r; set_solver|].
  apply lookup_after_insert_ne; [set_solver|done..].
Qed.

End append.

Lemma terminated_link_appends s h m l node :
  is_list m h l → node ∉ h :: l → detached m node →
  terminated_threads_list.link h node (set_links m s)
  = Ok (tt, set_links (after_insert m node (List.last l h) h) s).
Proof.
  intros Hl Hn Hd. unfold terminated_threads_list.link.
  rewrite (step_skip_clear (set_links m s) h l) by done.
  unfold static_double_list.tail.
  rewrite step_get_prev by (eapply is_list_valid; [done|set_solver]).
  cbn [links_of set_links]. rewrite (is_list_tail _ _ _ Hl).
  by destruct (insert_at_tail (set_links m s) h l node) as [-> _].
Qed.



(** X7. [terminated_threads_list::link] is first in, first out: linking
    the detached nodes [ns] one after the other leaves the list with its
    former nodes followed by [ns] in link order and changes nothing but
    links; on the static list with its header still zero the list is
    then exactly [ns]. *)
Theorem terminated_list_is_fifo :
  (∀ s h l0 ns,
     is_list (links_of s) h l0 → NoDup ns →
     (∀ n, n ∈ ns → (n ∉ h :: l0) ∧ detached (links_of s) n) →
     ∃ s',
       for_each (terminated_threads_list.link h) ns s = Ok (tt, s')
       ∧ is_list (links_of s') h (l0 ++ ns)
       ∧ s' = set_links (links_of s') s)
  ∧ (∀ s h n ns,
       detached (links_of s) h → NoDup (n :: ns) →
       (∀ x, x ∈ n :: ns → x ≠ h ∧ detached (links_of s) x) →
       ∃ s',
         for_each (terminated_threads_list.link h) (n :: ns) s = Ok (tt, s')
         ∧ is_list (links_of s') h (n :: ns)
         ∧ s' = set_links (links_of s') s).
Proof.
  assert (∀ s h l0 ns,
     is_list (links_of s) h l0 → NoDup ns →
     (∀ n, n ∈ ns → (n ∉ h :: l0) ∧ detached (links_of s) n) →
     ∃ s',
       for_each (terminated_threads_list.link h) ns s = Ok (tt, s')
       ∧ is_list (links_of s') h (l0 ++ ns)
       ∧ s' = set_links (links_of s') s) as Hfifo.
  { intros s h l0 ns Hl Hnd Hfresh.
    destruct (for_each_appends (terminated_threads_list.link h) id h s (λ _, True)
                (λ m l a _, terminated_link_appends s h m l a) ns (links_of s) l0)
      as (m' & Hr & Hl' & _).
    - done.
    - by rewrite list_fmap_id.
    - intros a Ha. split; [done|]. by apply Hfresh.
    - rewrite set_links_id, list_fmap_id in *. by exists (set_links m' s). }
  split; [exact Hfifo|].
  intros s h n ns Hh Hnd Hfresh.
  destruct (promote_zero_header s h Hh) as (s0 & Hc & Hl & Hs & Hf & Hk).
  destruct (Hfifo s0 h [] (n :: ns)) as (s' & Hr & Hl' & Hs'); [done|done| |].
  { intros x Hx. destruct (Hfresh x Hx) as [Hne Hd].
    split; [set_solver|]. unfold detached. by rewrite Hf. }
  exists s'. split; [|split; [done|]].
  - rewrite <-Hr. cbn [for_each].
    assert (terminated_threads_list.link h n s
            = terminated_threads_list.link h n s0) as E.
    { unfold terminated_threads_list.link. rewrite Hk.
      by rewrite (step_skip_clear _ _ _ _ Hl). }
    unfold bind. by rewrite E.
  - rewrite Hs', Hs. done.
Qed.


(** ** The clock list in time stamp order *)

Lemma placed_timestamp (key : ptr → Z) k h l l1 l2 node :
  placed Z.ltb key k l l1 l2 →
  (l = [] ∨ key (List.last l h) ≤ k → l1 ++ node :: l2 = l ++ [node])
  ∧ (l ≠ [] → k < key (List.last l h) → k < key (hd h l) →
     l1 ++ node :: l2 = node :: l)
  ∧ (l ≠ [] → k < key (List.last l h) → key (hd h l) ≤ k →
     ∃ la x lb, l = la ++ x :: lb ∧ key x ≤ k
       ∧ Forall (λ y, k < key y) lb
       ∧ l1 ++ node :: l2 = la ++ x :: node :: lb).
Proof.
  intros [E P]. destruct l as [|x0 l'].
  { symmetry in E. apply app_eq_nil in E as [-> ->]. split_and!; done. }
  rewrite (last_cons x0 l' h). rewrite last_cons in P. cbn [hd].
  destruct (Z.ltb_spec k (key (List.last l' x0))) as [H1|H1]; cbn [negb] in P.
  2:{ subst l2. rewrite app_nil_r in E. subst l1. split_and!; [done|lia..]. }
  destruct (Z.ltb_spec k (key x0)) as [H2|H2].
  { subst l1. cbn in E. subst l2. split_and!; [intros [?|?]; [done|lia]|done|lia]. }
  destruct P as (la & x & -> & Hx & Hlb).
  split_and!; [intros [?|?]; [done|lia]|lia|]. intros _ _ _.
  exists la, x, l2. rewrite <-!app_assoc in *. cbn in *.
  split_and!; [done| | |done].
  - destruct (Z.ltb_spec k (key x)); [done|lia].
  - eapply Forall_impl; [done|]. cbn. intros y Hy.
    destruct (Z.ltb_spec k (key y)); [lia|done].
Qed.

(** X9. [clock_timestamps_list::link] keeps the clock list in
    nondecreasing time stamp order with the nodes of one time stamp in
    link order, for any sequence of calls; one call puts the node at the
    tail when the list is empty or its time stamp is at least the
    tail's, at the head when it is below the head's, and otherwise
    behind the last node whose time stamp is at most its own. *)
Theorem clock_link_keeps_timestamp_order :
  (∀ s h l0 ns (key : ptr → Z),
     is_list (links_of s) h l0 →
     StronglySorted (λ x y, key x ≤ key y) l0 →
     NoDup ns →
     (∀ n, n ∈ ns → (n ∉ h :: l0) ∧ detached (links_of s) n) →
     (∀ x, x ∈ l0 ++ ns → tstamp s x = Some (key x)) →
     ∃ s' l,
       for_each (clock_timestamps_list.link h) ns s = Ok (tt, s')
       ∧ is_list (links_of s') h l
       ∧ StronglySorted (λ x y, key x ≤ key y) l
       ∧ (∀ j, band key j l = band key j (l0 ++ ns))
       ∧ l ≡ₚ l0 ++ ns
       ∧ s' = set_links (links_of s') s)
  ∧ (∀ s h l node (key : ptr → Z),
       is_list (links_of s) h l → node ∉ h :: l →
       detached (links_of s) node →
       (∀ x, x ∈ node :: l → tstamp s x = Some (key x)) →
       ∃ s' l',
         clock_timestamps_list.link h node s = Ok (tt, s')
         ∧ is_list (links_of s') h l'
         ∧ (l = [] ∨ key (List.last l h) ≤ key node → l' = l ++ [node])
         ∧ (l ≠ [] → key node < key (List.last l h) →
            key node < key (hd h l) → l' = node :: l)
         ∧ (l ≠ [] → key node < key (List.last l h) →
            key (hd h l) ≤ key node →
            ∃ la x lb, l = la ++ x :: lb ∧ key x ≤ key node
              ∧ Forall (λ y, key node < key y) lb
              ∧ l' = la ++ x :: node :: lb)).
Proof.
  split.
  - intros. by apply clock_link_for_each.
  - intros s h l node key Hl Hn Hd Hk.
    destruct (link_generic_spec get_timestamp Z.ltb key s h l node)
      as (l1 & l2 & Hp & Hr); [done..| |].
    { intros x Hx. apply get_timestamp_tstamp. by apply Hk. }
    pose proof Hp as [E _].
    eexists _, (l1 ++ node :: l2). rewrite clock_link_generic.
    split; [exact Hr|]. split.
    + cbn. subst l. apply is_list_insert; [done..|].
      by apply detached_inv in Hd as [? _].
    + by apply placed_timestamp.
Qed.

(** ** The ready list in priority order *)

Lemma wprio_set_state s m th t st x :
  threads s !! th = Some t →
  wprio (State m (thread_ s) (ts_nodes s)
               (<[th := Thread (prio_ t) st (child_links_ t)]> (threads s))
               (timers s) (trace s)) x
  = wprio s x.
Proof.
  intros Ht. unfold wprio. cbn.
  destruct (thread_ s !! x) as [th'|]; [|done]. cbn.
  destruct (decide (th' = th)) as [->|].
  - by rewrite lookup_insert_eq, Ht.
  - by rewrite lookup_insert_ne.
Qed.

Lemma wprio_inv s x k :
  wprio s x = Some k →
  ∃ th t, thread_ s !! x = Some th ∧ threads s !! th = Some t ∧ prio_ t = k.
Proof.
  unfold wprio. intros H.
  destruct (thread_ s !! x) as [th|] eqn:E1; [|done]. cbn in H.
  destruct (threads s !! th) as [t|] eqn:E2; [|done]. cbn in H.
  injection H as <-. by exists th, t.
Qed.

Lemma ready_link_step s h l node th t (prio : ptr → Z) :
  is_list (links_of s) h l → node ∉ h :: l → detached (links_of s) node →
  thread_ s !! node = Some th → threads s !! th = Some t →
  (∀ x, x ∈ node :: l → wprio s x = Some (prio x)) →
  ∃ l1 l2,
    ready_threads_list.link h node s
    = Ok (tt, State (after_insert (links_of s) node (List.last l1 h) (hd h l2))
                    (thread_ s) (ts_nodes s)
                    (<[th := Thread (prio_ t) ready (child_links_ t)]> (threads s))
                    (timers s) (trace s))
    ∧ placed Z.gtb prio (prio node) l l1 l2.
Proof.
  intros Hl Hn Hd Hth Ht Hk.
  destruct (link_generic_spec ready_threads_list.prio_at Z.gtb prio s h l node)
    as (l1 & l2 & Hp & Hr); [done..| |].
  { intros x Hx. apply prio_at_wprio. by apply Hk. }
  exists l1, l2. rewrite ready_link_generic.
  rewrite (step_skip_clear _ _ _ _ Hl).
  rewrite (bind_ok _ _ _ _ _ Hr).
  unfold get_thread_. rewrite (step_deref thread_ node th) by done.
  unfold thread.set_sched_state_, thread.get.
  rewrite (step_deref threads th t) by done. done.
Qed.

Lemma ready_link_for_each h (prio : ptr → Z) ns : ∀ s l0,
  is_list (links_of s) h l0 →
  StronglySorted (λ x y, prio y ≤ prio x) l0 →
  NoDup ns →
  (∀ n, n ∈ ns → (n ∉ h :: l0) ∧ detached (links_of s) n) →
  (∀ x, x ∈ l0 ++ ns → wprio s x = Some (prio x)) →
  ∃ s' l,
    for_each (ready_threads_list.link h) ns s = Ok (tt, s')
    ∧ is_list (links_of s') h l
    ∧ StronglySorted (λ x y, prio y ≤ prio x) l
    ∧ (∀ j, band prio j l = band prio j (l0 ++ ns))
    ∧ l ≡ₚ l0 ++ ns
    ∧ (∀ x, wprio s' x = wprio s x)
    ∧ thread_ s' = thread_ s
    ∧ (∀ y, y ∉ h :: l0 ++ ns → links_of s' !! y = links_of s !! y)
    ∧ (∀ th t, threads s !! th = Some t → sched_state_ t = ready →
         ∃ t', threads s' !! th = Some t' ∧ sched_state_ t' = ready)
    ∧ (∀ n, n ∈ ns → ∃ th t,
         thread_ s !! n = Some th ∧ threads s' !! th = Some t
         ∧ sched_state_ t = ready).
Proof.
  induction ns as [|n ns IH]; intros s l0 Hl Hs Hnd Hfresh Hk.
  { exists s, l0. rewrite app_nil_r. split_and!; try done.
    - eauto.
    - by intros n ?%elem_of_nil. }
  apply NoDup_cons in Hnd as [Hn Hnd].
  destruct (Hfresh n) as [Hnn Hdn]; [set_solver|].
  destruct (wprio_inv s n (prio n)) as (th & t & Hth & Ht & Hpt);
    [apply Hk; set_solver|].
  destruct (ready_link_step s h l0 n th t prio) as (l1 & l2 & Hr & Hp);
    [done..| |].
  { intros x Hx. apply Hk. set_solver. }
  pose proof Hp as [E _].
  assert (StronglySorted (λ x y, - prio x ≤ - prio y) l0) as Hs0.
  { eapply StronglySorted_impl; [|done]. cbn. intros; lia. }
  match type of Hr with _ = Ok (_, ?s1') => set (s1 := s1') in * end.
  assert (is_list (links_of s1) h (l1 ++ n :: l2)) as Hl1.
  { cbn. subst l0. apply is_list_insert; [done..|].
    by apply detached_inv in Hdn as [? _]. }
  assert (∀ x, wprio s1 x = wprio s x) as Hw1.
  { intros x. by apply wprio_set_state. }
  assert (∀ y, y ∉ n :: h :: l0 → links_of s1 !! y = links_of s !! y) as Hf1.
  { intros y Hy. cbn. subst l0.
    destruct (last_hd_in h l1 l2 y) as [? ?]; [set_solver|].
    apply lookup_after_insert_ne; [set_solver|done..]. }
  destruct (IH s1 (l1 ++ n :: l2))
    as (s' & l & Hr' & Hl' & Hs' & Hb' & Hperm & Hw' & Hth' & Hf' & Hmono & Hready).
  - done.
  - eapply StronglySorted_impl;
      [|by eapply (placed_sorted Z.gtb Z.opp gtb_opp prio)].
    cbn. intros; lia.
  - done.
  - intros y Hy. destruct (Hfresh y) as [? ?]; [set_solver|].
    split; [subst l0; set_solver|]. unfold detached. rewrite Hf1; [done|set_solver].
  - intros x Hx. rewrite Hw1. apply Hk. subst l0. set_solver.
  - exists s', l. cbn [for_each]. rewrite (bind_ok _ _ _ _ _ Hr).
    split; [done|]. split; [done|]. split; [done|]. split.
    { intros j. rewrite Hb'. unfold band. rewrite filter_app.
      fold (band prio j (l1 ++ n :: l2)).
      rewrite (placed_band Z.gtb Z.opp gtb_opp prio _ l0 l1 l2 n j Hs0 Hp eq_refl).
      unfold band. by rewrite <-filter_app, <-app_assoc. }
    split.
    { rewrite Hperm, E, <-!app_assoc. apply Permutation_app_head.
      by rewrite <-Permutation_middle. }
    split; [intros x; by rewrite Hw', Hw1|]. split; [done|]. split.
    { intros y Hy. rewrite Hf'; [apply Hf1|]; subst l0; set_solver. }
    split.
    { intros th0 t0 Ht0 Hst0.
      destruct (decide (th0 = th)) as [->|Hne].
      - eapply Hmono; [cbn; by rewrite lookup_insert_eq|done].
      - eapply Hmono; [cbn; by rewrite lookup_insert_ne|done]. }
    intros y [->|Hy]%elem_of_cons.
    + destruct (Hmono th (Thread (prio_ t) ready (child_links_ t)))
        as (t' & Ht' & Hst'); [cbn; by rewrite lookup_insert_eq|done|].
      eauto.
    + destruct (Hready y Hy) as (th0 & t0 & Hth0 & Ht0 & Hst0). eauto.
Qed.

(** X10. [ready_threads_list::link] keeps the ready list in
    nonincreasing priority order with the nodes of one priority in link
    order, for any sequence of calls, leaves every priority as it was and
    every linked thread in state [ready]; so too when the first call
    finds the header of the static list still zero. *)
Theorem ready_link_keeps_priority_order :
  (∀ s h l0 ns (prio : ptr → Z),
     is_list (links_of s) h l0 →
     StronglySorted (λ x y, prio y ≤ prio x) l0 →
     NoDup ns →
     (∀ n, n ∈ ns → (n ∉ h :: l0) ∧ detached (links_of s) n) →
     (∀ x, x ∈ l0 ++ ns → wprio s x = Some (prio x)) →
     ∃ s' l,
       for_each (ready_threads_list.link h) ns s = Ok (tt, s')
       ∧ is_list (links_of s') h l
       ∧ StronglySorted (λ x y, prio y ≤ prio x) l
       ∧ (∀ j, band prio j l = band prio j (l0 ++ ns))
       ∧ l ≡ₚ l0 ++ ns
       ∧ (∀ x, wprio s' x = wprio s x)
       ∧ (∀ n, n ∈ ns → ∃ th t,
            thread_ s !! n = Some th ∧ threads s' !! th = Some t
            ∧ sched_state_ t = ready))
  ∧ (∀ s h n ns (prio : ptr → Z),
       detached (links_of s) h → NoDup (n :: ns) →
       (∀ x, x ∈ n :: ns → x ≠ h ∧ detached (links_of s) x) →
       (∀ x, x ∈ n :: ns → wprio s x = Some (prio x)) →
       ∃ s' l,
         for_each (ready_threads_list.link h) (n :: ns) s = Ok (tt, s')
         ∧ is_list (links_of s') h l
         ∧ StronglySorted (λ x y, prio y ≤ prio x) l
         ∧ (∀ j, band prio j l = band prio j (n :: ns))
         ∧ l ≡ₚ n :: ns
         ∧ (∀ x, x ∈ n :: ns → ∃ th t,
              thread_ s !! x = Some th ∧ threads s' !! th = Some t
              ∧ sched_state_ t = ready)).
Proof.
  split.
  - intros s h l0 ns prio Hl Hs Hnd Hfresh Hk.
    destruct (ready_link_for_each h prio ns s l0 Hl Hs Hnd Hfresh Hk)
      as (s' & l & Hr & Hl' & Hs' & Hb & Hperm & Hw & _ & _ & _ & Hready).
    exists s', l. done.
  - intros s h n ns prio Hh Hnd Hfresh Hk.
    destruct (promote_zero_header s h Hh) as (s0 & Hc & Hl & Hs & Hf & Hclear).
    destruct (ready_link_for_each h prio (n :: ns) s0 [])
      as (s' & l & Hr & Hl' & Hs' & Hb & Hperm & _ & _ & _ & _ & Hready).
    + done.
    + constructor.
    + done.
    + intros x Hx. destruct (Hfresh x Hx) as [Hne Hd].
      split; [set_solver|]. unfold detached. by rewrite Hf.
    + intros x Hx. rewrite Hs. by apply Hk.
    + exists s', l. split; [|split; [done|split; [done|split; [done|split; [done|]]]]].
      * rewrite <-Hr. cbn [for_each].
        assert (ready_threads_list.link h n s
                = ready_threads_list.link h n s0) as E.
        { rewrite !ready_link_generic. rewrite Hclear.
          by rewrite (step_skip_clear _ _ _ _ Hl). }
        unfold bind. by rewrite E.
      * intros x Hx. destruct (Hready x Hx) as (th & t & Hth & Ht & Hst).
        exists th, t. split; [|done]. by rewrite Hs in Hth.
Qed.

(** ** Who is woken, who is dispatched *)

(** The head of a list in priority order that holds the nodes [ns] with
    each priority band in the order of [ns]: a node of the highest
    priority, and the first of [ns] with that priority. *)
Lemma head_of_priority_order (prio : ptr → Z) x l ns :
  StronglySorted (λ x y, prio y ≤ prio x) (x :: l) →
  (∀ j, band prio j (x :: l) = band prio j ns) →
  x :: l ≡ₚ ns →
  x ∈ ns ∧ (∀ y, y ∈ ns → prio y ≤ prio x)
  ∧ ∃ rest, band prio (prio x) ns = x :: rest.
Proof.
  intros Hs Hb Hperm. apply StronglySorted_cons in Hs as [Hall _].
  split; [rewrite <-Hperm; set_solver|]. split.
  - intros y Hy. rewrite <-Hperm in Hy. apply elem_of_cons in Hy as [->|Hy]; [lia|].
    rewrite Forall_forall in Hall. by apply Hall.
  - rewrite <-Hb. unfold band. rewrite filter_cons_True by done. eauto.
Qed.

Lemma waiting_link_for_each_links s h l0 ns (prio : ptr → Z) :
  is_list (links_of s) h l0 →
  StronglySorted (λ x y, prio y ≤ prio x) l0 →
  NoDup ns →
  (∀ n, n ∈ ns → (n ∉ h :: l0) ∧ detached (links_of s) n) →
  (∀ x, x ∈ l0 ++ ns → wprio s x = Some (prio x)) →
  ∃ m' l,
    for_each (waiting_threads_list.link h) ns s = Ok (tt, set_links m' s)
    ∧ is_list m' h l
    ∧ StronglySorted (λ x y, prio y ≤ prio x) l
    ∧ (∀ j, band prio j l = band prio j (l0 ++ ns))
    ∧ l ≡ₚ l0 ++ ns.
Proof.
  intros Hl Hs Hnd Hfresh Hk.
  destruct (link_generic_for_each waiting_threads_list.sched_prio_at
              Z.gtb Z.opp gtb_opp prio h ns s l0)
    as (m' & l & Hr & Hl' & Hs' & Hb & Hperm & _).
  - done.
  - eapply StronglySorted_impl; [|done]. cbn. intros; lia.
  - done.
  - intros n Hn. by apply Hfresh.
  - intros n Hn. by apply Hfresh.
  - intros x m Hx. apply sched_prio_at_wprio. by apply Hk.
  - exists m', l.
    rewrite (for_each_ext _ (link_generic waiting_threads_list.sched_prio_at Z.gtb h))
      by (intros; apply waiting_link_generic).
    split; [done|]. split; [done|]. split; [|done].
    eapply StronglySorted_impl; [|done]. cbn. intros; lia.
Qed.

(** X11. After waiters have been linked on an empty wait list,
    [resume_one] takes off the list and wakes a waiter of the highest
    priority, among those the one linked first. *)
Theorem resume_one_wakes_highest_priority_first_linked :
  ∀ s h n ns (prio : ptr → Z),
    is_list (links_of s) h [] → NoDup (n :: ns) →
    (∀ x, x ∈ n :: ns → x ≠ h ∧ detached (links_of s) x) →
    (∀ x, x ∈ n :: ns → wprio s x = Some (prio x)) →
    ∃ x th t l s',
      (for_each (waiting_threads_list.link h) (n :: ns);;
       waiting_threads_list.resume_one h) s = Ok (tt, s')
      ∧ x ∈ n :: ns
      ∧ (∀ y, y ∈ n :: ns → prio y ≤ prio x)
      ∧ (∃ rest, band prio (prio x) (n :: ns) = x :: rest)
      ∧ thread_ s !! x = Some th ∧ threads s !! th = Some t
      ∧ trace s' = trace s ++ match sched_state_ t with
                              | destroyed => []
                              | _ => [ev_resume th]
                              end
      ∧ is_list (links_of s') h l ∧ x :: l ≡ₚ n :: ns
      ∧ detached (links_of s') x.
Proof.
  intros s h n ns prio Hl Hnd Hfresh Hk.
  destruct (waiting_link_for_each_links s h [] (n :: ns) prio)
    as (m1 & l1 & Hr & Hl1 & Hs1 & Hb & Hperm); [done|constructor|done| |done|].
  { intros x Hx. destruct (Hfresh x Hx). split; [set_solver|done]. }
  cbn [app] in Hb, Hperm.
  destruct l1 as [|x l].
  { by apply Permutation_nil_l in Hperm. }
  destruct (head_of_priority_order prio x l (n :: ns) Hs1 Hb Hperm)
    as (Hx & Hmax & Hband).
  destruct (wprio_inv s x (prio x) (Hk x Hx)) as (th & t & Hth & Ht & _).
  exists x, th, t, l. eexists.
  rewrite (bind_ok _ _ _ _ _ Hr).
  split; [by apply (resume_one_head (set_links m1 s) h x l th t)|].
  destruct (unlink_head_node (set_links m1 s) h x l Hl1) as (_ & Hl' & Hd).
  cbn. done.
Qed.

(** X12. After nodes have been linked on the ready list, [unlink_head]
    returns the thread of a node of the highest priority, among those
    the one linked first, in state [running]. *)
Theorem unlink_head_returns_highest_priority_first_linked :
  ∀ s h n ns (prio : ptr → Z),
    is_list (links_of s) h [] → NoDup (n :: ns) →
    (∀ x, x ∈ n :: ns → x ≠ h ∧ detached (links_of s) x) →
    (∀ x, x ∈ n :: ns → wprio s x = Some (prio x)) →
    ∃ x th t l s',
      (for_each (ready_threads_list.link h) (n :: ns);;
       ready_threads_list.unlink_head h) s = Ok (th, s')
      ∧ x ∈ n :: ns
      ∧ (∀ y, y ∈ n :: ns → prio y ≤ prio x)
      ∧ (∃ rest, band prio (prio x) (n :: ns) = x :: rest)
      ∧ thread_ s !! x = Some th
      ∧ threads s' !! th = Some t ∧ sched_state_ t = running
      ∧ is_list (links_of s') h l ∧ x :: l ≡ₚ n :: ns.
Proof.
  intros s h n ns prio Hl Hnd Hfresh Hk.
  destruct (ready_link_for_each h prio (n :: ns) s [])
    as (s1 & l1 & Hr & Hl1 & Hs1 & Hb & Hperm & _ & Hth1 & _ & _ & Hready);
    [done|constructor|done| |done|].
  { intros x Hx. destruct (Hfresh x Hx). split; [set_solver|done]. }
  cbn [app] in Hb, Hperm.
  destruct l1 as [|x l].
  { by apply Permutation_nil_l in Hperm. }
  destruct (head_of_priority_order prio x l (n :: ns) Hs1 Hb Hperm)
    as (Hx & Hmax & Hband).
  destruct (Hready x Hx) as (th & t & Hth & Ht & _).
  exists x, th. eexists _, l. eexists.
  rewrite (bind_ok _ _ _ _ _ Hr).
  split; [apply (unlink_head_ok s1 h x l th t); [done|by rewrite Hth1|done]|].
  destruct (unlink_head_node s1 h x l Hl1) as (_ & Hl' & _).
  cbn. rewrite lookup_insert_eq. done.
Qed.

(** ** Empty lists *)

(** X13. [unlink_head] on an empty ready list, constructed or still
    zero, stops at its assertion [!empty ()] (line 246). *)
Theorem unlink_head_of_empty_list_fails :
  (∀ s h, is_list (links_of s) h [] →
     ready_threads_list.unlink_head h s = Fault (assertion_failed 246))
  ∧ (∀ s h, detached (links_of s) h →
       ready_threads_list.unlink_head h s = Fault (assertion_failed 246)).
Proof.
  split.
  - intros s h Hl. unfold ready_threads_list.unlink_head. rewrite bind_assoc.
    by rewrite (bind_ok _ _ _ _ _ (empty_is_list _ _ _ Hl)).
  - intros s h (Hv & _ & Hn)%detached_inv.
    unfold ready_threads_list.unlink_head. rewrite bind_assoc.
    by rewrite (bind_ok _ _ _ _ _ (empty_zero_header _ _ Hv Hn)).
Qed.

(** X14. The constructor of [double_list] leaves an empty list whatever
    the header held, and the destructor then passes; the destructor of a
    list that still holds a node stops at its assertion [empty ()]
    (line 159). *)
Theorem double_list_must_be_empty_when_destroyed :
  (∀ s h, valid (links_of s) h →
     ∃ s',
       double_list.construct h s = Ok (tt, s')
       ∧ is_list (links_of s') h []
       ∧ double_list.destruct h s' = Ok (tt, s'))
  ∧ (∀ s h x l, is_list (links_of s) h (x :: l) →
       double_list.destruct h s = Fault (assertion_failed 159)).
Proof.
  split.
  - intros s h Hv. destruct (clear_is_list s h Hv) as (s' & Hc & Hl & _).
    exists s'. split; [done|]. split; [done|].
    unfold double_list.destruct.
    by rewrite (bind_ok _ _ _ _ _ (empty_is_list _ _ _ Hl)).
  - intros s h x l Hl. unfold double_list.destruct.
    by rewrite (bind_ok _ _ _ _ _ (empty_is_list _ _ _ Hl)).
Qed.

(** X15. [check_timestamp] changes nothing when there is nothing due:
    on a header still zero, for any fuel; on an empty list; and on a list
    whose head has a time stamp after [now], whatever follows the head. *)
Theorem check_timestamp_without_expiry_is_noop :
  (∀ s h now fuel, detached (links_of s) h →
     check_timestamp fuel h now s = Ok (tt, s))
  ∧ (∀ s h now fuel, is_list (links_of s) h [] →
       check_timestamp (S fuel) h now s = Ok (tt, s))
  ∧ (∀ s h x l ts now fuel,
       is_list (links_of s) h (x :: l) → tstamp s x = Some ts → now < ts →
       check_timestamp (S fuel) h now s = Ok (tt, s)).
Proof.
  split; [|split].
  - intros s h now fuel (Hv & _ & Hn)%detached_inv. unfold check_timestamp.
    rewrite step_get_next by done. by rewrite Hn.
  - intros s h now fuel Hl. rewrite (check_timestamp_is_list _ _ _ _ _ Hl).
    cbn [check_timestamp_loop].
    by rewrite (bind_ok _ _ _ _ _ (empty_is_list _ _ _ Hl)).
  - intros s h x l ts now fuel Hl Hts Hlt.
    rewrite (check_timestamp_is_list _ _ _ _ _ Hl). cbn [check_timestamp_loop].
    rewrite (bind_ok _ _ _ _ _ (empty_is_list _ _ _ Hl)).
    rewrite bool_decide_eq_false_2 by done.
    unfold static_double_list.head.
    rewrite step_get_next by (eapply is_list_valid; [done|set_solver]).
    rewrite (is_list_head _ _ _ Hl). cbn [hd].
    rewrite (bind_ok _ _ _ _ _ (get_timestamp_tstamp _ _ _ Hts)).
    destruct (Z.geb_spec now ts); [lia|done].
Qed.

(** ** Timeouts *)



Lemma expires_once_links s m x ts :
  expires_once (set_links m s) x ts ↔ expires_once s x ts.
Proof. done. Qed.

(** X17. A time stamp node taken off the clock list by [unlink], as a
    cancelled timeout is, is not fired: [check_timestamp] after the
    [unlink] fires the other nodes that are due, in order, and leaves the
    later ones on the list. *)
Theorem unlinked_timestamp_node_is_not_fired :
  ∀ s h l1 x l2 (key : ptr → Z) now fuel,
    is_list (links_of s) h (l1 ++ x :: l2) →
    StronglySorted (λ x y, key x ≤ key y) (l1 ++ x :: l2) →
    (∀ y, y ∈ l1 ++ l2 → expires_once s y (key y)) →
    (length (l1 ++ l2) < fuel)%nat →
    ∃ s',
      (static_double_list_links.unlink x;; check_timestamp fuel h now) s
      = Ok (tt, s')
      ∧ fired (trace s')
        = fired (trace s)
          ++ ((λ y, (y, key y)) <$> filter (λ y, key y ≤ now) (l1 ++ l2))
      ∧ x ∉ filter (λ y, key y ≤ now) (l1 ++ l2)
      ∧ is_list (links_of s') h (filter (λ y, now < key y) (l1 ++ l2)).
Proof.
  intros s h l1 x l2 key now fuel Hl Hs Hexp Hf.
  rewrite (bind_ok _ _ _ _ _ (unlink_is_list s h l1 x l2 Hl)).
  pose proof (is_list_remove _ _ _ _ _ Hl) as Hl'.
  destruct (check_timestamp_expiry
              (set_links (after_unlink (links_of s) x (List.last l1 h) (hd h l2)) s)
              h (l1 ++ l2) key now fuel)
    as (s' & Hr & Hfired & Hl''); [done| |done|done|].
  { apply StronglySorted_app in Hs as (H12 & Hs1 & [_ Hs2]%StronglySorted_cons).
    apply StronglySorted_app_2; [|done..].
    intros y1 y2 Hy1 Hy2. apply H12; set_solver. }
  exists s'. split; [done|]. split; [done|]. split; [|done].
  intros [_ Hx]%list_elem_of_filter.
  destruct Hl as [Hnd _]. rewrite <-Permutation_middle in Hnd.
  rewrite (NoDup_cons h), NoDup_cons in Hnd. set_solver.
Qed.

(** ** Preconditions that are checked, and one that is not *)

(** X18. [thread_children_list::link] has no zero-header check: on a
    header still zero it dereferences the null [tail ()] in
    [insert_after], where [top_threads_list::link] promotes the header
    and returns. *)
Theorem children_link_on_zero_header_dereferences_null :
  ∀ s h th t,
    detached (links_of s) h → threads s !! th = Some t →
    child_links_ t ≠ h → detached (links_of s) (child_links_ t) →
    thread_children_list.link h th s = Fault null_dereference
    ∧ ∃ s', top_threads_list.link h th s = Ok (tt, s')
            ∧ is_list (links_of s') h [child_links_ t].
Proof.
  intros s h th t Hh Ht Hne Hd. split.
  - pose proof Hh as (Hvh & Hph & Hnh)%detached_inv.
    pose proof Hd as (Hvn & Hpn & Hnn)%detached_inv.
    unfold thread_children_list.link, thread.get.
    rewrite (step_deref threads th t) by done.
    unfold static_double_list.tail. rewrite step_get_prev by done. rewrite Hph.
    unfold static_double_list.insert_after.
    rewrite !bind_assoc. step. rewrite Hpn. step. step. rewrite Hnn. step.
    done.
  - destruct (promote_zero_header s h Hh) as (s0 & Hc & Hl & Hs & Hf & Hk).
    destruct (top_link_ok s0 h [] th t) as (s' & Hr & Hl' & _); [done| | | |].
    + by rewrite Hs.
    + set_solver.
    + unfold detached. by rewrite Hf.
    + exists s'. split; [|done]. rewrite <-Hr.
      unfold top_threads_list.link. rewrite Hk.
      by rewrite (step_skip_clear _ _ _ _ Hl).
Qed.

(** X19. The assertions of [insert_after] and [unlink] on nodes that
    are half linked or anchors that are on no list: [insert_after] of a
    node whose [next] alone is set stops at line 124, behind an anchor
    whose [next] is null at line 125, and behind a null anchor it
    dereferences null; [unlink] of a node whose [next] is null and whose
    [prev] is not stops at line 66. *)
Theorem link_preconditions_are_asserted :
  (∀ s node after n,
     prv (links_of s) node = None → nxt (links_of s) node = Some n →
     static_double_list.insert_after node after s = Fault (assertion_failed 124))
  ∧ (∀ s node after,
       detached (links_of s) node → valid (links_of s) after →
       nxt (links_of s) after = None →
       static_double_list.insert_after node (Some after) s
       = Fault (assertion_failed 125))
  ∧ (∀ s node,
       detached (links_of s) node →
       static_double_list.insert_after node None s = Fault null_dereference)
  ∧ (∀ s this p,
       nxt (links_of s) this = None → prv (links_of s) this = Some p →
       static_double_list_links.unlink this s = Fault (assertion_failed 66)).
Proof.
  split; [|split; [|split]].
  - intros s node after n Hp Hn. unfold static_double_list.insert_after.
    rewrite !bind_assoc. step. rewrite Hp. step. step. by rewrite Hn.
  - intros s node after (Hv & Hp & Hn)%detached_inv Hva Hna.
    unfold static_double_list.insert_after.
    rewrite !bind_assoc. step. rewrite Hp. step. step. rewrite Hn. step.
    step. by rewrite Hna.
  - intros s node (Hv & Hp & Hn)%detached_inv.
    unfold static_double_list.insert_after.
    rewrite !bind_assoc. step. rewrite Hp. step. step. rewrite Hn. step.
    done.
  - intros s this p Hn Hp. unfold static_double_list_links.unlink.
    rewrite step_get_next by valid_tac. rewrite Hn. cbn [is_null].
    rewrite bind_ret_r. step. by rewrite Hp.
Qed.

(** ** The theorems at the scenarios *)

Ltac concrete_NoDup :=
  repeat (apply NoDup_cons; split; [set_solver|]); apply NoDup_nil_2.

Ltac concrete_elem H :=
  repeat (apply elem_of_cons in H as [->|H]); [..|by apply elem_of_nil in H].

Lemma is_list_S1 : is_list (links_of scenario_S1) 1 [].
Proof. split; [apply NoDup_singleton|by vm_compute]. Qed.

(** C1 at scenario S1: the six waiters linked on the empty wait list. *)
Lemma waiting_link_keeps_priority_order_witness :
  is_list (links_of scenario_S1) 1 []
  ∧ ∃ s' l,
      for_each (waiting_threads_list.link 1) [11; 12; 13; 14; 15; 16] scenario_S1
      = Ok (tt, s')
      ∧ is_list (links_of s') 1 l
      ∧ l ≡ₚ [11; 12; 13; 14; 15; 16].
Proof.
  split; [apply is_list_S1|].
  destruct (proj1 waiting_link_keeps_priority_order scenario_S1 1 []
              [11; 12; 13; 14; 15; 16]
              (λ x, default 0 (wprio scenario_S1 x)))
    as (s' & l & Hr & Hl & _ & _ & Hperm & _).
  - apply is_list_S1.
  - constructor.
  - concrete_NoDup.
  - intros n Hn. concrete_elem Hn; (split; [set_solver|by vm_compute]).
  - intros x Hx. cbn [app] in Hx. concrete_elem Hx; by vm_compute.
  - exists s', l. exact (conj Hr (conj Hl Hperm)).
Defined.

Lemma is_list_one_waiter : is_list (links_of scenario_one_waiter) 1 [11].
Proof. apply is_list_one_node. Qed.

(** C2 on a ready list that holds one node. *)
Lemma ready_unlink_head_dispatches_witness :
  is_list (links_of scenario_one_waiter) 1 [11]
  ∧ ∃ s',
      ready_threads_list.unlink_head 1 scenario_one_waiter = Ok (21, s')
      ∧ is_list (links_of s') 1 []
      ∧ threads s' = <[21 := Thread 4 running 31]> (threads scenario_one_waiter).
Proof.
  split; [apply is_list_one_waiter|].
  destruct (proj1 ready_unlink_head_dispatches_in_priority_order
              scenario_one_waiter 1 11 [] 21 (Thread 4 waiting 31))
    as (s' & Hr & Hl & _ & Hth & _).
  - apply is_list_one_waiter.
  - by vm_compute.
  - by vm_compute.
  - exists s'. exact (conj Hr (conj Hl Hth)).
Defined.

Lemma is_list_S3 : is_list (links_of scenario_S3) 1 [].
Proof. split; [apply NoDup_singleton|by vm_compute]. Qed.

(** C3 at scenario S3, for the tick 60. *)
Lemma check_timestamp_fires_expired_prefix_witness :
  is_list (links_of scenario_S3) 1 []
  ∧ ∃ s1 s2 F rest,
      for_each (clock_timestamps_list.link 1) [11; 12; 13; 14] scenario_S3
      = Ok (tt, s1)
      ∧ check_timestamp 5 1 60 s1 = Ok (tt, s2)
      ∧ fired (trace s2)
        = fired (trace scenario_S3)
          ++ ((λ x, (x, default 0 (tstamp scenario_S3 x))) <$> F)
      ∧ is_list (links_of s2) 1 rest
      ∧ (∀ x, x ∈ F ↔ x ∈ [11; 12; 13; 14] ∧ default 0 (tstamp scenario_S3 x) ≤ 60).
Proof.
  split; [apply is_list_S3|].
  destruct (proj1 (proj2 check_timestamp_fires_expired_prefix) scenario_S3 1
              [11; 12; 13; 14] (λ x, default 0 (tstamp scenario_S3 x)) 60 5%nat)
    as (s1 & s2 & F & rest & Hr1 & Hr2 & Hf & Hl & HF & _).
  - apply is_list_S3.
  - concrete_NoDup.
  - intros n Hn. concrete_elem Hn; (split; [done|by vm_compute]).
  - intros x Hx. concrete_elem Hx; left; do 2 eexists; split; by vm_compute.
  - cbn. lia.
  - exists s1, s2, F, rest.
    exact (conj Hr1 (conj Hr2 (conj Hf (conj Hl HF)))).
Defined.

Lemma is_list_S4_armed : is_list (links_of scenario_S4_armed) 1 [11].
Proof. apply is_list_one_node. Qed.

(** C4 at scenario S4: four expiries, 100 to 250, in one call. *)
Lemma check_timestamp_refires_periodic_timer_witness :
  is_list (links_of scenario_S4_armed) 1 [11]
  ∧ ∃ s',
      check_timestamp 5 1 250 scenario_S4_armed = Ok (tt, s')
      ∧ fired (trace s')
        = fired (trace scenario_S4_armed)
          ++ ((λ i, (11, 100 + Z.of_nat i * 50)) <$> seq 0 4)
      ∧ is_list (links_of s') 1 [11]
      ∧ tstamp s' 11 = Some (100 + Z.of_nat 4 * 50).
Proof.
  split; [apply is_list_S4_armed|].
  destruct (proj1 (proj2 check_timestamp_refires_periodic_timer)
              scenario_S4_armed 1 11 41 50 100 250 4%nat 5%nat)
    as (s' & Hr & Hf & Hl & Hts).
  - apply is_list_S4_armed.
  - by vm_compute.
  - by vm_compute.
  - lia.
  - lia.
  - by vm_compute.
  - intros i Hi. lia.
  - lia.
  - lia.
  - exists s'. exact (conj Hr (conj Hf (conj Hl Hts))).
Defined.

(** C5 on a wait list with one waiter that is not destroyed. *)
Lemma resume_one_unlinks_head_witness :
  is_list (links_of scenario_one_waiter) 1 [11]
  ∧ ∃ s',
      waiting_threads_list.resume_one 1 scenario_one_waiter = Ok (tt, s')
      ∧ is_list (links_of s') 1 []
      ∧ detached (links_of s') 11
      ∧ trace s' = trace scenario_one_waiter ++ [ev_resume 21].
Proof.
  split; [apply is_list_one_waiter|].
  destruct (proj1 (proj2 (proj2 resume_one_unlinks_head_skips_destroyed))
              scenario_one_waiter 1 11 [] 21 (Thread 4 waiting 31))
    as (s' & Hr & Hl & Hd & _ & Htr & _).
  - apply is_list_one_waiter.
  - by vm_compute.
  - by vm_compute.
  - exists s'. refine (conj Hr (conj Hl (conj Hd (Htr _)))). discriminate.
Defined.

(** C6 at scenario S6. *)
Lemma static_list_link_promotes_zero_header_witness :
  detached (links_of scenario_S6) 1
  ∧ ∃ s',
      top_threads_list.link 1 21 scenario_S6 = Ok (tt, s')
      ∧ is_list (links_of s') 1 [31]
      ∧ links_of s' !! 1 = Some (Links (Some 31) (Some 31)).
Proof.
  split; [by vm_compute|].
  destruct (proj1 (proj2 static_list_link_promotes_zero_header)
              scenario_S6 1 21 (Thread 4 ready 31))
    as (s0 & s' & _ & _ & _ & Hr & Hl & Hh).
  - by vm_compute.
  - by vm_compute.
  - discriminate.
  - by vm_compute.
  - exists s'. exact (conj Hr (conj Hl Hh)).
Defined.

(** C7 on a list that holds one node. *)
Lemma unlink_detached_noop_linked_splices_witness :
  is_list (links_of scenario_one_waiter) 1 [11]
  ∧ ∃ s',
      static_double_list_links.unlink 11 scenario_one_waiter = Ok (tt, s')
      ∧ detached (links_of s') 11
      ∧ is_list (links_of s') 1 []
      ∧ static_double_list_links.unlink 11 s' = Ok (tt, s').
Proof.
  split; [apply is_list_one_waiter|].
  destruct (proj2 unlink_detached_noop_linked_splices
              scenario_one_waiter 1 [] 11 [])
    as (s' & Hr & _ & _ & _ & Hd & Hl & _ & Hi).
  - apply is_list_one_waiter.
  - exists s'. exact (conj Hr (conj Hd (conj Hl Hi))).
Defined.

(** C8 (amended) on a list that holds one node: two steps close the ring. *)
Lemma ring_closes_after_size_plus_one_witness :
  is_list one_node_list 1 [11]
  ∧ iter_next one_node_list 2 1 = Some 1
  ∧ iter_prev one_node_list 2 1 = Some 1.
Proof.
  split; [apply is_list_one_node|].
  destruct (proj1 (proj2 ring_closes_after_size_plus_one) one_node_list 1 [11])
    as (Hn & _ & Hp & _).
  - apply is_list_one_node.
  - exact (conj Hn Hp).
Defined.

Lemma is_list_two_lists : is_list (links_of scenario_two_lists) 1 [].
Proof. split; [apply NoDup_singleton|by vm_compute]. Qed.

(** C9: a thread linked on the list 1 is refused by the list 2. *)
Lemma hierarchy_link_of_linked_thread_fails_witness :
  is_list (links_of scenario_two_lists) 1 []
  ∧ ∃ s1,
      top_threads_list.link 1 21 scenario_two_lists = Ok (tt, s1)
      ∧ is_list (links_of s1) 1 [31]
      ∧ thread_children_list.link 2 21 s1 = Fault (assertion_failed 123).
Proof.
  split; [apply is_list_two_lists|].
  destruct (proj2 (proj2 hierarchy_link_of_linked_thread_fails)
              scenario_two_lists 1 [] 2 21 (Thread 4 ready 31))
    as [(s1 & Hr & Hl & Hf) _].
  - by vm_compute.
  - apply is_list_two_lists.
  - cbn [child_links_]. intros H%list_elem_of_singleton. discriminate.
  - by vm_compute.
  - exists (Links (Some 2) (Some 2)). by vm_compute.
  - exists s1. exact (conj Hr (conj Hl Hf)).
Defined.

Lemma is_list_S5 : is_list (links_of scenario_S5) 1 [].
Proof. split; [apply NoDup_singleton|by vm_compute]. Qed.

(** C10 at scenario S5: the first waiter on a constructed wait list. *)
Lemma waiting_link_requires_self_linked_header_witness :
  is_list (links_of scenario_S5) 1 []
  ∧ waiting_threads_list.sched_prio_at (Some 1) scenario_S5 = Fault wild_pointer
  ∧ ∃ s',
      waiting_threads_list.link 1 11 scenario_S5 = Ok (tt, s')
      ∧ is_list (links_of s') 1 [11].
Proof.
  split; [apply is_list_S5|].
  apply (proj1 (proj2 waiting_link_requires_self_linked_header)
           scenario_S5 1 11 4).
  - apply is_list_S5.
  - by vm_compute.
  - discriminate.
  - by vm_compute.
  - by vm_compute.
Defined.

(** ** The further properties at concrete inputs *)

(** X1 for a 32-bit [size_t]: 13 aligned to 8. *)
Lemma align_size_rounds_up_to_multiple_witness :
  (2 ^ 3 | memory.align_size 32 13 (2 ^ 3))
  ∧ 13 ≤ memory.align_size 32 13 (2 ^ 3) < 13 + 2 ^ 3.
Proof.
  destruct (align_size_rounds_up_to_multiple 32 3 13) as (Hd & Hb & _).
  - lia.
  - lia.
  - by vm_compute.
  - exact (conj Hd Hb).
Defined.

(** X2 for a 32-bit [size_t]: a size three below the top, aligned to 8. *)
Lemma align_size_wraps_near_top_witness :
  memory.align_size 32 4294967293 (2 ^ 3) = 0.
Proof.
  apply (align_size_wraps_near_top 32 3 4294967293).
  - lia.
  - by vm_compute.
Defined.

(** X3: 300 elements of 4 bytes on a resource of 1024 bytes, and 200. *)
Lemma polymorphic_allocate_guards_size_witness :
  polymorphic_synchronized_allocator.allocate 32 4 4 1024 300
  = memory.throw_system_error memory.EINVAL
  ∧ polymorphic_synchronized_allocator.allocate 32 4 4 1024 200
    = memory.call_allocate (200 * 4) 4.
Proof.
  split.
  - apply (polymorphic_allocate_guards_size 32 4 4 1024 300);
      [lia|lia|by vm_compute|lia].
  - apply (polymorphic_allocate_guards_size 32 4 4 1024 200);
      [lia|lia|by vm_compute|lia].
Defined.

(** X4 for an 8-bit [size_t]: 20 elements of 16 bytes. *)
Lemma default_allocate_wraps_unchecked_witness :
  (∃ bytes,
     default_resource_allocator.allocate 8 16 8 20
     = memory.call_allocate bytes 8
     ∧ 0 ≤ bytes ≤ 20 * 16 - 2 ^ 8)
  ∧ polymorphic_synchronized_allocator.allocate 8 16 8 100 20
    = memory.throw_system_error memory.EINVAL.
Proof.
  apply (default_allocate_wraps_unchecked 8 16 8 100 20).
  - lia.
  - lia.
  - lia.
  - by vm_compute.
  - by vm_compute.
Defined.

(** X5 on a list that holds one node. *)
Lemma insert_after_and_unlink_are_inverse_witness :
  is_list (links_of scenario_one_waiter) 1 ([] ++ 11 :: [])
  ∧ (static_double_list_links.unlink 11;;
     static_double_list.insert_after 11 (Some (List.last [] 1)))
      scenario_one_waiter
    = Ok (tt, scenario_one_waiter).
Proof.
  split; [apply is_list_one_waiter|].
  apply (proj2 insert_after_and_unlink_are_inverse scenario_one_waiter 1 [] 11 []).
  apply is_list_one_waiter.
Defined.


(** X7 at scenario S2, the header still zero: three nodes in link order. *)
Lemma terminated_list_is_fifo_witness :
  detached (links_of scenario_S2) 1
  ∧ ∃ s',
      for_each (terminated_threads_list.link 1) [11; 12; 13] scenario_S2
      = Ok (tt, s')
      ∧ is_list (links_of s') 1 [11; 12; 13].
Proof.
  split; [by vm_compute|].
  destruct (proj2 terminated_list_is_fifo scenario_S2 1 11 [12; 13])
    as (s' & Hr & Hl & _).
  - by vm_compute.
  - concrete_NoDup.
  - intros x Hx. concrete_elem Hx; (split; [discriminate|by vm_compute]).
  - exists s'. exact (conj Hr Hl).
Defined.


(** X9 at scenario S3: the four timeout nodes linked on the empty list. *)
Lemma clock_link_keeps_timestamp_order_witness :
  is_list (links_of scenario_S3) 1 []
  ∧ ∃ s' l,
      for_each (clock_timestamps_list.link 1) [11; 12; 13; 14] scenario_S3
      = Ok (tt, s')
      ∧ is_list (links_of s') 1 l
      ∧ StronglySorted
          (λ x y, default 0 (tstamp scenario_S3 x)
                  ≤ default 0 (tstamp scenario_S3 y)) l.
Proof.
  split; [apply is_list_S3|].
  destruct (proj1 clock_link_keeps_timestamp_order scenario_S3 1 []
              [11; 12; 13; 14] (λ x, default 0 (tstamp scenario_S3 x)))
    as (s' & l & Hr & Hl & Hs & _).
  - apply is_list_S3.
  - constructor.
  - concrete_NoDup.
  - intros n Hn. concrete_elem Hn; (split; [set_solver|by vm_compute]).
  - intros x Hx. cbn [app] in Hx. concrete_elem Hx; by vm_compute.
  - exists s', l. exact (conj Hr (conj Hl Hs)).
Defined.

(** X10 at scenario S2, the header of the ready list still zero. *)
Lemma ready_link_keeps_priority_order_witness :
  detached (links_of scenario_S2) 1
  ∧ ∃ s' l,
      for_each (ready_threads_list.link 1) [11; 12; 13; 14] scenario_S2
      = Ok (tt, s')
      ∧ is_list (links_of s') 1 l
      ∧ StronglySorted
          (λ x y, default 0 (wprio scenario_S2 y)
                  ≤ default 0 (wprio scenario_S2 x)) l.
Proof.
  split; [by vm_compute|].
  destruct (proj2 ready_link_keeps_priority_order scenario_S2 1 11
              [12; 13; 14] (λ x, default 0 (wprio scenario_S2 x)))
    as (s' & l & Hr & Hl & Hs & _).
  - by vm_compute.
  - concrete_NoDup.
  - intros x Hx. concrete_elem Hx; (split; [discriminate|by vm_compute]).
  - intros x Hx. concrete_elem Hx; by vm_compute.
  - exists s', l. exact (conj Hr (conj Hl Hs)).
Defined.

(** X11 at scenario S1: of the six waiters, one of priority 9 is woken. *)
Lemma resume_one_wakes_highest_priority_first_linked_witness :
  is_list (links_of scenario_S1) 1 []
  ∧ ∃ x s',
      (for_each (waiting_threads_list.link 1) [11; 12; 13; 14; 15; 16];;
       waiting_threads_list.resume_one 1) scenario_S1 = Ok (tt, s')
      ∧ x ∈ [11; 12; 13; 14; 15; 16]
      ∧ detached (links_of s') x.
Proof.
  split; [apply is_list_S1|].
  destruct (resume_one_wakes_highest_priority_first_linked scenario_S1 1 11
              [12; 13; 14; 15; 16] (λ x, default 0 (wprio scenario_S1 x)))
    as (x & th & t & l & s' & Hr & Hx & _ & _ & _ & _ & _ & _ & _ & Hd).
  - apply is_list_S1.
  - concrete_NoDup.
  - intros x Hx. concrete_elem Hx; (split; [discriminate|by vm_compute]).
  - intros x Hx. concrete_elem Hx; by vm_compute.
  - exists x, s'. exact (conj Hr (conj Hx Hd)).
Defined.

(** X12 at scenario S1, its list taken as a ready list. *)
Lemma unlink_head_returns_highest_priority_first_linked_witness :
  is_list (links_of scenario_S1) 1 []
  ∧ ∃ x th t s',
      (for_each (ready_threads_list.link 1) [11; 12; 13; 14; 15; 16];;
       ready_threads_list.unlink_head 1) scenario_S1 = Ok (th, s')
      ∧ x ∈ [11; 12; 13; 14; 15; 16]
      ∧ threads s' !! th = Some t ∧ sched_state_ t = running.
Proof.
  split; [apply is_list_S1|].
  destruct (unlink_head_returns_highest_priority_first_linked scenario_S1 1 11
              [12; 13; 14; 15; 16] (λ x, default 0 (wprio scenario_S1 x)))
    as (x & th & t & l & s' & Hr & Hx & _ & _ & _ & Ht & Hst & _).
  - apply is_list_S1.
  - concrete_NoDup.
  - intros x Hx. concrete_elem Hx; (split; [discriminate|by vm_compute]).
  - intros x Hx. concrete_elem Hx; by vm_compute.
  - exists x, th, t, s'. exact (conj Hr (conj Hx (conj Ht Hst))).
Defined.

(** X13 on the empty list of scenario S1 and the zero header of S2. *)
Lemma unlink_head_of_empty_list_fails_witness :
  ready_threads_list.unlink_head 1 scenario_S1 = Fault (assertion_failed 246)
  ∧ ready_threads_list.unlink_head 1 scenario_S2 = Fault (assertion_failed 246).
Proof.
  split.
  - apply (proj1 unlink_head_of_empty_list_fails scenario_S1 1), is_list_S1.
  - apply (proj2 unlink_head_of_empty_list_fails scenario_S2 1). by vm_compute.
Defined.

(** X14: the destructor of a list that holds one node. *)
Lemma double_list_must_be_empty_when_destroyed_witness :
  is_list (links_of scenario_one_waiter) 1 [11]
  ∧ double_list.destruct 1 scenario_one_waiter = Fault (assertion_failed 159).
Proof.
  split; [apply is_list_one_waiter|].
  apply (proj2 double_list_must_be_empty_when_destroyed
           scenario_one_waiter 1 11 []).
  apply is_list_one_waiter.
Defined.

Lemma is_list_three_timeouts :
  is_list (links_of scenario_three_timeouts) 1 [11; 12; 13].
Proof. split; [concrete_NoDup|by vm_compute]. Qed.

(** X15: the tick 40 on a clock list whose head is at 50. *)
Lemma check_timestamp_without_expiry_is_noop_witness :
  is_list (links_of scenario_three_timeouts) 1 [11; 12; 13]
  ∧ check_timestamp 1 1 40 scenario_three_timeouts
    = Ok (tt, scenario_three_timeouts).
Proof.
  split; [apply is_list_three_timeouts|].
  apply (proj2 (proj2 check_timestamp_without_expiry_is_noop)
           scenario_three_timeouts 1 11 [12; 13] 50 40 0%nat).
  - apply is_list_three_timeouts.
  - by vm_compute.
  - lia.
Defined.


(** X17: the node 12 is unlinked before the tick 80. *)
Lemma unlinked_timestamp_node_is_not_fired_witness :
  is_list (links_of scenario_three_timeouts) 1 ([11] ++ 12 :: [13])
  ∧ ∃ s',
      (static_double_list_links.unlink 12;; check_timestamp 3 1 80)
        scenario_three_timeouts = Ok (tt, s')
      ∧ fired (trace s')
        = fired (trace scenario_three_timeouts)
          ++ ((λ y, (y, default 0 (tstamp scenario_three_timeouts y)))
              <$> filter
                    (λ y, default 0 (tstamp scenario_three_timeouts y) ≤ 80)
                    ([11] ++ [13])).
Proof.
  split; [apply is_list_three_timeouts|].
  destruct (unlinked_timestamp_node_is_not_fired scenario_three_timeouts 1
              [11] 12 [13]
              (λ x, default 0 (tstamp scenario_three_timeouts x)) 80 3%nat)
    as (s' & Hr & Hf & _).
  - apply is_list_three_timeouts.
  - cbn [app].
    repeat (apply SSorted_cons; [|repeat constructor; by vm_compute]).
    constructor.
  - intros y Hy. cbn [app] in Hy.
    concrete_elem Hy; left; do 2 eexists; split; by vm_compute.
  - cbn. lia.
  - exists s'. exact (conj Hr Hf).
Defined.

(** X18 at scenario S6. *)
Lemma children_link_on_zero_header_dereferences_null_witness :
  detached (links_of scenario_S6) 1
  ∧ thread_children_list.link 1 21 scenario_S6 = Fault null_dereference.
Proof.
  split; [by vm_compute|].
  apply (children_link_on_zero_header_dereferences_null scenario_S6 1 21
           (Thread 4 ready 31)).
  - by vm_compute.
  - by vm_compute.
  - discriminate.
  - by vm_compute.
Defined.

(** X19 at scenario S6: a detached node behind a zero header, and
    behind a null pointer. *)
Lemma link_preconditions_are_asserted_witness :
  static_double_list.insert_after 31 (Some 1) scenario_S6
  = Fault (assertion_failed 125)
  ∧ static_double_list.insert_after 31 None scenario_S6
    = Fault null_dereference.
Proof.
  split.
  - apply (proj1 (proj2 link_preconditions_are_asserted) scenario_S6 31 1).
    + by vm_compute.
    + exists (Links None None). by vm_compute.
    + by vm_compute.
  - apply (proj1 (proj2 (proj2 link_preconditions_are_asserted)) scenario_S6 31).
    by vm_compute.
Defined.
